(** * Interactive Ollama chat clients (gemma_interactive.py, phi_interactive.py)

    A shallow embedding of the two session controllers, of the stream
    decoding loop they share and of the conversation store, with the
    properties of the specification stated over it.

    Conventions.
    - A Python [str] whose code points lie in U+0000..U+00FF is a Rocq
      [string]; one character is one code point, so [len] and slicing
      count characters.  What is typed at the keyboard, the names of
      models and files, and the keys of dictionaries are such strings.
      A [str] that holds a code point above U+00FF, as the service or a
      file can deliver it, is given by its code points ([PUni]).
    - A Python [bytes] is a [list byte].
    - Values that come out of [json.loads] are [pyval]s; a [dict] is an
      association list in insertion order, looked up by its first match.
    - An exception is a [Raise] in the [result] type.
    - What the process prints is a list of [output] events; the prompts
      of [input()] and the pictographs of some texts are left out. *)

From Stdlib Require Import List Strings.String Strings.Ascii Strings.Byte.
From Stdlib Require Import ZArith NArith Bool Arith Lia DecimalString.
Import ListNotations.

Local Open Scope string_scope.
Local Open Scope list_scope.

Set Warnings "-register-all".

(* ===================================================================== *)
(** ** Python values and exceptions                                        *)
(* ===================================================================== *)

Definition bytes := list byte.

Inductive pyval : Type :=
| PNone
| PBool (b : bool)
| PInt (z : Z)
| PFloat (repr : string)                 (* a float, by its [repr] *)
| PStr (s : string)                      (* a str of U+0000..U+00FF *)
| PUni (codes : list N)                  (* a str with a code point above
                                            U+00FF, by its code points *)
| PList (l : list pyval)
| PDict (d : list (string * pyval)).

Inductive exn : Type :=
| TypeError
| AttributeError
| KeyError
| IndexError
| EOFError
| OSError
| UnicodeDecodeError
| UnicodeEncodeError
| JSONDecodeError
| RecursionError
| KeyboardInterrupt                       (* not of the class Exception *)
| ReqTimeout                              (* requests.exceptions.Timeout *)
| RequestException (msg : string)         (* any other requests exception *)
| Unmodelled.       (* not a Python exception: the answer of the concrete
                       reader [Json.loads] to text it does not cover *)

Inductive result (A : Type) : Type :=
| Ok (a : A)
| Raise (e : exn).

Arguments Ok {A} a.
Arguments Raise {A} e.

Definition bind {A B} (r : result A) (k : A -> result B) : result B :=
  match r with
  | Ok a => k a
  | Raise e => Raise e
  end.

(** [requests.exceptions.Timeout] is a subclass of
    [requests.exceptions.RequestException]. *)
Definition is_request_exception (e : exn) : bool :=
  match e with
  | ReqTimeout | RequestException _ => true
  | _ => false
  end.

(** *** Strings *)

Fixpoint string_of_list (l : list ascii) : string :=
  match l with
  | [] => EmptyString
  | c :: l' => String c (string_of_list l')
  end.

Fixpoint list_of_string (s : string) : list ascii :=
  match s with
  | EmptyString => []
  | String c s' => c :: list_of_string s'
  end.

(** [s[:n]] *)
Definition str_slice_to (n : nat) (s : string) : string := substring 0 n s.

(** [needle in hay] for two strings. *)
Fixpoint str_contains (needle hay : string) : bool :=
  prefix needle hay ||
  match hay with
  | EmptyString => false
  | String _ hay' => str_contains needle hay'
  end.

(** *** Strings by their code points *)

Definition codes_of (s : string) : list N :=
  map N_of_ascii (list_of_string s).

(** The [str] with the given code points. *)
Definition str_of_codes (codes : list N) : pyval :=
  if forallb (fun c => c <? 256)%N codes
  then PStr (string_of_list (map ascii_of_N codes))
  else PUni codes.

Fixpoint codes_eqb (x y : list N) : bool :=
  match x, y with
  | [], [] => true
  | a :: x', b :: y' => (a =? b)%N && codes_eqb x' y'
  | _, _ => false
  end.

Fixpoint codes_prefix (p l : list N) : bool :=
  match p, l with
  | [], _ => true
  | a :: p', b :: l' => (a =? b)%N && codes_prefix p' l'
  | _ :: _, [] => false
  end.

(** [needle in hay] by code points. *)
Fixpoint codes_contain (needle hay : list N) : bool :=
  codes_prefix needle hay ||
  match hay with
  | [] => false
  | _ :: hay' => codes_contain needle hay'
  end.

(** [isinstance(v, str)] *)
Definition is_str (v : pyval) : bool :=
  match v with
  | PStr _ | PUni _ => true
  | _ => false
  end.

(** *** Truth value, [len], [in], subscription, [dict.get] *)

Definition float_is_zero (repr : string) : bool :=
  (repr =? "0.0") || (repr =? "-0.0").

Definition truthy (v : pyval) : bool :=
  match v with
  | PNone => false
  | PBool b => b
  | PInt z => negb (z =? 0)%Z
  | PFloat repr => negb (float_is_zero repr)
  | PStr s => negb (s =? "")
  | PUni codes => match codes with [] => false | _ => true end
  | PList l => match l with [] => false | _ => true end
  | PDict d => match d with [] => false | _ => true end
  end.

Definition py_len (v : pyval) : result nat :=
  match v with
  | PStr s => Ok (String.length s)
  | PUni codes => Ok (List.length codes)
  | PList l => Ok (List.length l)
  | PDict d => Ok (List.length d)
  | _ => Raise TypeError
  end.

Fixpoint dict_lookup (k : string) (d : list (string * pyval)) : option pyval :=
  match d with
  | [] => None
  | (k', v) :: d' => if k' =? k then Some v else dict_lookup k d'
  end.

(** Structural equality of Python values, as [==] decides it on values
    read from JSON of one type; used by [in] on a list. *)
Fixpoint pyval_eqb (a b : pyval) {struct a} : bool :=
  match a, b with
  | PNone, PNone => true
  | PBool x, PBool y => Bool.eqb x y
  | PInt x, PInt y => (x =? y)%Z
  | PFloat x, PFloat y => (x =? y)
  | PStr x, PStr y => (x =? y)
  | PUni x, PUni y => codes_eqb x y
  | PList x, PList y =>
      (fix go (x y : list pyval) : bool :=
         match x, y with
         | [], [] => true
         | a :: x', b :: y' => pyval_eqb a b && go x' y'
         | _, _ => false
         end) x y
  | PDict x, PDict y =>
      (fix go (x y : list (string * pyval)) : bool :=
         match x, y with
         | [], [] => true
         | (k, a) :: x', (k', b) :: y' => (k =? k') && pyval_eqb a b && go x' y'
         | _, _ => false
         end) x y
  | _, _ => false
  end.

(** ['k' in data] *)
Definition py_contains (k : string) (data : pyval) : result bool :=
  match data with
  | PDict d => Ok (match dict_lookup k d with Some _ => true | None => false end)
  | PList l => Ok (existsb (pyval_eqb (PStr k)) l)
  | PStr s => Ok (str_contains k s)
  | PUni codes => Ok (codes_contain (codes_of k) codes)
  | _ => Raise TypeError
  end.

(** [data['k']] *)
Definition py_getitem (data : pyval) (k : string) : result pyval :=
  match data with
  | PDict d => match dict_lookup k d with Some v => Ok v | None => Raise KeyError end
  | _ => Raise TypeError
  end.

(** [data.get('k', default)] *)
Definition py_get (data : pyval) (k : string) (default : pyval) : result pyval :=
  match data with
  | PDict d => Ok (match dict_lookup k d with Some v => v | None => default end)
  | _ => Raise AttributeError
  end.

(** [lst.append(x)] *)
Definition py_append (lst x : pyval) : result pyval :=
  match lst with
  | PList l => Ok (PList (l ++ [x]))
  | _ => Raise AttributeError
  end.

(* ===================================================================== *)
(** ** The [json] library, as an interface                                *)
(* ===================================================================== *)

(** [except Exception]: every exception but [KeyboardInterrupt]. *)
Definition is_exception (e : exn) : bool :=
  match e with
  | KeyboardInterrupt => false
  | _ => true
  end.

(** [except KeyboardInterrupt] *)
Definition is_keyboard_interrupt (e : exn) : bool :=
  match e with
  | KeyboardInterrupt => true
  | _ => false
  end.

(** [json_loads bs] is [json.loads(bs.decode('utf-8'))]: it raises
    [UnicodeDecodeError] or [JSONDecodeError], or returns a value.
    [json_dump ensure_ascii v] is what
    [json.dump(v, f, indent=2, ensure_ascii=...)] does to a file [f]
    opened for writing in UTF-8: the bytes that have reached the file
    when the call ends, and the exception it ends with, if any.  The
    dump writes [f] piece by piece, so a dump that raises leaves the
    pieces written before.  [KeyboardInterrupt] is met in this model
    where the program waits, at [input()] and in a request, and not
    inside [json]. *)
Class JsonLib : Type := {
  json_loads : bytes -> result pyval;
  json_dump : bool -> pyval -> bytes * option exn;
  json_loads_raises :
    forall bs e, json_loads bs = Raise e -> is_exception e = true;
  json_dump_raises :
    forall ensure_ascii v bs e,
      json_dump ensure_ascii v = (bs, Some e) -> is_exception e = true
}.

(* ===================================================================== *)
(** ** [Response.iter_lines] of the requests library                      *)
(* ===================================================================== *)

Definition is_cr (b : byte) : bool := Byte.eqb b x0d.
Definition is_lf (b : byte) : bool := Byte.eqb b x0a.
Definition is_eol (b : byte) : bool := is_cr b || is_lf b.

(** [bytes.splitlines()]: lines end at "\n", "\r" or "\r\n"; the
    terminators are dropped and a last unterminated line is kept when it
    is not empty.  [cur] holds the bytes of the current line, reversed. *)
Fixpoint splitlines_from (cur : bytes) (bs : bytes) : list bytes :=
  match bs with
  | [] => match cur with [] => [] | _ => [rev cur] end
  | b :: rest =>
      if is_lf b then rev cur :: splitlines_from [] rest
      else if is_cr b then
        match rest with
        | b' :: rest' =>
            if is_lf b' then rev cur :: splitlines_from [] rest'
            else rev cur :: splitlines_from [] rest
        | [] => rev cur :: splitlines_from [] rest
        end
      else splitlines_from (b :: cur) rest
  end.

Definition splitlines (bs : bytes) : list bytes := splitlines_from [] bs.

(** [lines[-1] and chunk and lines[-1][-1] == chunk[-1]] *)
Definition ends_alike (line chunk : bytes) : bool :=
  match rev line, rev chunk with
  | a :: _, b :: _ => Byte.eqb a b
  | _, _ => false
  end.

(** [iter_lines] of requests/models.py, with its default arguments:
<<
    pending = None
    for chunk in self.iter_content(chunk_size=chunk_size, ...):
        if pending is not None:
            chunk = pending + chunk
        lines = chunk.splitlines()
        if lines and lines[-1] and chunk and lines[-1][-1] == chunk[-1]:
            pending = lines.pop()
        else:
            pending = None
        yield from lines
    if pending is not None:
        yield pending
>>
    [iter_lines_chunk] is one round of the loop: the lines it yields and
    the new [pending]. *)
Definition iter_lines_chunk (pending : option bytes) (chunk : bytes)
  : list bytes * option bytes :=
  let chunk := match pending with Some p => p ++ chunk | None => chunk end in
  let lines := splitlines chunk in
  match rev lines with
  | last :: before =>
      if ends_alike last chunk then (rev before, Some last) else (lines, None)
  | [] => (lines, None)
  end.

(** How the byte source ends: the body is complete, or the connection
    fails while the next chunk is awaited. *)
Inductive stream_end : Type :=
| Finished
| Dropped (msg : string).

(* ===================================================================== *)
(** ** The stream decoding loop of [stream_message]                       *)
(* ===================================================================== *)

(** How the [for line in ...] loop goes on after a line, and how it ends. *)
Inductive flow : Type :=
| Next                      (* next iteration; at the end: source exhausted *)
| Stop                      (* [break] *)
| Throw (e : exn).          (* an exception leaves the loop *)

Section Decoder.
Context {J : JsonLib}.

(** The default of [data.get('done', ...)]: [False] in
    gemma_interactive.py, [None] in phi_interactive.py. *)
Variable done_default : pyval.

(** The body of the loop for one line; the values are those handed to
    [print(data['response'], end='', flush=True)]. *)
Definition handle_line (line : bytes) : list pyval * flow :=
  match line with
  | [] => ([], Next)
  | _ =>
      match json_loads line with
      | Raise JSONDecodeError => ([], Next)
      | Raise e => ([], Throw e)
      | Ok data =>
          match py_contains "response" data with
          | Raise e => ([], Throw e)
          | Ok has =>
              match (if has then bind (py_getitem data "response")
                                      (fun v => Ok [v])
                     else Ok []) with
              | Raise e => ([], Throw e)
              | Ok printed =>
                  match py_get data "done" done_default with
                  | Raise e => (printed, Throw e)
                  | Ok d => (printed, if truthy d then Stop else Next)
                  end
              end
          end
      end
  end.

Fixpoint handle_lines (lines : list bytes) : list pyval * flow :=
  match lines with
  | [] => ([], Next)
  | line :: rest =>
      match handle_line line with
      | (out, Next) => let (out', f) := handle_lines rest in (out ++ out', f)
      | (out, f) => (out, f)
      end
  end.

(** [for line in r.iter_lines(): ...] over the chunks of the body.  A
    chunk is read only when the lines of the chunks before it did not
    leave the loop. *)
Fixpoint stream_loop (pending : option bytes) (chunks : list bytes)
         (fin : stream_end) : list pyval * flow :=
  match chunks with
  | [] =>
      match fin with
      | Dropped msg => ([], Throw (RequestException msg))
      | Finished =>
          match pending with
          | Some p => handle_lines [p]
          | None => ([], Next)
          end
      end
  | chunk :: rest =>
      let (lines, pending') := iter_lines_chunk pending chunk in
      match handle_lines lines with
      | (out, Next) =>
          let (out', f) := stream_loop pending' rest fin in (out ++ out', f)
      | (out, f) => (out, f)
      end
  end.

Definition decode (chunks : list bytes) (fin : stream_end) : list pyval * flow :=
  stream_loop None chunks fin.

End Decoder.

(* ===================================================================== *)
(** ** A concrete [json]: reader, writer and UTF-8                        *)
(* ===================================================================== *)

(** The reader follows [json.decoder] (scanner, [JSONArray],
    [JSONObject], [scanstring] with [strict=True]) and the writer follows
    [json.encoder] with [indent=2].  For a text with a character above
    U+00FF, and for numbers that Python reads as a [float], the reader
    answers [Unmodelled].  The writer covers every value. *)
Module Json.

Definition text := list ascii.

Definition quote : ascii := "034"%char.
Definition backslash : ascii := "092"%char.

Definition text_of (s : string) : text := list_of_string s.

(** *** UTF-8 for U+0000..U+00FF *)

Definition encode_char (c : ascii) : bytes :=
  let n := nat_of_ascii c in
  if (n <? 128)%nat then [byte_of_ascii c]
  else if (n <? 192)%nat then [xc2; byte_of_ascii c]
  else [xc3; byte_of_ascii (ascii_of_nat (n - 64))].

Definition encode_utf8 (t : text) : bytes := flat_map encode_char t.

Definition is_continuation (b : byte) : bool :=
  let n := nat_of_ascii (ascii_of_byte b) in
  ((128 <=? n) && (n <? 192))%nat.

Fixpoint decode_utf8 (bs : bytes) : result text :=
  match bs with
  | [] => Ok []
  | b :: rest =>
      let n := nat_of_ascii (ascii_of_byte b) in
      if (n <? 128)%nat then
        bind (decode_utf8 rest) (fun t => Ok (ascii_of_byte b :: t))
      else
        match rest with
        | b' :: rest' =>
            if Byte.eqb b xc2 && is_continuation b' then
              bind (decode_utf8 rest') (fun t => Ok (ascii_of_byte b' :: t))
            else if Byte.eqb b xc3 && is_continuation b' then
              bind (decode_utf8 rest') (fun t =>
                Ok (ascii_of_nat (nat_of_ascii (ascii_of_byte b') + 64) :: t))
            else if (194 <=? n)%nat && (n <? 245)%nat && is_continuation b'
            then Raise Unmodelled           (* a character above U+00FF *)
            else Raise UnicodeDecodeError
        | [] => Raise UnicodeDecodeError
        end
  end.

(** *** The reader *)

Definition is_ws (c : ascii) : bool :=
  match c with
  | " "%char | "009"%char | "010"%char | "013"%char => true
  | _ => false
  end.

Fixpoint skip_ws (t : text) : text :=
  match t with
  | c :: t' => if is_ws c then skip_ws t' else t
  | [] => []
  end.

Definition is_digit (c : ascii) : bool :=
  let n := nat_of_ascii c in ((48 <=? n) && (n <=? 57))%nat.

Definition digit_value (c : ascii) : Z := Z.of_nat (nat_of_ascii c - 48).

Definition hex_value (c : ascii) : option nat :=
  let n := nat_of_ascii c in
  if ((48 <=? n) && (n <=? 57))%nat then Some (n - 48)
  else if ((97 <=? n) && (n <=? 102))%nat then Some (n - 87)
  else if ((65 <=? n) && (n <=? 70))%nat then Some (n - 55)
  else None.

Definition hex4 (a b c d : ascii) : option nat :=
  match hex_value a, hex_value b, hex_value c, hex_value d with
  | Some x, Some y, Some z, Some w => Some (((x * 16 + y) * 16 + z) * 16 + w)
  | _, _, _, _ => None
  end.

(** The character a one-letter escape stands for. *)
Definition unescape (e : ascii) : option ascii :=
  match e with
  | "034"%char => Some "034"%char
  | "092"%char => Some "092"%char
  | "/"%char => Some "/"%char
  | "b"%char => Some "008"%char
  | "f"%char => Some "012"%char
  | "n"%char => Some "010"%char
  | "r"%char => Some "013"%char
  | "t"%char => Some "009"%char
  | _ => None
  end.

(** [scanstring], after the opening quote; [acc] is reversed. *)
Fixpoint read_string (acc : text) (t : text) : result (string * text) :=
  match t with
  | [] => Raise JSONDecodeError
  | c :: t1 =>
      if Ascii.eqb c quote then Ok (string_of_list (rev acc), t1)
      else if Ascii.eqb c backslash then
        match t1 with
        | [] => Raise JSONDecodeError
        | e :: t2 =>
            if Ascii.eqb e "u" then
              match t2 with
              | h1 :: h2 :: h3 :: h4 :: t3 =>
                  match hex4 h1 h2 h3 h4 with
                  | Some n =>
                      if (n <? 256)%nat
                      then read_string (ascii_of_nat n :: acc) t3
                      else Raise Unmodelled
                  | None => Raise JSONDecodeError
                  end
              | _ => Raise JSONDecodeError
              end
            else
              match unescape e with
              | Some c' => read_string (c' :: acc) t2
              | None => Raise JSONDecodeError
              end
        end
      else if (nat_of_ascii c <? 32)%nat then Raise JSONDecodeError
      else read_string (c :: acc) t1
  end.

Fixpoint read_digits (acc : Z) (t : text) : Z * text :=
  match t with
  | c :: t' =>
      if is_digit c then read_digits (acc * 10 + digit_value c)%Z t'
      else (acc, t)
  | [] => (acc, [])
  end.

(** [NUMBER_RE] behind the integer part: a fraction is a point and a
    digit, an exponent is [e] or [E], an optional sign and a digit.  With
    one of them the number is a [float]. *)
Definition starts_digit (t : text) : bool :=
  match t with
  | c :: _ => is_digit c
  | [] => false
  end.

Definition end_of_int (z : Z) (t : text) : result (pyval * text) :=
  let float :=
    match t with
    | "."%char :: t' => starts_digit t'
    | "e"%char :: t' | "E"%char :: t' =>
        match t' with
        | "+"%char :: t'' | "-"%char :: t'' => starts_digit t''
        | _ => starts_digit t'
        end
    | _ => false
    end in
  if float then Raise Unmodelled else Ok (PInt z, t).

(** [NUMBER_RE]: an optional minus sign, then a single 0 or a digit
    1-9 followed by digits; and the float constants [NaN], [Infinity]
    and [-Infinity]. *)
Definition read_number (t : text) : result (pyval * text) :=
  let unsigned (sign : Z) (t : text) :=
    match t with
    | c :: t' =>
        if Ascii.eqb c "0" then end_of_int 0 t'
        else if is_digit c then
          let (n, rest) := read_digits (digit_value c) t' in
          end_of_int (sign * n) rest
        else if prefix "Infinity" (string_of_list t) then Raise Unmodelled
        else Raise JSONDecodeError
    | [] => Raise JSONDecodeError
    end in
  match t with
  | "-"%char :: t' => unsigned (-1)%Z t'
  | "N"%char :: "a"%char :: "N"%char :: _ => Raise Unmodelled
  | _ => unsigned 1%Z t
  end.

(** [dict(pairs)]: a key read again keeps its place and takes the new
    value. *)
Fixpoint dict_set (k : string) (v : pyval) (d : list (string * pyval))
  : list (string * pyval) :=
  match d with
  | [] => [(k, v)]
  | (k', v') :: d' =>
      if (k' =? k)%string then (k', v) :: d' else (k', v') :: dict_set k v d'
  end.

Fixpoint read_value (fuel : nat) (t : text) {struct fuel}
  : result (pyval * text) :=
  match fuel with
  | O => Raise RecursionError
  | S fuel' =>
      match t with
      | "034"%char :: t1 =>
          bind (read_string [] t1) (fun r => Ok (PStr (fst r), snd r))
      | "["%char :: t1 =>
          match skip_ws t1 with
          | "]"%char :: rest => Ok (PList [], rest)
          | t2 => read_elements fuel' [] t2
          end
      | "{"%char :: t1 =>
          match skip_ws t1 with
          | "}"%char :: rest => Ok (PDict [], rest)
          | t2 => read_members fuel' [] t2
          end
      | "n"%char :: "u"%char :: "l"%char :: "l"%char :: rest =>
          Ok (PNone, rest)
      | "t"%char :: "r"%char :: "u"%char :: "e"%char :: rest =>
          Ok (PBool true, rest)
      | "f"%char :: "a"%char :: "l"%char :: "s"%char :: "e"%char :: rest =>
          Ok (PBool false, rest)
      | _ => read_number t
      end
  end

with read_elements (fuel : nat) (acc : list pyval) (t : text) {struct fuel}
  : result (pyval * text) :=
  match fuel with
  | O => Raise RecursionError
  | S fuel' =>
      match read_value fuel' t with
      | Raise e => Raise e
      | Ok (v, rest) =>
          match skip_ws rest with
          | "]"%char :: rest' => Ok (PList (rev (v :: acc)), rest')
          | ","%char :: rest' => read_elements fuel' (v :: acc) (skip_ws rest')
          | _ => Raise JSONDecodeError
          end
      end
  end

with read_members (fuel : nat) (acc : list (string * pyval)) (t : text)
     {struct fuel} : result (pyval * text) :=
  match fuel with
  | O => Raise RecursionError
  | S fuel' =>
      match t with
      | "034"%char :: t1 =>
          match read_string [] t1 with
          | Raise e => Raise e
          | Ok (key, t2) =>
              match skip_ws t2 with
              | ":"%char :: t3 =>
                  match read_value fuel' (skip_ws t3) with
                  | Raise e => Raise e
                  | Ok (v, t4) =>
                      match skip_ws t4 with
                      | "}"%char :: rest => Ok (PDict (dict_set key v acc), rest)
                      | ","%char :: t5 =>
                          read_members fuel' (dict_set key v acc) (skip_ws t5)
                      | _ => Raise JSONDecodeError
                      end
                  end
              | _ => Raise JSONDecodeError
              end
          end
      | _ => Raise JSONDecodeError
      end
  end.

(** [json.loads(s)] for a [str]. *)
Definition loads (t : text) : result pyval :=
  match read_value (2 * List.length t + 2) (skip_ws t) with
  | Raise e => Raise e
  | Ok (v, rest) =>
      match skip_ws rest with
      | [] => Ok v
      | _ => Raise JSONDecodeError
      end
  end.

(** *** The writer *)

Definition hex_digit (n : nat) : ascii :=
  if (n <? 10)%nat then ascii_of_nat (48 + n) else ascii_of_nat (87 + n).

(** [ESCAPE_DCT] and the regular expressions [ESCAPE_ASCII] / [ESCAPE]. *)
Definition escape_char (ensure_ascii : bool) (c : ascii) : text :=
  let n := nat_of_ascii c in
  if Ascii.eqb c quote then [backslash; quote]
  else if Ascii.eqb c backslash then [backslash; backslash]
  else if (n =? 10)%nat then [backslash; "n"%char]
  else if (n =? 13)%nat then [backslash; "r"%char]
  else if (n =? 9)%nat then [backslash; "t"%char]
  else if (n =? 8)%nat then [backslash; "b"%char]
  else if (n =? 12)%nat then [backslash; "f"%char]
  else if (n <? 32)%nat || (ensure_ascii && (126 <? n)%nat) then
    [backslash; "u"%char; "0"%char; "0"%char;
     hex_digit (n / 16); hex_digit (n mod 16)]
  else [c].

Definition write_string (ensure_ascii : bool) (s : string) : text :=
  quote :: flat_map (escape_char ensure_ascii) (list_of_string s) ++ [quote].

Definition write_int (z : Z) : text :=
  list_of_string (NilEmpty.string_of_int (Z.to_int z)).

Definition write_float (repr : string) : text :=
  if (repr =? "nan")%string then text_of "NaN"
  else if (repr =? "inf")%string then text_of "Infinity"
  else if (repr =? "-inf")%string then text_of "-Infinity"
  else list_of_string repr.

(** ['\n' + ' ' * (indent * level)] with [indent=2]. *)
Definition newline_indent (level : nat) : text :=
  "010"%char :: repeat " "%char (2 * level).

(** An item of a list or of a dictionary that is not the first one. *)
Definition next_item (level : nat) (item : text) : text :=
  ","%char :: newline_indent level ++ item.

Definition write_member (ensure_ascii : bool) (k : string) (value : text) : text :=
  write_string ensure_ascii k ++ text_of ": " ++ value.

Fixpoint write_value (ensure_ascii : bool) (level : nat) (v : pyval) : text :=
  match v with
  | PNone => text_of "null"
  | PBool true => text_of "true"
  | PBool false => text_of "false"
  | PInt z => write_int z
  | PFloat repr => write_float repr
  | PStr s => write_string ensure_ascii s
  | PUni _ => []                  (* no text of this alphabet: see [iterencode] *)
  | PList [] => text_of "[]"
  | PList (x :: xs) =>
      "["%char :: newline_indent (S level)
      ++ write_value ensure_ascii (S level) x
      ++ flat_map (fun y => next_item (S level)
                              (write_value ensure_ascii (S level) y)) xs
      ++ newline_indent level ++ ["]"%char]
  | PDict [] => text_of "{}"
  | PDict ((k, x) :: kxs) =>
      "{"%char :: newline_indent (S level)
      ++ write_member ensure_ascii k (write_value ensure_ascii (S level) x)
      ++ flat_map (fun ky => next_item (S level)
                               (write_member ensure_ascii (fst ky)
                                  (write_value ensure_ascii (S level) (snd ky))))
                  kxs
      ++ newline_indent level ++ ["}"%char]
  end.

(** [json.dumps(v, indent=2, ensure_ascii=...)] for a value whose
    strings are of U+0000..U+00FF. *)
Definition dumps (ensure_ascii : bool) (v : pyval) : text :=
  write_value ensure_ascii 0 v.

(** *** The writer, piece by piece

    [json.dump] writes the pieces that [JSONEncoder.iterencode] yields
    ([_make_iterencode] of json/encoder.py), one [f.write] each.  A
    piece is a text by its code points. *)

Definition wtext := list N.

Definition wide (t : text) : wtext := map N_of_ascii t.

(** ['\\u{0:04x}'.format(c)]: a backslash, [u] and four hexadecimal
    digits in lower case. *)
Definition unicode_escape (c : N) : text :=
  [backslash; "u"%char;
   hex_digit (N.to_nat ((c / 4096) mod 16));
   hex_digit (N.to_nat ((c / 256) mod 16));
   hex_digit (N.to_nat ((c / 16) mod 16));
   hex_digit (N.to_nat (c mod 16))].

(** One code point of a string: as [escape_char] up to U+00FF; above,
    [ensure_ascii] writes an escape, two for a code point above U+FFFF,
    and without it the code point is written as it is. *)
Definition escape_code (ensure_ascii : bool) (c : N) : wtext :=
  if (c <? 256)%N then wide (escape_char ensure_ascii (ascii_of_N c))
  else if ensure_ascii then
    if (c <? 65536)%N then wide (unicode_escape c)
    else
      let n := (c - 65536)%N in
      wide (unicode_escape (55296 + (n / 1024) mod 1024)
            ++ unicode_escape (56320 + n mod 1024))
  else [c].

Definition write_codes (ensure_ascii : bool) (codes : list N) : wtext :=
  N_of_ascii quote :: flat_map (escape_code ensure_ascii) codes
  ++ [N_of_ascii quote].

(** What is written for a value that is neither a list nor a
    dictionary: one piece. *)
Definition atom (ensure_ascii : bool) (v : pyval) : option wtext :=
  match v with
  | PNone => Some (wide (text_of "null"))
  | PBool true => Some (wide (text_of "true"))
  | PBool false => Some (wide (text_of "false"))
  | PInt z => Some (wide (write_int z))
  | PFloat repr => Some (wide (write_float repr))
  | PStr s => Some (wide (write_string ensure_ascii s))
  | PUni codes => Some (write_codes ensure_ascii codes)
  | PList _ | PDict _ => None
  end.

(** The pieces of a value.  In a list, the bracket or the separator
    before an item is one piece with the item when the item is an atom,
    and a piece of its own before a list or a dictionary.  In a
    dictionary, brace, indent, separator, key, colon and an atom are a
    piece each. *)
Fixpoint iterencode (ensure_ascii : bool) (level : nat) (v : pyval)
  : list wtext :=
  match v with
  | PList [] => [wide (text_of "[]")]
  | PList (x :: xs) =>
      (match atom ensure_ascii x with
       | Some t => [wide ("["%char :: newline_indent (S level)) ++ t]
       | None => wide ("["%char :: newline_indent (S level))
                 :: iterencode ensure_ascii (S level) x
       end)
      ++ flat_map (fun y =>
                     match atom ensure_ascii y with
                     | Some t => [wide (","%char :: newline_indent (S level)) ++ t]
                     | None => wide (","%char :: newline_indent (S level))
                               :: iterencode ensure_ascii (S level) y
                     end) xs
      ++ [wide (newline_indent level); wide ["]"%char]]
  | PDict [] => [wide (text_of "{}")]
  | PDict ((k, x) :: kxs) =>
      wide ["{"%char] :: wide (newline_indent (S level))
      :: wide (write_string ensure_ascii k) :: wide (text_of ": ")
      :: (match atom ensure_ascii x with
          | Some t => [t]
          | None => iterencode ensure_ascii (S level) x
          end)
      ++ flat_map (fun ky =>
                     wide (","%char :: newline_indent (S level))
                     :: wide (write_string ensure_ascii (fst ky))
                     :: wide (text_of ": ")
                     :: match atom ensure_ascii (snd ky) with
                        | Some t => [t]
                        | None => iterencode ensure_ascii (S level) (snd ky)
                        end) kxs
      ++ [wide (newline_indent level); wide ["}"%char]]
  | _ =>
      match atom ensure_ascii v with
      | Some t => [t]
      | None => []
      end
  end.

(** *** UTF-8 for every code point, and the file *)

Definition is_surrogate (c : N) : bool := ((55296 <=? c) && (c <=? 57343))%N.

Definition byte_of_N (n : N) : byte := byte_of_ascii (ascii_of_N n).

Definition utf8 (c : N) : bytes :=
  if (c <? 128)%N then [byte_of_N c]
  else if (c <? 2048)%N then
    [byte_of_N (192 + c / 64); byte_of_N (128 + c mod 64)]
  else if (c <? 65536)%N then
    [byte_of_N (224 + c / 4096); byte_of_N (128 + (c / 64) mod 64);
     byte_of_N (128 + c mod 64)]
  else
    [byte_of_N (240 + c / 262144); byte_of_N (128 + (c / 4096) mod 64);
     byte_of_N (128 + (c / 64) mod 64); byte_of_N (128 + c mod 64)].

(** [for chunk in iterable: f.write(chunk)] on a file opened with
    [encoding='utf-8']: a piece that holds a surrogate cannot be encoded,
    [f.write] raises [UnicodeEncodeError] and nothing of that piece is
    written; the pieces before it stay in the file. *)
Fixpoint write_pieces (pieces : list wtext) : bytes * option exn :=
  match pieces with
  | [] => ([], None)
  | piece :: rest =>
      if existsb is_surrogate piece then ([], Some UnicodeEncodeError)
      else let (bs, r) := write_pieces rest in (flat_map utf8 piece ++ bs, r)
  end.

(** [json.dump(v, f, indent=2, ensure_ascii=...)] *)
Definition dump (ensure_ascii : bool) (v : pyval) : bytes * option exn :=
  write_pieces (iterencode ensure_ascii 0 v).

(** *** What the reader and the writer raise *)

(** A result that is no [KeyboardInterrupt]. *)
Definition raises_exceptions {A} (r : result A) : Prop :=
  forall e, r = Raise e -> is_exception e = true.

Lemma raises_ok {A} (a : A) : raises_exceptions (Ok a).
Proof. intros e H. discriminate H. Qed.

Lemma raises_bind {A B} (r : result A) (k : A -> result B) :
  raises_exceptions r -> (forall a, raises_exceptions (k a)) ->
  raises_exceptions (bind r k).
Proof.
  intros Hr Hk e. destruct r as [a|e']; cbn; [apply Hk|].
  intros [= <-]. now apply Hr.
Qed.

Ltac raises leaf :=
  repeat first
    [ apply raises_ok
    | match goal with
      | |- raises_exceptions (Raise _) => intros ? [= <-]; reflexivity
      | |- raises_exceptions (bind _ _) => apply raises_bind; [|intros ?]
      | |- raises_exceptions (match ?x with _ => _ end) =>
          lazymatch type of x with
          | result _ =>
              let H := fresh in
              assert (H : raises_exceptions x) by leaf;
              destruct x; [|intros ? [= <-]; exact (H _ eq_refl)]
          | _ => destruct x
          end
      | |- raises_exceptions (let (_, _) := ?x in _) => destruct x
      end
    | solve [leaf] ].

Lemma decode_utf8_raises (n : nat) : forall bs,
  List.length bs <= n -> raises_exceptions (decode_utf8 bs).
Proof.
  induction n as [|n IH]; intros [|b rest] Hn; cbn in Hn; try lia;
    cbn [decode_utf8]; raises ltac:(apply IH; cbn in *; lia).
Qed.

Lemma read_string_raises (n : nat) : forall t acc,
  List.length t <= n -> raises_exceptions (read_string acc t).
Proof.
  induction n as [|n IH]; intros [|c t1] acc Hn; cbn in Hn; try lia;
    cbn [read_string]; raises ltac:(apply IH; cbn in *; lia).
Qed.

Lemma read_number_raises t : raises_exceptions (read_number t).
Proof. unfold read_number, end_of_int. raises idtac. Qed.

Lemma read_value_raises (fuel : nat) :
  (forall t, raises_exceptions (read_value fuel t))
  /\ (forall acc t, raises_exceptions (read_elements fuel acc t))
  /\ (forall acc t, raises_exceptions (read_members fuel acc t)).
Proof.
  induction fuel as [|fuel (IHv & IHe & IHm)].
  - repeat split; intros; cbn; raises idtac.
  - pose proof read_number_raises as Hn.
    pose proof (fun t acc => read_string_raises (List.length t) t acc
                               (Nat.le_refl _)) as Hs.
    repeat split; intros.
    + cbn [read_value].
      raises ltac:(first [apply IHv|apply IHe|apply IHm|apply Hn|apply Hs]).
    + cbn [read_elements].
      raises ltac:(first [apply IHv|apply IHe|apply IHm|apply Hn|apply Hs]).
    + cbn [read_members].
      raises ltac:(first [apply IHv|apply IHe|apply IHm|apply Hn|apply Hs]).
Qed.

Lemma loads_raises bs :
  raises_exceptions (bind (decode_utf8 bs) loads).
Proof.
  apply raises_bind; [now apply (decode_utf8_raises (List.length bs))|].
  intros t. unfold loads.
  pose proof (proj1 (read_value_raises (2 * List.length t + 2))) as Hv.
  raises ltac:(apply Hv).
Qed.

Lemma write_pieces_raises pieces : forall bs e,
  write_pieces pieces = (bs, Some e) -> is_exception e = true.
Proof.
  induction pieces as [|piece rest IH]; intros bs e; cbn [write_pieces].
  - discriminate.
  - destruct (existsb is_surrogate piece); [now intros [= <- <-]|].
    destruct (write_pieces rest) as [bs' r]. intros [= <- ->].
    now apply (IH bs').
Qed.

#[global] Instance lib : JsonLib := {
  json_loads bs := bind (decode_utf8 bs) loads;
  json_dump := dump;
  json_loads_raises := loads_raises;
  json_dump_raises ensure_ascii v := write_pieces_raises _
}.

(** JSON source text for the examples, written with an apostrophe
    where the text has a quotation mark; [line] ends it with "\n". *)
Definition b (s : string) : bytes :=
  map (fun c => byte_of_ascii (if Ascii.eqb c "'" then quote else c))
      (list_of_string s).

Definition line (s : string) : bytes := b s ++ [x0a].

(** The characters a string, a list or a dictionary starts with. *)
Definition starts_value (c : ascii) : Prop :=
  c = quote \/ c = "["%char \/ c = "{"%char.

End Json.

(* ===================================================================== *)
(** ** Text helpers of the controllers                                     *)
(* ===================================================================== *)

(** [str.isspace] on one character of the 8-bit range. *)
Definition is_space (c : ascii) : bool :=
  let n := nat_of_ascii c in
  (((9 <=? n) && (n <=? 13)) || ((28 <=? n) && (n <=? 32))
   || (n =? 133) || (n =? 160))%nat.

(** [str.lower] on one character: A-Z, and the upper-case letters of
    U+00C0..U+00DE (U+00D7, the multiplication sign, is not a letter). *)
Definition lower_char (c : ascii) : ascii :=
  let n := nat_of_ascii c in
  if (((65 <=? n) && (n <=? 90))
      || ((192 <=? n) && (n <=? 222) && negb (n =? 215)))%nat
  then ascii_of_nat (n + 32) else c.

Fixpoint lower (s : string) : string :=
  match s with
  | EmptyString => EmptyString
  | String c s' => String (lower_char c) (lower s')
  end.

Fixpoint lstrip (s : string) : string :=
  match s with
  | EmptyString => EmptyString
  | String c s' => if is_space c then lstrip s' else s
  end.

Fixpoint string_rev_onto (acc s : string) : string :=
  match s with
  | EmptyString => acc
  | String c s' => string_rev_onto (String c acc) s'
  end.

Definition string_rev (s : string) : string := string_rev_onto EmptyString s.

(** [s.strip()] *)
Definition strip (s : string) : string :=
  string_rev (lstrip (string_rev (lstrip s))).

(** [s.split()]: the maximal runs of non-space characters.  [cur] is the
    current word, reversed. *)
Fixpoint split_from (cur : string) (s : string) : list string :=
  match s with
  | EmptyString =>
      match cur with EmptyString => [] | _ => [string_rev cur] end
  | String c s' =>
      if is_space c then
        match cur with
        | EmptyString => split_from EmptyString s'
        | _ => string_rev cur :: split_from EmptyString s'
        end
      else split_from (String c cur) s'
  end.

Definition split (s : string) : list string := split_from EmptyString s.

(** [s.startswith(p)] *)
Definition startswith (p s : string) : bool := prefix p s.

(** [x in names] for a list of strings. *)
Definition str_in (x : string) (names : list string) : bool :=
  existsb (String.eqb x) names.

Definition nat_to_str (n : nat) : string :=
  NilEmpty.string_of_uint (Nat.to_uint n).

(** *** [datetime] *)

Record datetime : Type := {
  year : nat; month : nat; day : nat;
  hour : nat; minute : nat; second : nat; microsecond : nat
}.

Definition digit (n : nat) : ascii := ascii_of_nat (48 + n mod 10).

Definition pad2 (n : nat) : string :=
  String (digit (n / 10)) (String (digit n) EmptyString).

Definition pad4 (n : nat) : string := pad2 (n / 100) ++ pad2 n.

Definition pad6 (n : nat) : string := pad2 (n / 100 / 100) ++ pad4 n.

(** [d.isoformat()]: the microseconds are left out when they are zero. *)
Definition isoformat (d : datetime) : string :=
  pad4 (year d) ++ "-" ++ pad2 (month d) ++ "-" ++ pad2 (day d) ++ "T"
  ++ pad2 (hour d) ++ ":" ++ pad2 (minute d) ++ ":" ++ pad2 (second d)
  ++ (if (microsecond d =? 0)%nat then "" else "." ++ pad6 (microsecond d)).

(** [d.strftime("%Y%m%d_%H%M%S")] *)
Definition strftime_compact (d : datetime) : string :=
  pad4 (year d) ++ pad2 (month d) ++ pad2 (day d) ++ "_"
  ++ pad2 (hour d) ++ pad2 (minute d) ++ pad2 (second d).

(** Timestamps are compared as the ISO-8601 texts the log stores. *)
Definition timestamp_le (a b : string) : bool := String.leb a b.

(* ===================================================================== *)
(** ** The world of a session: terminal, disk, service, clock             *)
(* ===================================================================== *)

Inductive color : Type := CUser | CModel | CSystem | CError | CInfo | CReset.

(** What the process writes to the terminal.  Texts built from strings
    are spelled out; a line that interpolates another value carries the
    value. *)
Inductive output : Type :=
| Print (c : color) (text : string)          (* print_colored / cprint *)
| PrintNoNewline (c : color) (text : string) (* cprint(..., end='') *)
| PrintFragment (v : pyval)       (* print(data['response'], end='', flush=True) *)
| PrintNewline                               (* print() *)
| PrintReply (v : pyval)                     (* "Gemma: {response}" / "Phi: {response}" *)
| PrintHttpError (status : Z)                (* "Error: HTTP {status_code}" *)
| PrintException (context : string) (e : exn)  (* "{context}{e}" in the error color *)
| PrintEntry (c : color) (i : nat) (role content : pyval)
                                             (* "{i}. {role}: {content}" *)
| PrintStats (now : datetime) (messages : nat)  (* show_stats / stats *)
| PrintResponseTime.                         (* "[Response time: ...s]" *)

(** The disk: what [open(path, 'r')] reads, and where [open(path, 'w')]
    succeeds. *)
Record filesystem : Type := {
  file_at : string -> option bytes;
  writable : string -> bool
}.

Definition fs_read (fs : filesystem) (path : string) : result bytes :=
  match file_at fs path with
  | Some data => Ok data
  | None => Raise OSError
  end.

Definition fs_write (fs : filesystem) (path : string) (data : bytes)
  : result filesystem :=
  if writable fs path then
    Ok {| file_at := fun p => if (p =? path)%string then Some data else file_at fs p;
          writable := writable fs |}
  else Raise OSError.

(** What [input()] does. *)
Inductive keyboard : Type :=
| Typed (line : string)
| CtrlC                      (* KeyboardInterrupt *)
| CtrlD.                     (* EOFError *)

(** The reply to [GET /api/tags]: the request fails, or a status code
    comes with the names listed under ['models']. *)
Inductive tags_reply : Type :=
| TagsFailed (e : exn)
| Tags (status : Z) (names : list string).

(** The reply to [POST /api/generate]: the request fails with [e], or a
    status code comes with a body; [response.json()] for a complete
    reply, the chunks of [iter_content] and how they end for a streamed
    one. *)
Inductive generate_reply : Type :=
| GenerateFailed (e : exn)
| Generated (status : Z) (json : result pyval)
            (chunks : list bytes) (fin : stream_end).

(** What the outside world does during one round of the turn loop. *)
Record turn : Type := {
  typed : keyboard;
  tags : tags_reply;
  generated : generate_reply;
  now1 : datetime;           (* the first  [datetime.now()] of the round *)
  now2 : datetime            (* the second [datetime.now()] of the round *)
}.

(** The chat object ([self]), the [streaming] flag of the loop, and the
    disk. *)
Record state : Type := {
  host : string;
  port : Z;
  model : string;
  conversation_history : pyval;
  session_start : datetime;
  streaming : bool;
  disk : filesystem
}.

Definition set_model (m : string) (s : state) : state :=
  {| host := host s; port := port s; model := m;
     conversation_history := conversation_history s;
     session_start := session_start s; streaming := streaming s;
     disk := disk s |}.

Definition set_history (h : pyval) (s : state) : state :=
  {| host := host s; port := port s; model := model s;
     conversation_history := h;
     session_start := session_start s; streaming := streaming s;
     disk := disk s |}.

Definition set_streaming (b : bool) (s : state) : state :=
  {| host := host s; port := port s; model := model s;
     conversation_history := conversation_history s;
     session_start := session_start s; streaming := b;
     disk := disk s |}.

Definition set_disk (fs : filesystem) (s : state) : state :=
  {| host := host s; port := port s; model := model s;
     conversation_history := conversation_history s;
     session_start := session_start s; streaming := streaming s;
     disk := fs |}.

(** *** Commands that print, change the state and may raise *)

Definition M (A : Type) : Type := state -> list output * state * result A.

Definition ret {A} (a : A) : M A := fun s => ([], s, Ok a).

Definition raise {A} (e : exn) : M A := fun s => ([], s, Raise e).

Definition lift {A} (r : result A) : M A := fun s => ([], s, r).

Definition mbind {A B} (m : M A) (k : A -> M B) : M B :=
  fun s =>
    match m s with
    | (out, s', Ok a) => let '(out', s'', r) := k a s' in (out ++ out', s'', r)
    | (out, s', Raise e) => (out, s', Raise e)
    end.

(** [try: m  except <handled>: h] *)
Definition try_except {A} (m : M A) (handled : exn -> bool) (h : exn -> M A)
  : M A :=
  fun s =>
    match m s with
    | (out, s', Raise e) =>
        if handled e then let '(out', s'', r) := h e s' in (out ++ out', s'', r)
        else (out, s', Raise e)
    | r => r
    end.

Definition say (o : output) : M unit := fun s => ([o], s, Ok tt).

Definition says (os : list output) : M unit := fun s => (os, s, Ok tt).

Definition get : M state := fun s => ([], s, Ok s).

Definition modify (f : state -> state) : M unit := fun s => ([], f s, Ok tt).

Notation "x <- m ;; k" := (mbind m (fun x => k))
  (at level 61, m at next level, right associativity).
Notation "m ;; k" := (mbind m (fun _ => k))
  (at level 61, right associativity).


(** The parts of what a command leaves behind. *)
Definition printed_by {A} (x : list output * state * result A) : list output :=
  fst (fst x).

Definition state_after {A} (x : list output * state * result A) : state :=
  snd (fst x).

Definition result_of {A} (x : list output * state * result A) : result A :=
  snd x.

(** A command that never changes the state. *)
Definition keeps_state {A} (m : M A) : Prop :=
  forall s, state_after (m s) = s.

(** A command that leaves the log as it is, or empties it. *)
Definition keeps_or_clears {A} (m : M A) : Prop :=
  forall s,
    conversation_history (state_after (m s)) = conversation_history s
    \/ conversation_history (state_after (m s)) = PList [].

(* ===================================================================== *)
(** ** Parts the two controllers share                                    *)
(* ===================================================================== *)

Inductive loop_flow : Type :=
| Again                      (* [continue], or the end of the loop body *)
| Leave.                     (* [break] *)

(** [get_available_models] / [get_models] *)
Definition get_available_models (r : tags_reply) : M (list string) :=
  match r with
  | Tags status names => if (status =? 200)%Z then ret names else ret []
  | TagsFailed e => if is_request_exception e then ret [] else raise e
  end.

(** One entry of [conversation_history]. *)
Definition message (role : string) (content : pyval) (at_ : datetime) : pyval :=
  PDict [("role", PStr role); ("content", content);
         ("timestamp", PStr (isoformat at_))].

(** [self.conversation_history.append({...})] *)
Definition append_message (role : string) (content : pyval) (at_ : datetime)
  : M unit :=
  s <- get ;;
  h <- lift (py_append (conversation_history s) (message role content at_)) ;;
  modify (set_history h).

(** The dictionary [save] hands to [json.dump]. *)
Definition transcript (s : state) : pyval :=
  PDict [("session_start", PStr (isoformat (session_start s)));
         ("model", PStr (model s));
         ("host", PStr (host s));
         ("conversation", conversation_history s)].

(** [for i, msg in enumerate(x, 1)]: what iterating over [x] yields. *)
Definition py_iter (x : pyval) : result (list pyval) :=
  match x with
  | PList l => Ok l
  | PDict d => Ok (map (fun kv => PStr (fst kv)) d)
  | PStr s => Ok (map (fun c => PStr (String c EmptyString)) (list_of_string s))
  | PUni codes => Ok (map (fun c => str_of_codes [c]) codes)
  | _ => Raise TypeError
  end.

Section Controllers.
Context {J : JsonLib}.

(** The [for line in response.iter_lines()] loop, printing as it goes. *)
Definition print_stream (done_default : pyval) (chunks : list bytes)
           (fin : stream_end) : M unit :=
  let (fragments, f) := decode done_default chunks fin in
  says (map PrintFragment fragments) ;;
  match f with
  | Throw e => raise e
  | _ => ret tt
  end.

(** [with open(filename, 'w', encoding='utf-8') as f: json.dump(doc, f, ...)]:
    [open] fails or empties the file; the file then holds what the dump
    has written when it returns or raises, and an exception of the dump
    leaves the [with] block. *)
Definition dump_to (path : string) (ensure_ascii : bool) (doc : pyval)
  : M unit :=
  s <- get ;;
  let (written, failure) := json_dump ensure_ascii doc in
  fs <- lift (fs_write (disk s) path written) ;;
  modify (set_disk fs) ;;
  match failure with
  | Some e => raise e
  | None => ret tt
  end.

(** [with open(filename, 'r', encoding='utf-8') as f: data = json.load(f)] *)
Definition load_from (path : string) : M pyval :=
  s <- get ;;
  text <- lift (fs_read (disk s) path) ;;
  lift (json_loads text).

End Controllers.

(** Running the rounds of a turn loop until one leaves it. *)
Fixpoint run_loop (round : turn -> M loop_flow) (ts : list turn) : M loop_flow :=
  match ts with
  | [] => ret Again
  | t :: rest =>
      f <- round t ;;
      match f with
      | Leave => ret Leave
      | Again => run_loop round rest
      end
  end.

(** [check_connection]: the reply to [GET /api/tags] has status 200; a
    request that fails counts as no connection. *)
Definition check_connection (r : tags_reply) : M bool :=
  match r with
  | Tags status _ => ret (status =? 200)%Z
  | TagsFailed e => if is_request_exception e then ret false else raise e
  end.

(** What the outside world does during a whole run: the replies to the
    two requests made at the start, the rounds of the turn loop, and
    what [input()] does at the question whether to save. *)
Record session : Type := {
  probe : tags_reply;
  listing : tags_reply;
  turns : list turn;
  farewell : keyboard
}.

(** How a run stands when no exception leaves it: it has returned, a
    [KeyboardInterrupt] at the last question has ended the program, or
    the rounds given are used up and the turn loop waits for input. *)
Inductive run_end : Type :=
| Returned
| Interrupted
| Waiting.

Definition z_to_str (z : Z) : string := NilEmpty.string_of_int (Z.to_int z).

(** [self.base_url] *)
Definition base_url (s : state) : string :=
  "http://" ++ host s ++ ":" ++ z_to_str (port s).

(** ["=" * 60] *)
Definition rule : string := string_of_list (repeat "="%char 60).

(** [input(...).strip().lower() in ['y', 'yes']] *)
Definition wants_save (answer : string) : bool :=
  str_in (lower (strip answer)) ["y"; "yes"].

(* ===================================================================== *)
(** ** gemma_interactive.py: class GemmaChat                              *)
(* ===================================================================== *)

Module Gemma.
Section Gemma.
Context {J : JsonLib}.

(** [self.print_colored("Gemma: ", 'gemma', end='')]: [print_colored] is
    declared as [(self, text, color)], so the keyword [end] is refused
    with a [TypeError]. *)
Definition print_colored_end (text : string) (c : color) : M unit :=
  raise TypeError.

Definition send_message (reply : generate_reply) : M pyval :=
  try_except
    (match reply with
     | GenerateFailed e => raise e
     | Generated status json _ _ =>
         if (status =? 200)%Z then
           data <- lift json ;;
           lift (py_get data "response" (PStr ""))
         else
           say (PrintHttpError status) ;;
           ret PNone
     end)
    is_request_exception
    (fun e =>
       match e with
       | ReqTimeout =>
           say (Print CError "Error: Request timeout - model might be loading") ;;
           ret PNone
       | _ =>
           say (PrintException "Error: " e) ;;
           ret PNone
       end).

Definition stream_message (reply : generate_reply) : M unit :=
  try_except
    (match reply with
     | GenerateFailed e => raise e
     | Generated status _ chunks fin =>
         if (status =? 200)%Z then
           print_colored_end "Gemma: " CModel ;;
           print_stream (PBool false) chunks fin ;;
           say PrintNewline
         else say (PrintHttpError status)
     end)
    is_request_exception
    (fun e => say (PrintException "Error: " e)).

Definition default_filename (s : state) : string :=
  "gemma_conversation_" ++ strftime_compact (session_start s) ++ ".json".

(** [if not filename: filename = ...] *)
Definition pick_filename (filename : option string) (s : state) : string :=
  match filename with
  | Some f => if f =? "" then default_filename s else f
  | None => default_filename s
  end.

Definition save_conversation (filename : option string) : M unit :=
  s <- get ;;
  let filename := pick_filename filename s in
  try_except
    (dump_to filename false (transcript s) ;;
     say (Print CInfo ("Conversation saved to: " ++ filename)))
    is_exception
    (fun e => say (PrintException "Error saving conversation: " e)).

Definition load_conversation (filename : string) : M bool :=
  try_except
    (data <- load_from filename ;;
     h <- lift (py_get data "conversation" (PList [])) ;;
     modify (set_history h) ;;
     n <- lift (py_len h) ;;
     say (Print CInfo ("Loaded " ++ nat_to_str n ++ " messages from " ++ filename)) ;;
     ret true)
    is_exception
    (fun e =>
       say (PrintException "Error loading conversation: " e) ;;
       ret false).

Definition help_text : string := "
Available commands:
  /help, /h          - Show this help message
  /models            - List available models
  /model <name>      - Switch to a different model
  /save [filename]   - Save conversation to file
  /load <filename>   - Load conversation from file
  /clear             - Clear conversation history
  /stats             - Show session statistics
  /quit, /exit, /q   - Exit the chat
  /stream            - Toggle streaming mode
  /history           - Show conversation history

Regular messages will be sent to Gemma for processing.
        ".

Definition show_help : M unit := say (Print CInfo help_text).

Definition show_stats (now : datetime) : M unit :=
  s <- get ;;
  n <- lift (py_len (conversation_history s)) ;;
  say (PrintStats now n).

Definition preview_limit : nat := 100.

(** [msg['content'][:100] + "..." if len(msg['content']) > 100
     else msg['content']] *)
Definition preview (msg : pyval) : result pyval :=
  bind (py_getitem msg "content") (fun c =>
  bind (py_len c) (fun n =>
    if (preview_limit <? n)%nat then
      match c with
      | PStr text => Ok (PStr (str_slice_to preview_limit text ++ "..."))
      | PUni codes =>
          Ok (str_of_codes (firstn preview_limit codes ++ codes_of "..."))
      | _ => Raise TypeError       (* a list slice plus a string; a dict sliced *)
      end
    else Ok c)).

Definition history_line (i : nat) (msg : pyval) : M unit :=
  role <- lift (py_getitem msg "role") ;;
  content <- lift (preview msg) ;;
  let c := if pyval_eqb role (PStr "user") then CUser else CModel in
  say (PrintEntry c i role content).

Fixpoint history_lines (i : nat) (msgs : list pyval) : M unit :=
  match msgs with
  | [] => ret tt
  | msg :: rest => history_line i msg ;; history_lines (S i) rest
  end.

Definition show_history : M unit :=
  s <- get ;;
  if negb (truthy (conversation_history s)) then
    say (Print CInfo "No conversation history yet.")
  else
    say (Print CSystem "
--- Conversation History ---") ;;
    msgs <- lift (py_iter (conversation_history s)) ;;
    history_lines 1 msgs ;;
    say (Print CSystem "--- End History ---
").

(** The branch [if user_input.startswith('/')] of the loop. *)
Definition run_command (user_input : string) (t : turn) : M loop_flow :=
  match split (lower user_input) with
  | [] => raise IndexError
  | c0 :: args =>
      if str_in c0 ["/quit"; "/exit"; "/q"] then
        say (Print CSystem "Goodbye!") ;;
        ret Leave
      else if str_in c0 ["/help"; "/h"] then
        show_help ;; ret Again
      else if c0 =? "/models" then
        models <- get_available_models (tags t) ;;
        match models with
        | [] => say (Print CError "No models available")
        | _ => say (Print CInfo ("Available models: " ++ String.concat ", " models))
        end ;;
        ret Again
      else if (c0 =? "/model") && negb (List.length args =? 0)%nat then
        let new_model := hd "" args in
        models <- get_available_models (tags t) ;;
        (if str_in new_model models then
           modify (set_model new_model) ;;
           say (Print CInfo ("Switched to model: " ++ new_model))
         else
           say (Print CError ("Model '" ++ new_model ++ "' not found"))) ;;
        ret Again
      else if c0 =? "/save" then
        save_conversation (hd_error args) ;;
        ret Again
      else if (c0 =? "/load") && negb (List.length args =? 0)%nat then
        load_conversation (hd "" args) ;;
        ret Again
      else if c0 =? "/clear" then
        modify (set_history (PList [])) ;;
        say (Print CInfo "Conversation history cleared") ;;
        ret Again
      else if c0 =? "/stats" then
        show_stats (now1 t) ;; ret Again
      else if c0 =? "/stream" then
        s <- get ;;
        modify (set_streaming (negb (streaming s))) ;;
        say (Print CInfo (if negb (streaming s) then "Streaming mode enabled"
                          else "Streaming mode disabled")) ;;
        ret Again
      else if c0 =? "/history" then
        show_history ;; ret Again
      else
        say (Print CError ("Unknown command: " ++ c0)) ;;
        say (Print CInfo "Type '/help' for available commands") ;;
        ret Again
  end.

(** The body of [while True:] in [run_interactive]. *)
Definition loop_body (t : turn) : M loop_flow :=
  match typed t with
  | CtrlC =>
      say (Print CSystem "

Goodbye!") ;;
      ret Leave
  | CtrlD => raise EOFError
  | Typed line =>
      let user_input := strip line in
      if user_input =? "" then ret Again
      else if startswith "/" user_input then run_command user_input t
      else
        append_message "user" (PStr user_input) (now1 t) ;;
        say (Print CSystem "Gemma is thinking...") ;;
        s <- get ;;
        if streaming s then
          stream_message (generated t) ;;
          (* [if not streaming_mode and response:] does not hold *)
          say PrintResponseTime ;;
          ret Again
        else
          response <- send_message (generated t) ;;
          if truthy response then
            say (PrintReply response) ;;
            (* [if not streaming_mode and response:] holds *)
            append_message "assistant" response (now2 t) ;;
            say PrintResponseTime ;;
            ret Again
          else
            say (Print CError "Sorry, I couldn't get a response from Gemma.") ;;
            ret Again
  end.

(** One round under the [try: ... except Exception as e:] that wraps
    the loop: an exception is reported and ends the loop; a
    [KeyboardInterrupt] outside [input()] is none and leaves
    [run_interactive]. *)
Definition round (t : turn) : M loop_flow :=
  try_except (loop_body t) is_exception
    (fun e =>
       say (PrintException "Unexpected error: " e) ;;
       ret Leave).

Definition run_interactive (ts : list turn) : M loop_flow :=
  run_loop round ts.

(** [run_interactive] up to the turn loop: the connection check and the
    model check.  The result tells whether the loop is entered. *)
Definition startup (probe listing : tags_reply) : M bool :=
  say (Print CSystem "Connecting to Ollama service...") ;;
  ok <- check_connection probe ;;
  if negb ok then
    s <- get ;;
    says [Print CError ("Error: Cannot connect to Ollama at " ++ base_url s);
          Print CError "Please check:";
          Print CError "1. EC2 instance is running";
          Print CError "2. Ollama service is started";
          Print CError "3. Security group allows port 11434";
          Print CError "4. Host/IP address is correct"] ;;
    ret false
  else
    models <- get_available_models listing ;;
    s <- get ;;
    match models with
    | [] =>
        say (Print CError
               "Warning: No models found. Ollama might still be initializing.")
    | first :: _ =>
        if negb (str_in (model s) models) then
          say (Print CError ("Warning: Model '" ++ model s ++ "' not found.")) ;;
          say (Print CInfo ("Available models: " ++ String.concat ", " models)) ;;
          modify (set_model first) ;;
          say (Print CInfo ("Switched to: " ++ first))
        else ret tt
    end ;;
    s' <- get ;;
    says [Print CSystem rule;
          Print CSystem "Gemma Interactive Chat Interface";
          Print CSystem rule;
          Print CInfo ("Connected to: " ++ host s' ++ ":" ++ z_to_str (port s'));
          Print CInfo ("Model: " ++ model s');
          Print CInfo "Type '/help' for commands or start chatting!";
          Print CSystem rule] ;;
    ret true.

(** [run_interactive] behind the turn loop: a log that is not empty can
    be saved under the generated file name. *)
Definition save_on_exit (k : keyboard) : M run_end :=
  s <- get ;;
  if truthy (conversation_history s) then
    match k with
    | Typed answer =>
        (if wants_save answer then save_conversation None else ret tt) ;;
        ret Returned
    | CtrlC => ret Interrupted
    | CtrlD => raise EOFError
    end
  else ret Returned.

(** [run_interactive] as a whole. *)
Definition run_session (e : session) : M run_end :=
  ok <- startup (probe e) (listing e) ;;
  if ok then
    modify (set_streaming false) ;;
    f <- run_interactive (turns e) ;;
    match f with
    | Leave => save_on_exit (farewell e)
    | Again => ret Waiting
    end
  else ret Returned.

End Gemma.
End Gemma.

(* ===================================================================== *)
(** ** phi_interactive.py: class PhiChat                                  *)
(* ===================================================================== *)

Module Phi.
Section Phi.
Context {J : JsonLib}.

Definition send_message (reply : generate_reply) : M pyval :=
  try_except
    (match reply with
     | GenerateFailed e => raise e
     | Generated status json _ _ =>
         if (status =? 200)%Z then
           data <- lift json ;;
           lift (py_get data "response" (PStr ""))
         else
           say (PrintHttpError status) ;;
           ret PNone
     end)
    is_request_exception
    (fun e =>
       say (PrintException "Error: " e) ;;
       ret PNone).

Definition stream_message (reply : generate_reply) : M unit :=
  try_except
    (match reply with
     | GenerateFailed e => raise e
     | Generated status _ chunks fin =>
         if negb (status =? 200)%Z then say (PrintHttpError status)
         else
           say (PrintNoNewline CModel "Phi: ") ;;
           print_stream PNone chunks fin ;;
           say PrintNewline
     end)
    is_request_exception
    (fun e => say (PrintException "Error: " e)).

Definition default_filename (s : state) : string :=
  "phi_conversation_" ++ strftime_compact (session_start s) ++ ".json".

(** [if not filename: filename = ...] *)
Definition pick_filename (filename : option string) (s : state) : string :=
  match filename with
  | Some f => if f =? "" then default_filename s else f
  | None => default_filename s
  end.

Definition save (filename : option string) : M unit :=
  s <- get ;;
  let filename := pick_filename filename s in
  try_except
    (dump_to filename true (transcript s) ;;
     say (Print CInfo ("Saved to " ++ filename)))
    is_exception
    (fun e => say (PrintException "Save error: " e)).

Definition load (filename : string) : M unit :=
  try_except
    (data <- load_from filename ;;
     h <- lift (py_get data "conversation" (PList [])) ;;
     modify (set_history h) ;;
     n <- lift (py_len h) ;;
     say (Print CInfo ("Loaded " ++ nat_to_str n ++ " messages")))
    is_exception
    (fun e => say (PrintException "Load error: " e)).

Definition stats (now : datetime) : M unit :=
  s <- get ;;
  n <- lift (py_len (conversation_history s)) ;;
  say (PrintStats now n).

Definition preview_limit : nat := 80.

(** [msg['content'][:80] + ('...' if len(msg['content']) > 80 else '')] *)
Definition preview (msg : pyval) : result pyval :=
  bind (py_getitem msg "content") (fun c =>
    match c with
    | PStr text =>
        Ok (PStr (str_slice_to preview_limit text
                  ++ (if (preview_limit <? String.length text)%nat
                      then "..." else "")))
    | PUni codes =>
        Ok (str_of_codes (firstn preview_limit codes
                          ++ (if (preview_limit <? List.length codes)%nat
                              then codes_of "..." else [])))
    | _ => Raise TypeError     (* a list slice plus a string; no slice at all *)
    end).

Definition history_line (i : nat) (msg : pyval) : M unit :=
  content <- lift (preview msg) ;;
  role <- lift (py_getitem msg "role") ;;
  let c := if pyval_eqb role (PStr "assistant") then CModel else CUser in
  say (PrintEntry c i role content).

Fixpoint history_lines (i : nat) (msgs : list pyval) : M unit :=
  match msgs with
  | [] => ret tt
  | msg :: rest => history_line i msg ;; history_lines (S i) rest
  end.

Definition history : M unit :=
  s <- get ;;
  if negb (truthy (conversation_history s)) then
    say (Print CInfo "No history.")
  else
    say (Print CSystem "
--- History ---") ;;
    msgs <- lift (py_iter (conversation_history s)) ;;
    history_lines 1 msgs ;;
    say (Print CSystem "--- End ---
").

Definition help_text : string := "
Commands:
/help /h        Show help
/models         List models
/model <name>   Switch model
/save [file]    Save conversation
/load <file>    Load conversation
/clear          Clear history
/stats          Session stats
/stream         Toggle streaming
/history        Show history
/quit /exit /q  Exit
".

Definition help : M unit := say (Print CInfo help_text).

(** The branch [if user_input.startswith('/')] of the loop. *)
Definition run_command (user_input : string) (t : turn) : M loop_flow :=
  match split user_input with
  | [] => raise IndexError
  | p0 :: args =>
      let cmd := lower p0 in
      if str_in cmd ["/quit"; "/exit"; "/q"] then
        say (Print CSystem "Goodbye!") ;;
        ret Leave
      else if str_in cmd ["/help"; "/h"] then
        help ;; ret Again
      else if cmd =? "/models" then
        m <- get_available_models (tags t) ;;
        match m with
        | [] => say (Print CInfo "No models.")
        | _ => say (Print CInfo ("Models: " ++ String.concat ", " m))
        end ;;
        ret Again
      else if (cmd =? "/model") && negb (List.length args =? 0)%nat then
        let new_model := hd "" args in
        models <- get_available_models (tags t) ;;
        (if str_in new_model models then
           modify (set_model new_model) ;;
           say (Print CInfo ("Switched to " ++ new_model))
         else
           say (Print CError "Model not found.")) ;;
        ret Again
      else if cmd =? "/save" then
        save (hd_error args) ;;
        ret Again
      else if (cmd =? "/load") && negb (List.length args =? 0)%nat then
        load (hd "" args) ;;
        ret Again
      else if cmd =? "/clear" then
        modify (set_history (PList [])) ;;
        say (Print CInfo "History cleared.") ;;
        ret Again
      else if cmd =? "/stats" then
        stats (now1 t) ;; ret Again
      else if cmd =? "/history" then
        history ;; ret Again
      else if cmd =? "/stream" then
        s <- get ;;
        modify (set_streaming (negb (streaming s))) ;;
        say (Print CInfo (if negb (streaming s) then "Streaming enabled"
                          else "Streaming disabled")) ;;
        ret Again
      else
        say (Print CError "Unknown command. /help for list.") ;;
        ret Again
  end.

(** The body of [while True:] in [run]. *)
Definition loop_body (t : turn) : M loop_flow :=
  match typed t with
  | CtrlC => raise KeyboardInterrupt
  | CtrlD => raise EOFError
  | Typed line =>
      let user_input := strip line in
      if user_input =? "" then ret Again
      else if startswith "/" user_input then run_command user_input t
      else
        append_message "user" (PStr user_input) (now1 t) ;;
        say (Print CSystem "Phi is thinking...") ;;
        s <- get ;;
        if streaming s then
          stream_message (generated t) ;;
          (* No single response text captured in streaming mode *)
          say PrintResponseTime ;;
          ret Again
        else
          response <- send_message (generated t) ;;
          if truthy response then
            say (PrintReply response) ;;
            append_message "assistant" response (now2 t) ;;
            say PrintResponseTime ;;
            ret Again
          else
            say (Print CError "No response.") ;;
            ret Again
  end.

(** One round under the [try: ... except KeyboardInterrupt:] that wraps
    the loop: a [KeyboardInterrupt], at [input()] or in a request, is
    reported and ends the loop; any other exception leaves [run] and
    ends the process. *)
Definition round (t : turn) : M loop_flow :=
  try_except (loop_body t) is_keyboard_interrupt
    (fun _ =>
       say (Print CSystem "
Interrupted. Goodbye!") ;;
       ret Leave).

Definition run (ts : list turn) : M loop_flow :=
  run_loop round ts.

(** [run] up to the turn loop: the connection check and the model
    check.  The result tells whether the loop is entered. *)
Definition startup (probe listing : tags_reply) : M bool :=
  say (Print CSystem "Connecting to Ollama...") ;;
  ok <- check_connection probe ;;
  if negb ok then
    s <- get ;;
    say (Print CError ("Cannot connect: " ++ base_url s)) ;;
    ret false
  else
    available <- get_available_models listing ;;
    s <- get ;;
    match available with
    | first :: _ =>
        if negb (str_in (model s) available) then
          say (Print CError ("Model '" ++ model s ++ "' not found. Using "
                             ++ first)) ;;
          modify (set_model first)
        else ret tt
    | [] => ret tt
    end ;;
    s' <- get ;;
    says [Print CSystem rule;
          Print CSystem "Phi-4-Mini Interactive Chat";
          Print CSystem rule;
          Print CInfo ("Host: " ++ host s' ++ ":" ++ z_to_str (port s'));
          Print CInfo ("Model: " ++ model s');
          Print CInfo "Type /help for commands.";
          Print CSystem rule] ;;
    ret true.

(** [run] behind the turn loop. *)
Definition save_on_exit (k : keyboard) : M run_end :=
  s <- get ;;
  if truthy (conversation_history s) then
    match k with
    | Typed answer =>
        (if wants_save answer then save None else ret tt) ;;
        ret Returned
    | CtrlC => ret Interrupted
    | CtrlD => raise EOFError
    end
  else ret Returned.

(** [run] as a whole; an exception that leaves the turn loop leaves [run]
    before the question whether to save. *)
Definition run_session (e : session) : M run_end :=
  ok <- startup (probe e) (listing e) ;;
  if ok then
    modify (set_streaming false) ;;
    f <- run (turns e) ;;
    match f with
    | Leave => save_on_exit (farewell e)
    | Again => ret Waiting
    end
  else ret Returned.

End Phi.
End Phi.

(* ===================================================================== *)
(** ** Line splitting, seen as a scan for runs of non-terminator bytes     *)
(* ===================================================================== *)

Definition nonempty (l : bytes) : bool :=
  match l with [] => false | _ => true end.

Definition flush (cur : bytes) : list bytes :=
  match cur with [] => [] | _ => [rev cur] end.

(** The non-empty lines of [bs]: the maximal runs of bytes other than
    "\r" and "\n". *)
Fixpoint runs (cur bs : bytes) : list bytes :=
  match bs with
  | [] => flush cur
  | b :: rest =>
      if is_eol b then flush cur ++ runs [] rest else runs (b :: cur) rest
  end.

(** The runs of [bs] that a terminator closes, and what is left open. *)
Fixpoint closed_runs (cur bs : bytes) : list bytes :=
  match bs with
  | [] => []
  | b :: rest =>
      if is_eol b then flush cur ++ closed_runs [] rest
      else closed_runs (b :: cur) rest
  end.

Fixpoint residue (cur bs : bytes) : bytes :=
  match bs with
  | [] => cur
  | b :: rest => if is_eol b then residue [] rest else residue (b :: cur) rest
  end.

(** The terminated lines of [splitlines], empty ones included. *)
Fixpoint heads (cur bs : bytes) : list bytes :=
  match bs with
  | [] => []
  | b :: rest =>
      if is_lf b then rev cur :: heads [] rest
      else if is_cr b then
        match rest with
        | b' :: rest' =>
            if is_lf b' then rev cur :: heads [] rest'
            else rev cur :: heads [] rest
        | [] => rev cur :: heads [] rest
        end
      else heads (b :: cur) rest
  end.

Definition pending_bytes (pending : option bytes) : bytes :=
  match pending with Some p => p | None => [] end.

Definition no_eol (l : bytes) : bool := forallb (fun b => negb (is_eol b)) l.

(** A pending line is never empty and holds no terminator. *)
Definition pending_ok (pending : option bytes) : Prop :=
  match pending with
  | Some p => p <> [] /\ no_eol p = true
  | None => True
  end.

Section DecoderScan.
Context {J : JsonLib}.
Variable dd : pyval.

(** What the loop has done when the chunks are used up: the lines that
    the chunks close, in order, up to the first that leaves the loop;
    then the open rest, which a complete body yields as a last line and
    a dropped connection discards. *)
Definition after_chunks (x : bytes) (fin : stream_end) : list pyval * flow :=
  match handle_lines dd (closed_runs [] x) with
  | (out, Next) =>
      match fin with
      | Finished =>
          let (out', f) := handle_lines dd (flush (residue [] x)) in
          (out ++ out', f)
      | Dropped msg => (out, Throw (RequestException msg))
      end
  | (out, f) => (out, f)
  end.

(** What a record prints. *)
Definition fragment_of (d : list (string * pyval)) : list pyval :=
  match dict_lookup "response" d with
  | Some v => [v]
  | None => []
  end.

(** [data.get('done', dd)] of a record. *)
Definition done_of (d : list (string * pyval)) : pyval :=
  match dict_lookup "done" d with
  | Some v => v
  | None => dd
  end.

End DecoderScan.

(* ===================================================================== *)
(** ** Logs of well-formed messages                                       *)
(* ===================================================================== *)

(** A ConversationMessage of the specification: three strings. *)
Record entry : Type := {
  role : string;
  content : string;
  timestamp : string
}.

Definition py_of_entry (e : entry) : pyval :=
  PDict [("role", PStr (role e)); ("content", PStr (content e));
         ("timestamp", PStr (timestamp e))].

Definition py_of_log (entries : list entry) : pyval :=
  PList (map py_of_entry entries).

(** What a prompt leaves in the log [l]: the user message, and in complete
    mode the reply behind it when there is one. *)
Definition prompt_logged (l : list pyval) (asked : string) (t : turn)
           (h : pyval) : Prop :=
  let user := message "user" (PStr asked) (now1 t) in
  h = PList (l ++ [user])
  \/ exists reply,
       h = PList ((l ++ [user]) ++ [message "assistant" reply (now2 t)]).

(** The preview of a text: the text itself up to [limit] characters, its
    first [limit] characters and three dots beyond. *)
Definition cut (limit : nat) (text : string) : string :=
  if (limit <? String.length text)%nat
  then str_slice_to limit text ++ "..." else text.

(** The lines of the history listing, numbered from [i]. *)
Fixpoint entry_lines (paint : string -> color) (limit : nat) (i : nat)
         (entries : list entry) : list output :=
  match entries with
  | [] => []
  | e :: rest =>
      PrintEntry (paint (role e)) i (PStr (role e)) (PStr (cut limit (content e)))
      :: entry_lines paint limit (S i) rest
  end.

Definition gemma_paint (r : string) : color :=
  if r =? "user" then CUser else CModel.

Definition phi_paint (r : string) : color :=
  if r =? "assistant" then CModel else CUser.

(** The persisted transcript of the specification: a document with a
    field [conversation] that is a sequence of messages with the fields
    [role], [content] and [timestamp].  A document that is not of this
    form is malformed. *)
Definition is_entry (v : pyval) : bool :=
  match v with
  | PDict d =>
      match dict_lookup "role" d, dict_lookup "content" d,
            dict_lookup "timestamp" d with
      | Some r, Some c, Some ts => is_str r && is_str c && is_str ts
      | _, _, _ => false
      end
  | _ => false
  end.

Definition transcript_ok (v : pyval) : bool :=
  match v with
  | PDict d =>
      match dict_lookup "conversation" d with
      | Some (PList l) => forallb is_entry l
      | _ => false
      end
  | _ => false
  end.

(** The timestamps of a log, when every entry has one. *)
Definition entry_timestamp (v : pyval) : option string :=
  match v with
  | PDict d =>
      match dict_lookup "timestamp" d with
      | Some (PStr ts) => Some ts
      | _ => None
      end
  | _ => None
  end.

Fixpoint stamps_of (l : list pyval) : option (list string) :=
  match l with
  | [] => Some []
  | v :: rest =>
      match entry_timestamp v, stamps_of rest with
      | Some ts, Some tss => Some (ts :: tss)
      | _, _ => None
      end
  end.

Fixpoint nondecreasing (prev : string) (stamps : list string) : bool :=
  match stamps with
  | [] => true
  | ts :: rest => timestamp_le prev ts && nondecreasing ts rest
  end.

(** A log is timestamp-monotonic: each entry's timestamp is at least the
    previous entry's. *)
Definition log_monotonic (h : pyval) : bool :=
  match h with
  | PList l =>
      match stamps_of l with
      | Some [] => true
      | Some (ts :: rest) => nondecreasing ts rest
      | None => false
      end
  | _ => false
  end.

(** The timestamp of the last entry of a log. *)
Definition last_stamp (h : pyval) : option string :=
  match h with
  | PList l =>
      match rev l with
      | v :: _ => entry_timestamp v
      | [] => None
      end
  | _ => None
  end.

Section Store.
Context {J : JsonLib}.

(** What [load] takes from the file at [path]:
    [json.load(f).get('conversation', [])]. *)
Definition read_conversation (s : state) (path : string) : result pyval :=
  bind (bind (fs_read (disk s) path) json_loads)
       (fun data => py_get data "conversation" (PList [])).

End Store.

(** Values made of strings of U+0000..U+00FF, lists and dictionaries
    with distinct keys. *)
Fixpoint distinct (keys : list string) : bool :=
  match keys with
  | [] => true
  | k :: rest => negb (str_in k rest) && distinct rest
  end.

Fixpoint textual (v : pyval) : bool :=
  match v with
  | PStr _ => true
  | PList l => forallb textual l
  | PDict d => distinct (map fst d) && forallb (fun kv => textual (snd kv)) d
  | _ => false
  end.

(** A textual value is written in full and read back by [json] as it
    was. *)
Definition reads_back (J : JsonLib) : Prop :=
  forall ensure_ascii v,
    textual v = true ->
    exists text,
      json_dump ensure_ascii v = (text, None) /\ json_loads text = Ok v.

(** The calls of [Json.read_value] that reading a value back takes. *)
Fixpoint weight (v : pyval) : nat :=
  match v with
  | PList l => S (fold_right (fun x n => S (weight x) + n) 0 l)
  | PDict d => S (fold_right (fun kv n => S (weight (snd kv)) + n) 0 d)
  | _ => 1
  end.

(** A value is read back from what [write_value] writes, given fuel for
    the calls it takes. *)
Definition read_back (ea : bool) (x : pyval) : Prop :=
  textual x = true ->
  forall fuel level tail,
    weight x <= fuel ->
    Json.read_value fuel (Json.write_value ea level x ++ tail) = Ok (x, tail).

Definition items_weight (xs : list pyval) : nat :=
  fold_right (fun x n => S (weight x) + n) 0 xs.

Definition members_weight (kxs : list (string * pyval)) : nat :=
  fold_right (fun kv n => S (weight (snd kv)) + n) 0 kxs.

(** The text of the items of a list, and of the members of a dictionary,
    behind the first one. *)
Definition more_items (ea : bool) (level : nat) (xs : list pyval) : Json.text :=
  flat_map (fun y => Json.next_item level (Json.write_value ea level y)) xs.

(** The pieces [ps] are written in full, as the bytes of the text [t],
    before whatever is written behind them. *)
Definition pieces_of (ps : list Json.wtext) (t : Json.text) : Prop :=
  forall rest,
    Json.write_pieces (ps ++ rest)
    = let (bs, r) := Json.write_pieces rest in (Json.encode_utf8 t ++ bs, r).

Definition more_members (ea : bool) (level : nat) (kxs : list (string * pyval))
  : Json.text :=
  flat_map (fun ky => Json.next_item level
                        (Json.write_member ea (fst ky)
                           (Json.write_value ea level (snd ky))))
           kxs.

(* ===================================================================== *)
(** ** Data for the examples                                               *)
(* ===================================================================== *)

Definition at_second (sec : nat) : datetime :=
  {| year := 2024; month := 5; day := 17;
     hour := 12; minute := 0; second := sec; microsecond := 0 |}.

Definition empty_disk : filesystem :=
  {| file_at := fun _ => None; writable := fun _ => true |}.

(** A session right after its start. *)
Definition fresh (model_name : string) (streaming_mode : bool) : state :=
  {| host := "localhost"; port := 11434; model := model_name;
     conversation_history := PList []; session_start := at_second 0;
     streaming := streaming_mode; disk := empty_disk |}.

(** A round in which [line] is typed; the service lists [names] and
    answers a generate request with [reply]. *)
Definition typing (line : string) (names : list string) (reply : generate_reply)
  : turn :=
  {| typed := Typed line; tags := Tags 200 names; generated := reply;
     now1 := at_second 1; now2 := at_second 2 |}.

(** The stream of the specification's scenario. *)
Definition hello_stream : generate_reply :=
  Generated 200 (Raise JSONDecodeError)
    [Json.line "{'response':'He'}";
     Json.b "{'respons";
     Json.line "e':'llo'}" ++ Json.line "{'done':true}"]
    Finished.

(** The same records with the line [123] among them. *)
Definition noisy_stream : generate_reply :=
  Generated 200 (Raise JSONDecodeError)
    [Json.line "{'response':'He'}";
     Json.line "123";
     Json.line "{'response':'llo'}";
     Json.line "{'done':true}"]
    Finished.

(** A text of 101 characters, and a log that holds it. *)
Definition long_text : string := string_of_list (repeat "a"%char 101).

Definition long_log : list entry :=
  [{| role := "user"; content := long_text;
      timestamp := isoformat (at_second 1) |};
   {| role := "assistant"; content := "Hi there";
      timestamp := isoformat (at_second 2) |}].

(** A disk that holds one file. *)
Definition disk_with (path : string) (data : bytes) : filesystem :=
  {| file_at := fun p => if (p =? path)%string then Some data else None;
     writable := fun _ => true |}.

(** A transcript whose two entries are out of order. *)
Definition unordered_file : bytes :=
  Json.b "{'conversation':[{'role':'user','content':'a','timestamp':'2024-05-17T12:00:02'},{'role':'assistant','content':'b','timestamp':'2024-05-17T12:00:01'}]}".

(** A session with one logged message. *)
Definition greeted : state :=
  set_history (PList [message "user" (PStr "Hi") (at_second 0)])
              (fresh "gemma2:9b" false).

Definition answered : generate_reply :=
  Generated 200 (Ok (PDict [("response", PStr "Hello!"); ("done", PBool true)]))
            [] Finished.

(** The claim of the specification for a streamed reply: the log gains
    the user message and one assistant message with the whole text. *)
Definition logs_reply (before after : pyval) (asked answered : string) : Prop :=
  exists l t1 t2,
    before = PList l /\
    after = PList (l ++ [message "user" (PStr asked) t1;
                         message "assistant" (PStr answered) t2]).

(* ===================================================================== *)
(** ** Notions used by the further properties                             *)
(* ===================================================================== *)

(** A body with every "\n" written as "\r\n". *)
Definition with_crlf (body : bytes) : bytes :=
  flat_map (fun b => if is_lf b then [x0d; x0a] else [b]) body.

(** A generate request that fails in the ways [send_message] handles: a
    requests exception, or a status other than 200. *)
Definition failed_reply (g : generate_reply) : Prop :=
  match g with
  | GenerateFailed e => is_request_exception e = true
  | Generated status _ _ _ => status <> 200%Z
  end.

(** The words the command branch knows, after lower-casing. *)
Definition quit_words : list string := ["/quit"; "/exit"; "/q"].

Definition known_words : list string :=
  ["/quit"; "/exit"; "/q"; "/help"; "/h"; "/models"; "/model"; "/save";
   "/load"; "/clear"; "/stats"; "/stream"; "/history"].

(** A command line whose word is not known, or is [/model] or [/load]
    without the argument they need. *)
Definition no_such_command (word : string) (args : list string) : Prop :=
  str_in word known_words = false
  \/ (args = [] /\ (word = "/model" \/ word = "/load")).

Section StreamReplies.
Context {J : JsonLib}.

(** A streamed reply that [PhiChat.stream_message] gets through: what
    fails, fails with a requests exception. *)
Definition survivable_stream (g : generate_reply) : Prop :=
  match g with
  | GenerateFailed e => is_request_exception e = true
  | Generated status _ chunks fin =>
      status = 200%Z ->
      match snd (decode PNone chunks fin) with
      | Throw e => is_request_exception e = true
      | _ => True
      end
  end.

End StreamReplies.

(** A request for the tags that fails as the controllers expect it to:
    with a requests exception, or with a status other than 200. *)
Definition unreachable (r : tags_reply) : Prop :=
  match r with
  | TagsFailed e => is_request_exception e = true
  | Tags status _ => status <> 200%Z
  end.

(** A line that is sent to the model: not blank, and no command. *)
Definition prompt_line (line : string) : bool :=
  negb (strip line =? "") && negb (startswith "/" (strip line)).

(** The words of a command line; none for any other line. *)
Definition command_words (line : string) : list string :=
  if startswith "/" (strip line) then split (strip line) else [].

(** A command that leaves one aspect [f] of the state as it is. *)
Definition preserves {A X} (f : state -> X) (m : M A) : Prop :=
  forall s, f (state_after (m s)) = f s.

(** Where and when the session was started. *)
Definition origin (s : state) : string * Z * datetime :=
  (host s, port s, session_start s).

(** A disk on which nothing can be written. *)
Definition read_only_disk : filesystem :=
  {| file_at := fun _ => None; writable := fun _ => false |}.

(** A round typed while the service cannot be reached. *)
Definition offline (line : string) : turn :=
  {| typed := Typed line;
     tags := TagsFailed (RequestException "Connection refused");
     generated := GenerateFailed (RequestException "Connection refused");
     now1 := at_second 1; now2 := at_second 2 |}.

(** A run against a service that cannot be reached. *)
Definition no_service : session :=
  {| probe := TagsFailed (RequestException "Connection refused");
     listing := TagsFailed (RequestException "Connection refused");
     turns := [typing "Hello?" [] answered];
     farewell := Typed "y" |}.

(* ===================================================================== *)
(** * Properties                                                           *)
(* ===================================================================== *)

(** ** Line splitting *)

Lemma is_lf_eol b : is_lf b = true -> is_eol b = true.
Proof. unfold is_eol. intros ->. apply orb_true_r. Qed.

Lemma is_cr_eol b : is_cr b = true -> is_eol b = true.
Proof. unfold is_eol. intros ->. reflexivity. Qed.

Lemma not_eol b : is_lf b = false -> is_cr b = false -> is_eol b = false.
Proof. unfold is_eol. intros -> ->. reflexivity. Qed.

Lemma nonempty_rev (l : bytes) : nonempty (rev l) = nonempty l.
Proof.
  destruct l as [|a l]; [reflexivity|]. simpl.
  destruct (rev l); reflexivity.
Qed.

Lemma filter_nonempty_rev cur : filter nonempty [rev cur] = flush cur.
Proof.
  simpl. rewrite nonempty_rev. destruct cur; reflexivity.
Qed.

Lemma splitlines_from_heads bs : forall cur,
  splitlines_from cur bs = heads cur bs ++ flush (residue cur bs).
Proof.
  induction bs as [|b rest IH]; intros cur.
  - destruct cur; reflexivity.
  - cbn [splitlines_from heads residue].
    destruct (is_lf b) eqn:Hlf.
    + rewrite (is_lf_eol _ Hlf), IH. reflexivity.
    + destruct (is_cr b) eqn:Hcr.
      * rewrite (is_cr_eol _ Hcr).
        destruct rest as [|b' rest'].
        -- reflexivity.
        -- destruct (is_lf b') eqn:Hlf'.
           ++ specialize (IH []). cbn [splitlines_from heads residue] in IH.
              rewrite Hlf', (is_lf_eol _ Hlf') in IH.
              injection IH as IH.
              cbn [residue]. rewrite (is_lf_eol _ Hlf'), IH. reflexivity.
           ++ rewrite IH. reflexivity.
      * rewrite (not_eol _ Hlf Hcr). apply IH.
Qed.

Lemma heads_closed_runs bs : forall cur,
  filter nonempty (heads cur bs) = closed_runs cur bs.
Proof.
  induction bs as [|b rest IH]; intros cur; [reflexivity|].
  cbn [heads closed_runs].
  destruct (is_lf b) eqn:Hlf.
  - rewrite (is_lf_eol _ Hlf).
    change (rev cur :: heads [] rest) with ([rev cur] ++ heads [] rest).
    rewrite filter_app, filter_nonempty_rev, IH. reflexivity.
  - destruct (is_cr b) eqn:Hcr.
    + rewrite (is_cr_eol _ Hcr).
      destruct rest as [|b' rest'].
      * change (rev cur :: heads [] []) with ([rev cur] ++ heads [] []).
        rewrite filter_app, filter_nonempty_rev. reflexivity.
      * destruct (is_lf b') eqn:Hlf'.
        -- specialize (IH []). cbn [heads closed_runs] in IH.
           rewrite Hlf', (is_lf_eol _ Hlf') in IH. simpl in IH.
           change (rev cur :: heads [] rest') with ([rev cur] ++ heads [] rest').
           rewrite filter_app, filter_nonempty_rev.
           cbn [closed_runs]. rewrite (is_lf_eol _ Hlf').
           f_equal. exact IH.
        -- change (rev cur :: heads [] (b' :: rest'))
             with ([rev cur] ++ heads [] (b' :: rest')).
           rewrite filter_app, filter_nonempty_rev, IH. reflexivity.
    + rewrite (not_eol _ Hlf Hcr). apply IH.
Qed.

Lemma runs_app bs : forall cur d,
  runs cur (bs ++ d) = closed_runs cur bs ++ runs (residue cur bs) d.
Proof.
  induction bs as [|b rest IH]; intros cur d; simpl; [reflexivity|].
  destruct (is_eol b).
  - rewrite IH. now rewrite app_assoc.
  - apply IH.
Qed.

Lemma runs_residue bs cur :
  runs cur bs = closed_runs cur bs ++ flush (residue cur bs).
Proof.
  rewrite <- (app_nil_r bs) at 1. rewrite runs_app. reflexivity.
Qed.

Lemma splitlines_runs bs cur :
  filter nonempty (splitlines_from cur bs) = runs cur bs.
Proof.
  rewrite splitlines_from_heads, filter_app, heads_closed_runs, runs_residue.
  f_equal. destruct (residue cur bs) eqn:E; [reflexivity|].
  rewrite <- E. unfold flush at 1. rewrite E. rewrite <- E.
  rewrite filter_nonempty_rev. reflexivity.
Qed.

Lemma no_eol_app a b : no_eol (a ++ b) = no_eol a && no_eol b.
Proof. apply forallb_app. Qed.

Lemma no_eol_rev l : no_eol (rev l) = no_eol l.
Proof.
  induction l as [|a l IH]; [reflexivity|].
  simpl. rewrite no_eol_app, IH. simpl.
  rewrite andb_true_r. apply andb_comm.
Qed.

Lemma no_eol_scan q : forall cur,
  no_eol q = true -> closed_runs cur q = [] /\ residue cur q = rev q ++ cur.
Proof.
  induction q as [|b q IH]; intros cur H; simpl in *.
  - split; reflexivity.
  - apply andb_prop in H as [Hb Hq].
    apply negb_true_iff in Hb. rewrite Hb.
    destruct (IH (b :: cur) Hq) as [-> ->].
    split; [reflexivity|]. now rewrite <- app_assoc.
Qed.

Lemma runs_pending r d :
  no_eol r = true -> runs [] (rev r ++ d) = runs r d.
Proof.
  intros H. rewrite runs_app.
  rewrite <- no_eol_rev in H.
  destruct (no_eol_scan _ [] H) as [-> ->].
  now rewrite rev_involutive, app_nil_r.
Qed.

Lemma residue_no_eol bs : forall cur,
  no_eol cur = true -> no_eol (residue cur bs) = true.
Proof.
  induction bs as [|b rest IH]; intros cur H; simpl; [exact H|].
  destruct (is_eol b) eqn:E.
  - now apply IH.
  - apply IH. simpl. now rewrite E.
Qed.

Lemma heads_no_eol bs : forall cur,
  no_eol cur = true -> Forall (fun l => no_eol l = true) (heads cur bs).
Proof.
  induction bs as [|b rest IH]; intros cur H; [constructor|].
  assert (Hr : no_eol (rev cur) = true) by now rewrite no_eol_rev.
  cbn [heads].
  destruct (is_lf b) eqn:Hlf.
  - constructor; [exact Hr | now apply IH].
  - destruct (is_cr b) eqn:Hcr.
    + destruct rest as [|b' rest'].
      * constructor; [exact Hr | constructor].
      * destruct (is_lf b') eqn:Hlf'.
        -- constructor; [exact Hr|].
           specialize (IH [] eq_refl). cbn [heads] in IH.
           rewrite Hlf' in IH. now inversion IH.
        -- constructor; [exact Hr | now apply IH].
    + apply IH. simpl. now rewrite (not_eol _ Hlf Hcr).
Qed.

Lemma residue_last bs : forall cur a r,
  bs <> [] -> residue cur bs = a :: r -> exists y, bs = y ++ [a].
Proof.
  induction bs as [|b rest IH]; intros cur a r Hne H; [contradiction|].
  simpl in H. destruct rest as [|b' rest'].
  - destruct (is_eol b); simpl in H; [discriminate|].
    injection H as -> _. now exists [].
  - assert (Hne' : b' :: rest' <> []) by discriminate.
    destruct (is_eol b);
      destruct (IH _ _ _ Hne' H) as [y ->]; now exists (b :: y).
Qed.

Lemma residue_nil_last bs : forall cur,
  bs <> [] -> residue cur bs = [] ->
  exists y b, bs = y ++ [b] /\ is_eol b = true.
Proof.
  induction bs as [|b rest IH]; intros cur Hne H; [contradiction|].
  simpl in H. destruct rest as [|b' rest'].
  - destruct (is_eol b) eqn:E; simpl in H; [|discriminate].
    now exists [], b.
  - assert (Hne' : b' :: rest' <> []) by discriminate.
    destruct (is_eol b);
      destruct (IH _ Hne' H) as (y & e & -> & He); now exists (b :: y), e.
Qed.

Lemma ends_alike_same a r y :
  ends_alike (rev (a :: r)) (y ++ [a]) = true.
Proof.
  unfold ends_alike. rewrite rev_involutive, rev_app_distr. simpl.
  now apply Byte.byte_dec_lb.
Qed.

Lemma ends_alike_eol l y b :
  no_eol l = true -> is_eol b = true -> ends_alike l (y ++ [b]) = false.
Proof.
  intros Hl Hb. unfold ends_alike. rewrite rev_app_distr. simpl.
  rewrite <- no_eol_rev in Hl.
  destruct (rev l) as [|a t]; [reflexivity|].
  simpl in Hl. apply andb_prop in Hl as [Ha _].
  destruct (Byte.eqb a b) eqn:E; [|reflexivity].
  apply Byte.byte_dec_bl in E. subst a.
  rewrite Hb in Ha. discriminate.
Qed.

Lemma heads_nil_inv bs cur : bs = [] -> heads cur bs = [].
Proof. now intros ->. Qed.

(** What one round of [iter_lines] yields and keeps. *)
Lemma iter_lines_chunk_scan pending chunk lines pending' :
  iter_lines_chunk pending chunk = (lines, pending') ->
  let x := pending_bytes pending ++ chunk in
  filter nonempty lines = closed_runs [] x
  /\ pending_bytes pending' = rev (residue [] x)
  /\ pending_ok pending'.
Proof.
  unfold iter_lines_chunk.
  replace (match pending with Some p => p ++ chunk | None => chunk end)
    with (pending_bytes pending ++ chunk) by (destruct pending; reflexivity).
  set (x := pending_bytes pending ++ chunk). intros H. cbn zeta.
  unfold splitlines in H. rewrite splitlines_from_heads in H.
  pose proof (heads_no_eol x [] eq_refl) as Hh.
  pose proof (heads_closed_runs x []) as Hc.
  destruct (residue [] x) as [|a r] eqn:Er.
  - simpl in H. rewrite app_nil_r in H.
    assert (lines = heads [] x /\ pending' = None) as [-> ->].
    { destruct (rev (heads [] x)) as [|last before] eqn:Erev.
      - now injection H as <- <-.
      - assert (Hx : x <> []).
        { intros E. rewrite (heads_nil_inv _ [] E) in Erev. discriminate. }
        destruct (residue_nil_last _ _ Hx Er) as (y & b & Ey & Hb).
        assert (Hlast : no_eol last = true).
        { rewrite Forall_forall in Hh. apply Hh. apply in_rev.
          rewrite Erev. now left. }
        assert (Hea : ends_alike last x = false)
          by (rewrite Ey; now apply ends_alike_eol).
        rewrite Hea in H.
        now injection H as <- <-. }
    repeat split. exact Hc.
  - assert (Hx : x <> []).
    { intros E. rewrite E in Er. discriminate. }
    destruct (residue_last _ _ _ _ Hx Er) as [y Ey].
    change (flush (a :: r)) with [rev (a :: r)] in H.
    rewrite rev_app_distr in H. cbn [rev app] in H.
    change (rev r ++ [a]) with (rev (a :: r)) in H.
    assert (Hea : ends_alike (rev (a :: r)) x = true)
      by (rewrite Ey; apply ends_alike_same).
    rewrite Hea in H.
    injection H as <- <-.
    rewrite rev_involutive. repeat split.
    + exact Hc.
    + simpl. intros E. now apply app_eq_nil in E as [_ E].
    + change (no_eol (rev (a :: r)) = true). rewrite no_eol_rev.
      rewrite <- Er. now apply residue_no_eol.
Qed.

Lemma closed_runs_app a : forall cur d,
  closed_runs cur (a ++ d) = closed_runs cur a ++ closed_runs (residue cur a) d.
Proof.
  induction a as [|b rest IH]; intros cur d; simpl; [reflexivity|].
  destruct (is_eol b).
  - rewrite IH. now rewrite app_assoc.
  - apply IH.
Qed.

Lemma residue_app a : forall cur d,
  residue cur (a ++ d) = residue (residue cur a) d.
Proof.
  induction a as [|b rest IH]; intros cur d; simpl; [reflexivity|].
  destruct (is_eol b); apply IH.
Qed.

Lemma closed_runs_pending r d :
  no_eol r = true -> closed_runs [] (rev r ++ d) = closed_runs r d.
Proof.
  intros H. rewrite closed_runs_app.
  rewrite <- no_eol_rev in H.
  destruct (no_eol_scan _ [] H) as [-> ->].
  now rewrite rev_involutive, app_nil_r.
Qed.

Lemma residue_pending r d :
  no_eol r = true -> residue [] (rev r ++ d) = residue r d.
Proof.
  intros H. rewrite residue_app.
  rewrite <- no_eol_rev in H.
  destruct (no_eol_scan _ [] H) as [_ ->].
  now rewrite rev_involutive, app_nil_r.
Qed.

(** ** The decoding loop *)

Section DecoderFacts.
Context {J : JsonLib}.
Variable dd : pyval.

Lemma handle_lines_app a : forall b,
  handle_lines dd (a ++ b) =
  match handle_lines dd a with
  | (out, Next) => let (out', f) := handle_lines dd b in (out ++ out', f)
  | (out, f) => (out, f)
  end.
Proof.
  induction a as [|line a IH]; intros b.
  - simpl. now destruct (handle_lines dd b).
  - cbn [app handle_lines].
    destruct (handle_line dd line) as [out [| |e]]; try reflexivity.
    rewrite IH.
    destruct (handle_lines dd a) as [outa [| |e]]; try reflexivity.
    destruct (handle_lines dd b) as [outb f].
    now rewrite app_assoc.
Qed.

(** An empty line is passed over by [if line:]. *)
Lemma handle_lines_nonempty ls :
  handle_lines dd (filter nonempty ls) = handle_lines dd ls.
Proof.
  induction ls as [|l ls IH]; [reflexivity|].
  destruct l as [|b l].
  - simpl. rewrite IH. now destruct (handle_lines dd ls).
  - cbn [filter nonempty handle_lines]. now rewrite IH.
Qed.

Lemma stream_loop_scan fin chunks : forall pending,
  pending_ok pending ->
  stream_loop dd pending chunks fin
  = after_chunks dd (pending_bytes pending ++ List.concat chunks) fin.
Proof.
  induction chunks as [|chunk rest IH]; intros pending Hok.
  - unfold after_chunks. simpl. rewrite app_nil_r.
    destruct pending as [p|]; cbn [pending_bytes].
    + destruct Hok as [Hne Hp]. change (no_eol p = true) in Hp.
      destruct (no_eol_scan p [] Hp) as [Hc Hr]. rewrite app_nil_r in Hr.
      rewrite Hc, Hr. cbn [handle_lines].
      destruct fin; [|reflexivity].
      assert (E : flush (rev p) = [p]).
      { destruct (rev p) eqn:E.
        - apply (f_equal (@rev byte)) in E. rewrite rev_involutive in E.
          now subst p.
        - unfold flush. rewrite <- E. now rewrite rev_involutive. }
      rewrite E. cbn [app handle_lines].
      destruct (handle_line dd p) as [out [| |e]];
        rewrite ?app_nil_r; reflexivity.
    + cbn [closed_runs residue flush handle_lines]. now destruct fin.
  - cbn [stream_loop List.concat].
    destruct (iter_lines_chunk pending chunk) as [lines pending'] eqn:E.
    apply iter_lines_chunk_scan in E as (Hl & Hp & Hok').
    rewrite <- handle_lines_nonempty, Hl, (IH _ Hok'), Hp.
    set (x := pending_bytes pending ++ chunk).
    assert (Hres : no_eol (residue [] x) = true)
      by now apply residue_no_eol.
    unfold after_chunks.
    rewrite (app_assoc (pending_bytes pending) chunk). fold x.
    rewrite (closed_runs_app x), (residue_app x).
    rewrite closed_runs_pending, residue_pending by exact Hres.
    rewrite handle_lines_app.
    destruct (handle_lines dd (closed_runs [] x)) as [out [| |e]];
      try reflexivity.
    destruct (handle_lines dd (closed_runs (residue [] x) (List.concat rest)))
      as [out1 [| |e]]; try reflexivity.
    destruct fin; [|reflexivity].
    destruct (handle_lines dd
                (flush (residue (residue [] x) (List.concat rest))))
      as [out2 f].
    now rewrite app_assoc.
Qed.

Lemma decode_scan chunks fin :
  decode dd chunks fin = after_chunks dd (List.concat chunks) fin.
Proof. unfold decode. now rewrite stream_loop_scan. Qed.

Lemma decode_runs chunks :
  decode dd chunks Finished = handle_lines dd (runs [] (List.concat chunks)).
Proof.
  rewrite decode_scan. unfold after_chunks.
  rewrite runs_residue, handle_lines_app.
  destruct (handle_lines dd (closed_runs [] (List.concat chunks)))
    as [out [| |e]]; reflexivity.
Qed.

(** C3.  However the bytes of a response body are cut into chunks, also
    in the middle of a record or between "\r" and "\n", the decoding
    loop prints the same fragments and ends the same way as on the body
    delivered as one unbroken chunk. *)
Theorem decode_chunking_invariant (chunks : list bytes) :
  decode dd chunks Finished = decode dd [List.concat chunks] Finished.
Proof.
  rewrite !decode_runs. simpl. now rewrite app_nil_r.
Qed.

(** What the loop does with one record. *)
Lemma handle_line_record line d :
  line <> [] ->
  json_loads line = Ok (PDict d) ->
  handle_line dd line
  = (fragment_of d, if truthy (done_of dd d) then Stop else Next).
Proof.
  intros Hne Hl. unfold handle_line, fragment_of, done_of.
  destruct line as [|b line]; [contradiction|].
  rewrite Hl. cbn [py_contains py_getitem py_get].
  destruct (dict_lookup "response" d); reflexivity.
Qed.

(** A line that [json.loads] refuses with [JSONDecodeError] is passed
    over; so is a record with neither ['response'] nor ['done']. *)
Lemma handle_line_malformed line :
  json_loads line = Raise JSONDecodeError -> handle_line dd line = ([], Next).
Proof.
  intros Hl. unfold handle_line.
  destruct line; [reflexivity|]. now rewrite Hl.
Qed.

Lemma handle_line_no_fields line d :
  json_loads line = Ok (PDict d) ->
  dict_lookup "response" d = None ->
  truthy (done_of dd d) = false ->
  handle_line dd line = ([], Next).
Proof.
  intros Hl Hr Hd. destruct line as [|b line]; [reflexivity|].
  rewrite (handle_line_record (b :: line) d) by (discriminate || assumption).
  unfold fragment_of. now rewrite Hr, Hd.
Qed.

(** C5.  A body whose line [record] is a JSON object with a true
    ['done'] ends the loop at that line with [break]: what is printed
    is what the lines before it print, then the record's own
    ['response'], whatever bytes [tail] follow it, however the body is
    cut into chunks, and even if the connection drops afterwards. *)
Theorem done_record_ends_stream
    (head record tail : bytes) (eol : byte) (d : list (string * pyval))
    (out : list pyval) (chunks : list bytes) (fin : stream_end) :
  residue [] head = [] ->
  handle_lines dd (closed_runs [] head) = (out, Next) ->
  record <> [] ->
  no_eol record = true ->
  is_eol eol = true ->
  json_loads record = Ok (PDict d) ->
  truthy (done_of dd d) = true ->
  List.concat chunks = head ++ record ++ eol :: tail ->
  decode dd chunks fin = (out ++ fragment_of d, Stop).
Proof.
  intros Hhead Hout Hne Hrec Heol Hl Hdone Hbody.
  rewrite decode_scan, Hbody. unfold after_chunks.
  rewrite closed_runs_app, Hhead, closed_runs_app.
  destruct (no_eol_scan record [] Hrec) as [-> ->].
  rewrite app_nil_r. cbn [app closed_runs]. rewrite Heol.
  assert (E : flush (rev record) = [record]).
  { destruct (rev record) eqn:E.
    - apply (f_equal (@rev byte)) in E. rewrite rev_involutive in E.
      now subst record.
    - unfold flush. rewrite <- E. now rewrite rev_involutive. }
  rewrite E, handle_lines_app, Hout. cbn [app handle_lines].
  rewrite (handle_line_record record d Hne Hl), Hdone. reflexivity.
Qed.

End DecoderFacts.

(** The stream of the scenario, cut inside a record, with a further record
    behind the final one and a connection that drops at the end. *)
Lemma done_record_ends_stream_witness :
  decode (PBool false)
    [Json.line "{'response':'He'}";
     Json.b "{'respons";
     Json.line "e':'llo','done':true}" ++ Json.line "{'response':'!'}"]
    (Dropped "connection reset")
  = ([PStr "He"; PStr "llo"], Stop).
Proof.
  apply (done_record_ends_stream (PBool false)
           (Json.line "{'response':'He'}")
           (Json.b "{'response':'llo','done':true}")
           (Json.line "{'response':'!'}") x0a
           [("response", PStr "llo"); ("done", PBool true)]
           [PStr "He"]);
    try (vm_compute; reflexivity); discriminate.
Defined.

(** ** Commands that leave the state alone *)

Lemma keeps_ret {A} (a : A) : keeps_state (ret a).
Proof. now intros s. Qed.

Lemma keeps_raise {A} (e : exn) : keeps_state (@raise A e).
Proof. now intros s. Qed.

Lemma keeps_lift {A} (r : result A) : keeps_state (lift r).
Proof. now intros s. Qed.

Lemma keeps_say o : keeps_state (say o).
Proof. now intros s. Qed.

Lemma keeps_says os : keeps_state (says os).
Proof. now intros s. Qed.

Lemma keeps_get : keeps_state get.
Proof. now intros s. Qed.

Lemma keeps_mbind {A B} (m : M A) (k : A -> M B) :
  keeps_state m -> (forall a, keeps_state (k a)) -> keeps_state (mbind m k).
Proof.
  intros Hm Hk s. unfold mbind, state_after. specialize (Hm s).
  unfold state_after in Hm.
  destruct (m s) as [[out s'] [a|e]]; simpl in Hm; subst s'; [|reflexivity].
  specialize (Hk a s). unfold state_after in Hk.
  now destruct (k a s) as [[out' s''] r].
Qed.

Lemma keeps_try_except {A} (m : M A) handled (h : exn -> M A) :
  keeps_state m -> (forall e, keeps_state (h e)) ->
  keeps_state (try_except m handled h).
Proof.
  intros Hm Hh s. unfold try_except, state_after. specialize (Hm s).
  unfold state_after in Hm.
  destruct (m s) as [[out s'] [a|e]]; simpl in Hm; subst s'; [reflexivity|].
  destruct (handled e); [|reflexivity].
  specialize (Hh e s). unfold state_after in Hh.
  now destruct (h e s) as [[out' s''] r].
Qed.

Create HintDb keeps.

#[local] Hint Resolve keeps_ret keeps_raise keeps_lift keeps_say keeps_says
  keeps_get : keeps.

Ltac keeps :=
  repeat first
    [ apply keeps_mbind; [|intros ?]
    | apply keeps_try_except; [|intros ?]
    | solve [auto with keeps]
    | match goal with
      | |- keeps_state (match ?x with _ => _ end) => destruct x
      | |- keeps_state (if ?x then _ else _) => destruct x
      | |- keeps_state (let (_, _) := ?x in _) => destruct x
      end ].

Section ControllerFacts.
Context {J : JsonLib}.

Lemma keeps_print_stream dd chunks fin :
  keeps_state (print_stream dd chunks fin).
Proof. unfold print_stream. keeps. Qed.

Lemma keeps_get_available_models r : keeps_state (get_available_models r).
Proof. unfold get_available_models. keeps. Qed.

Lemma keeps_gemma_send_message reply : keeps_state (Gemma.send_message reply).
Proof. unfold Gemma.send_message. keeps. Qed.

Lemma keeps_gemma_stream_message reply :
  keeps_state (Gemma.stream_message reply).
Proof.
  unfold Gemma.stream_message, Gemma.print_colored_end. keeps.
  apply keeps_print_stream.
Qed.

Lemma keeps_phi_send_message reply : keeps_state (Phi.send_message reply).
Proof. unfold Phi.send_message. keeps. Qed.

Lemma keeps_phi_stream_message reply :
  keeps_state (Phi.stream_message reply).
Proof.
  unfold Phi.stream_message. keeps. apply keeps_print_stream.
Qed.

End ControllerFacts.

Lemma state_after_mbind {A B} (m : M A) (k : A -> M B) s :
  state_after (mbind m k s)
  = match result_of (m s) with
    | Ok a => state_after (k a (state_after (m s)))
    | Raise _ => state_after (m s)
    end.
Proof.
  unfold mbind, state_after, result_of.
  destruct (m s) as [[out s'] [a|e]]; [|reflexivity].
  simpl. now destruct (k a s') as [[out' s''] r].
Qed.

Lemma state_after_try_except {A} (m : M A) handled (h : exn -> M A) s :
  state_after (try_except m handled h s)
  = match result_of (m s) with
    | Ok _ => state_after (m s)
    | Raise e =>
        if handled e then state_after (h e (state_after (m s)))
        else state_after (m s)
    end.
Proof.
  unfold try_except, state_after, result_of.
  destruct (m s) as [[out s'] [a|e]]; [reflexivity|].
  simpl. destruct (handled e); [|reflexivity].
  now destruct (h e s') as [[out' s''] r].
Qed.

Lemma state_after_then_keeps {A B} (m : M A) (k : A -> M B) s :
  (forall a, keeps_state (k a)) ->
  state_after (mbind m k s) = state_after (m s).
Proof.
  intros Hk. rewrite state_after_mbind.
  destruct (result_of (m s)); [apply Hk | reflexivity].
Qed.

Lemma state_after_handled {A} (m : M A) handled (h : exn -> M A) s :
  (forall e, keeps_state (h e)) ->
  state_after (try_except m handled h s) = state_after (m s).
Proof.
  intros Hh. rewrite state_after_try_except.
  destruct (result_of (m s)) as [a|e]; [reflexivity|].
  destruct (handled e); [apply Hh|reflexivity].
Qed.

Lemma try_except_ok {A} (m : M A) handled (h : exn -> M A) s a :
  result_of (m s) = Ok a -> try_except m handled h s = m s.
Proof.
  unfold try_except, result_of. destruct (m s) as [[out s'] [a'|e]];
    [reflexivity|discriminate].
Qed.

Lemma gemma_round_state {J : JsonLib} t s :
  state_after (Gemma.round t s) = state_after (Gemma.loop_body t s).
Proof. unfold Gemma.round. apply state_after_handled. intros e. keeps. Qed.

Lemma phi_round_state {J : JsonLib} t s :
  state_after (Phi.round t s) = state_after (Phi.loop_body t s).
Proof. unfold Phi.round. apply state_after_handled. intros e. keeps. Qed.

Lemma append_message_list role content at_ s l :
  conversation_history s = PList l ->
  append_message role content at_ s
  = ([], set_history (PList (l ++ [message role content at_])) s, Ok tt).
Proof.
  intros H. unfold append_message, mbind, get, lift, modify, py_append.
  now rewrite H.
Qed.

Section TurnFacts.
Context {J : JsonLib}.

(** C1 (amended).  In streaming mode a prompt is logged as a user
    message and nothing else is logged in that round: not when the
    stream ends with a clean ['done'], not when it ends without one, not
    when the request or the stream fails.  The user message stays the
    last entry of the log. *)
Theorem streaming_turn_logs_no_reply
    (s : state) (t : turn) (line : string) (l : list pyval) :
  typed t = Typed line ->
  strip line <> "" ->
  startswith "/" (strip line) = false ->
  streaming s = true ->
  conversation_history s = PList l ->
  let logged := PList (l ++ [message "user" (PStr (strip line)) (now1 t)]) in
  conversation_history (state_after (Gemma.round t s)) = logged
  /\ conversation_history (state_after (Phi.round t s)) = logged.
Proof.
  intros Ht Hne Hslash Hstream Hl logged.
  apply String.eqb_neq in Hne.
  split.
  - rewrite gemma_round_state.
    assert (E : state_after (Gemma.loop_body t s) = set_history logged s).
    { unfold Gemma.loop_body. rewrite Ht, Hne, Hslash.
      rewrite state_after_mbind, (append_message_list _ _ _ s l Hl).
      cbn [result_of state_after fst snd].
      rewrite state_after_mbind. cbn [say result_of state_after fst snd].
      rewrite state_after_mbind. cbn [get result_of state_after fst snd].
      cbn [streaming set_history]. rewrite Hstream.
      rewrite state_after_then_keeps by (intros; keeps).
      apply keeps_gemma_stream_message. }
    now rewrite E.
  - rewrite phi_round_state. unfold Phi.loop_body. rewrite Ht, Hne, Hslash.
    rewrite state_after_mbind, (append_message_list _ _ _ s l Hl).
    cbn [result_of state_after fst snd].
    rewrite state_after_mbind. cbn [say result_of state_after fst snd].
    rewrite state_after_mbind. cbn [get result_of state_after fst snd].
    cbn [streaming set_history]. rewrite Hstream.
    rewrite state_after_then_keeps by (intros; keeps).
    now rewrite keeps_phi_stream_message.
Qed.

(** C10.  In complete mode, a reply with status 200 whose ['response']
    is the empty string (or is missing) is handled like a failure: an
    error line is printed, no assistant message is logged, and the user
    message stays the last entry of the log. *)
Theorem empty_reply_logs_nothing
    (s : state) (t : turn) (line : string) (l : list pyval)
    (data : pyval) (chunks : list bytes) (fin : stream_end) :
  typed t = Typed line ->
  strip line <> "" ->
  startswith "/" (strip line) = false ->
  streaming s = false ->
  conversation_history s = PList l ->
  generated t = Generated 200 (Ok data) chunks fin ->
  py_get data "response" (PStr "") = Ok (PStr "") ->
  let logged := PList (l ++ [message "user" (PStr (strip line)) (now1 t)]) in
  Gemma.round t s
  = ([Print CSystem "Gemma is thinking...";
      Print CError "Sorry, I couldn't get a response from Gemma."],
     set_history logged s, Ok Again)
  /\ Phi.round t s
     = ([Print CSystem "Phi is thinking..."; Print CError "No response."],
        set_history logged s, Ok Again).
Proof.
  intros Ht Hne Hslash Hstream Hl Hg Hresp logged.
  apply String.eqb_neq in Hne.
  split.
  - unfold Gemma.round, Gemma.loop_body, try_except.
    rewrite Ht, Hne, Hslash.
    unfold mbind at 1. rewrite (append_message_list _ _ _ s l Hl).
    unfold mbind at 1. cbn [say].
    unfold mbind at 1. cbn [get set_history streaming].
    rewrite Hstream.
    unfold mbind at 1, Gemma.send_message, try_except. rewrite Hg.
    cbn [Z.eqb Pos.eqb]. unfold mbind at 1, lift. rewrite Hresp.
    reflexivity.
  - unfold Phi.round, Phi.loop_body, try_except. rewrite Ht, Hne, Hslash.
    unfold mbind at 1. rewrite (append_message_list _ _ _ s l Hl).
    unfold mbind at 1. cbn [say].
    unfold mbind at 1. cbn [get set_history streaming].
    rewrite Hstream.
    unfold mbind at 1, Phi.send_message, try_except. rewrite Hg.
    cbn [Z.eqb Pos.eqb]. unfold mbind at 1, lift. rewrite Hresp.
    reflexivity.
Qed.

(** In [GemmaChat] a streamed reply with status 200 is never decoded:
    [print_colored] refuses the keyword [end], the [TypeError] is not a
    [RequestException], and the handler around the turn loop ends the
    loop. *)
Lemma gemma_streamed_reply_raises
    (s : state) (t : turn) (line : string) (l : list pyval)
    (json : result pyval) (chunks : list bytes) (fin : stream_end) :
  typed t = Typed line ->
  strip line <> "" ->
  startswith "/" (strip line) = false ->
  streaming s = true ->
  conversation_history s = PList l ->
  generated t = Generated 200 json chunks fin ->
  Gemma.round t s
  = ([Print CSystem "Gemma is thinking...";
      PrintException "Unexpected error: " TypeError],
     set_history (PList (l ++ [message "user" (PStr (strip line)) (now1 t)])) s,
     Ok Leave).
Proof.
  intros Ht Hne Hslash Hstream Hl Hg.
  apply String.eqb_neq in Hne.
  unfold Gemma.round, Gemma.loop_body, try_except.
  rewrite Ht, Hne, Hslash.
  unfold mbind at 1. rewrite (append_message_list _ _ _ s l Hl).
  unfold mbind at 1. cbn [say].
  unfold mbind at 1. cbn [get set_history streaming].
  rewrite Hstream.
  unfold mbind at 1, Gemma.stream_message, try_except. rewrite Hg.
  reflexivity.
Qed.

End TurnFacts.

(** A streamed prompt in both controllers. *)
Lemma streaming_turn_logs_no_reply_witness :
  let t := typing "Hello?" [] hello_stream in
  let logged := PList [message "user" (PStr "Hello?") (at_second 1)] in
  conversation_history (state_after (Gemma.round t (fresh "gemma2:9b" true)))
  = logged
  /\ conversation_history (state_after (Phi.round t (fresh "gemma2:9b" true)))
     = logged.
Proof.
  apply (streaming_turn_logs_no_reply (fresh "gemma2:9b" true)
           (typing "Hello?" [] hello_stream) "Hello?" []);
    try reflexivity.
  vm_compute. discriminate.
Defined.

(** C1, as stated, fails: [PhiChat.run] prints the fragments "He" and
    "llo" of a stream that ends with a clean ['done'], and logs no
    assistant message for them. *)
Lemma streaming_done_not_logged :
  let t := typing "Hello?" [] hello_stream in
  let s := fresh "phi4-mini:3.8b" true in
  Phi.round t s
  = ([Print CSystem "Phi is thinking..."; PrintNoNewline CModel "Phi: ";
      PrintFragment (PStr "He"); PrintFragment (PStr "llo");
      PrintNewline; PrintResponseTime],
     set_history (PList [message "user" (PStr "Hello?") (at_second 1)]) s,
     Ok Again)
  /\ ~ logs_reply (conversation_history s)
         (conversation_history (state_after (Phi.round t s)))
         "Hello?" "Hello".
Proof.
  split; [vm_compute; reflexivity|].
  intros (l & t1 & t2 & Hb & Ha).
  vm_compute in Hb. injection Hb as <-.
  vm_compute in Ha. discriminate.
Qed.

(** An empty reply in complete mode, in both controllers. *)
Lemma empty_reply_logs_nothing_witness :
  let t := typing "Hello?" []
             (Generated 200 (Ok (PDict [("response", PStr ""); ("done", PBool true)]))
                        [] Finished) in
  let s := fresh "gemma2:9b" false in
  let logged := PList [message "user" (PStr "Hello?") (at_second 1)] in
  Gemma.round t s
  = ([Print CSystem "Gemma is thinking...";
      Print CError "Sorry, I couldn't get a response from Gemma."],
     set_history logged s, Ok Again)
  /\ Phi.round t s
     = ([Print CSystem "Phi is thinking..."; Print CError "No response."],
        set_history logged s, Ok Again).
Proof.
  apply (empty_reply_logs_nothing (fresh "gemma2:9b" false)
           (typing "Hello?" []
              (Generated 200
                 (Ok (PDict [("response", PStr ""); ("done", PBool true)]))
                 [] Finished))
           "Hello?" []
           (PDict [("response", PStr ""); ("done", PBool true)]) [] Finished);
    try reflexivity.
  vm_compute. discriminate.
Defined.

(** C6, at a failing input.  The line [123] is JSON but no object:
    ['response' in data] raises [TypeError], which
    [except json.JSONDecodeError] does not catch.  The loop is left after
    the first fragment; in [PhiChat.run] the exception ends the process,
    and the records behind the line are never read. *)
Lemma non_record_line_aborts_stream :
  let chunks := [Json.line "{'response':'He'}"; Json.line "123";
                 Json.line "{'response':'llo'}"; Json.line "{'done':true}"] in
  let s := fresh "phi4-mini:3.8b" true in
  decode (PBool false) chunks Finished = ([PStr "He"], Throw TypeError)
  /\ decode PNone chunks Finished = ([PStr "He"], Throw TypeError)
  /\ Phi.round (typing "Hello?" [] noisy_stream) s
     = ([Print CSystem "Phi is thinking..."; PrintNoNewline CModel "Phi: ";
         PrintFragment (PStr "He")],
        set_history (PList [message "user" (PStr "Hello?") (at_second 1)]) s,
        Raise TypeError).
Proof. repeat split; vm_compute; reflexivity. Qed.

(** C7, at a failing input.  [GemmaChat] lower-cases the whole command
    line, so the listed model [Phi3] is looked up as [phi3] and reported
    missing; [PhiChat] lower-cases the command word only and switches. *)
Lemma model_name_lowercased :
  let t := typing "/model Phi3" ["Phi3"] (GenerateFailed ReqTimeout) in
  let s := fresh "gemma2:9b" false in
  Gemma.round t s = ([Print CError "Model 'phi3' not found"], s, Ok Again)
  /\ Phi.round t s
     = ([Print CInfo "Switched to Phi3"], set_model "Phi3" s, Ok Again).
Proof. split; vm_compute; reflexivity. Qed.

Section ModelCommand.
Context {J : JsonLib}.

(** [PhiChat]: [/model <name>] switches to exactly [name] when the
    service lists it, and otherwise reports and changes nothing. *)
Lemma phi_model_command (s : state) (t : turn) line p0 name rest status names :
  typed t = Typed line ->
  startswith "/" (strip line) = true ->
  split (strip line) = p0 :: name :: rest ->
  lower p0 = "/model" ->
  tags t = Tags status names ->
  let listed := if (status =? 200)%Z then names else [] in
  Phi.round t s
  = if str_in name listed
    then ([Print CInfo ("Switched to " ++ name)], set_model name s, Ok Again)
    else ([Print CError "Model not found."], s, Ok Again).
Proof.
  intros Ht Hslash Hsplit Hcmd Htags listed. subst listed.
  unfold Phi.round, Phi.loop_body, try_except. rewrite Ht, Hslash.
  assert (Hne : (strip line =? "") = false).
  { destruct (strip line); [discriminate|reflexivity]. }
  rewrite Hne. unfold Phi.run_command. rewrite Hsplit, Hcmd, Htags.
  cbn -[str_in String.append].
  unfold mbind, get_available_models.
  destruct (status =? 200)%Z; cbn [ret];
    destruct (str_in name _); reflexivity.
Qed.

(** [GemmaChat]: the name looked up and bound is the lower-cased one. *)
Lemma gemma_model_command (s : state) (t : turn) line name rest status names :
  typed t = Typed line ->
  startswith "/" (strip line) = true ->
  split (lower (strip line)) = "/model" :: name :: rest ->
  tags t = Tags status names ->
  let listed := if (status =? 200)%Z then names else [] in
  Gemma.round t s
  = if str_in name listed
    then ([Print CInfo ("Switched to model: " ++ name)],
          set_model name s, Ok Again)
    else ([Print CError ("Model '" ++ name ++ "' not found")], s, Ok Again).
Proof.
  intros Ht Hslash Hsplit Htags listed. subst listed.
  unfold Gemma.round, Gemma.loop_body. rewrite Ht, Hslash.
  assert (Hne : (strip line =? "") = false).
  { destruct (strip line); [discriminate|reflexivity]. }
  rewrite Hne. unfold Gemma.run_command. rewrite Hsplit, Htags.
  cbn -[str_in String.append].
  unfold try_except, mbind, get_available_models.
  destruct (status =? 200)%Z; cbn [ret];
    destruct (str_in name _); reflexivity.
Qed.

End ModelCommand.

(** ** The history listing *)

Lemma substring_whole (text : string) : forall n,
  String.length text <= n -> substring 0 n text = text.
Proof.
  induction text as [|c text IH]; intros n H.
  - now destruct n.
  - destruct n as [|n]; simpl in *; [lia|].
    rewrite IH by lia. reflexivity.
Qed.

Lemma substring_length (text : string) : forall n,
  n <= String.length text -> String.length (substring 0 n text) = n.
Proof.
  induction text as [|c text IH]; intros n H.
  - destruct n; simpl in *; [reflexivity|lia].
  - destruct n as [|n]; simpl in *; [reflexivity|].
    rewrite IH by lia. reflexivity.
Qed.

Lemma append_length (a b : string) :
  String.length (a ++ b) = String.length a + String.length b.
Proof. induction a as [|c a IH]; simpl; [reflexivity|now rewrite IH]. Qed.

Lemma cut_length limit text : String.length (cut limit text) <= limit + 3.
Proof.
  unfold cut, str_slice_to.
  destruct (limit <? String.length text)%nat eqn:E.
  - apply Nat.ltb_lt in E.
    rewrite append_length, substring_length by lia. simpl. lia.
  - apply Nat.ltb_ge in E. lia.
Qed.

Section HistoryFacts.
Context {J : JsonLib}.

Lemma gemma_history_line i e s :
  Gemma.history_line i (py_of_entry e) s
  = ([PrintEntry (gemma_paint (role e)) i (PStr (role e))
        (PStr (cut Gemma.preview_limit (content e)))], s, Ok tt).
Proof.
  unfold Gemma.history_line, Gemma.preview, mbind, lift, say, cut, gemma_paint.
  cbn -[Nat.ltb str_slice_to String.append].
  destruct (Gemma.preview_limit <? String.length (content e))%nat;
    reflexivity.
Qed.

Lemma gemma_history_lines entries : forall i s,
  Gemma.history_lines i (map py_of_entry entries) s
  = (entry_lines gemma_paint Gemma.preview_limit i entries, s, Ok tt).
Proof.
  induction entries as [|e rest IH]; intros i s; [reflexivity|].
  cbn [map Gemma.history_lines entry_lines].
  unfold mbind. now rewrite gemma_history_line, IH.
Qed.

Lemma append_empty (t : string) : (t ++ "")%string = t.
Proof. induction t as [|c t IH]; simpl; [reflexivity|now rewrite IH]. Qed.

Lemma phi_history_line i e s :
  Phi.history_line i (py_of_entry e) s
  = ([PrintEntry (phi_paint (role e)) i (PStr (role e))
        (PStr (cut Phi.preview_limit (content e)))], s, Ok tt).
Proof.
  unfold Phi.history_line, Phi.preview, mbind, lift, say, cut, phi_paint.
  cbn -[Nat.ltb str_slice_to String.append].
  destruct (Phi.preview_limit <? String.length (content e))%nat eqn:E.
  - reflexivity.
  - apply Nat.ltb_ge in E. unfold str_slice_to.
    rewrite substring_whole by exact E.
    now rewrite append_empty.
Qed.

Lemma phi_history_lines entries : forall i s,
  Phi.history_lines i (map py_of_entry entries) s
  = (entry_lines phi_paint Phi.preview_limit i entries, s, Ok tt).
Proof.
  induction entries as [|e rest IH]; intros i s; [reflexivity|].
  cbn [map Phi.history_lines entry_lines].
  unfold mbind. now rewrite phi_history_line, IH.
Qed.

(** C9 (amended).  The history command lists the entries of a log of
    well-formed messages oldest first, one numbered line per entry,
    between a header and a footer.  A content of at most 100 characters
    (80 in [PhiChat]) is shown whole; a longer one is cut to its first
    100 (80) characters and followed by three dots, so that a preview
    has at most 103 (83) characters. *)
Theorem history_lists_entries (s : state) (entries : list entry) :
  entries <> [] ->
  conversation_history s = py_of_log entries ->
  Gemma.show_history s
  = (Print CSystem "
--- Conversation History ---"
       :: entry_lines gemma_paint 100 1 entries
       ++ [Print CSystem "--- End History ---
"], s, Ok tt)
  /\ Phi.history s
     = (Print CSystem "
--- History ---"
          :: entry_lines phi_paint 80 1 entries
          ++ [Print CSystem "--- End ---
"], s, Ok tt)
  /\ (forall limit text,
        String.length (cut limit text) <= limit + 3
        /\ (String.length text <= limit -> cut limit text = text)
        /\ (limit < String.length text ->
            cut limit text = (substring 0 limit text ++ "...")%string
            /\ String.length (substring 0 limit text) = limit)).
Proof.
  intros Hne Hlog.
  assert (Htrue : truthy (py_of_log entries) = true)
    by (destruct entries; [contradiction|reflexivity]).
  split; [|split].
  - unfold Gemma.show_history, mbind at 1, get. rewrite Hlog, Htrue.
    cbn [negb]. unfold py_of_log, py_iter, lift, say, mbind.
    rewrite (gemma_history_lines entries 1 s). reflexivity.
  - unfold Phi.history, mbind at 1, get. rewrite Hlog, Htrue.
    cbn [negb]. unfold py_of_log, py_iter, lift, say, mbind.
    rewrite (phi_history_lines entries 1 s). reflexivity.
  - intros limit text. split; [apply cut_length|]. unfold cut, str_slice_to.
    split; intros H.
    + apply Nat.ltb_ge in H. now rewrite H.
    + pose proof H as H'. apply Nat.ltb_lt in H'. rewrite H'.
      split; [reflexivity|]. apply substring_length. lia.
Qed.

End HistoryFacts.

(** The history of a log of two entries, in both controllers. *)
Lemma history_lists_entries_witness :
  let s := set_history (py_of_log long_log) (fresh "gemma2:9b" false) in
  Gemma.show_history s
  = (Print CSystem "
--- Conversation History ---"
       :: entry_lines gemma_paint 100 1 long_log
       ++ [Print CSystem "--- End History ---
"], s, Ok tt)
  /\ Phi.history s
     = (Print CSystem "
--- History ---"
          :: entry_lines phi_paint 80 1 long_log
          ++ [Print CSystem "--- End ---
"], s, Ok tt)
  /\ (forall limit text,
        String.length (cut limit text) <= limit + 3
        /\ (String.length text <= limit -> cut limit text = text)
        /\ (limit < String.length text ->
            cut limit text = (substring 0 limit text ++ "...")%string
            /\ String.length (substring 0 limit text) = limit)).
Proof.
  apply (history_lists_entries
           (set_history (py_of_log long_log) (fresh "gemma2:9b" false))
           long_log);
    [discriminate | reflexivity].
Defined.

(** C9, as stated, fails in [GemmaChat]: a content of 101 characters is
    listed as a preview of 103 characters. *)
Lemma history_preview_exceeds_100 :
  let s := set_history (py_of_log long_log) (fresh "gemma2:9b" false) in
  exists preview,
    printed_by (Gemma.show_history s)
    = [Print CSystem "
--- Conversation History ---";
       PrintEntry CUser 1 (PStr "user") (PStr preview);
       PrintEntry CModel 2 (PStr "assistant") (PStr "Hi there");
       Print CSystem "--- End History ---
"]
    /\ String.length preview = 103
    /\ ~ String.length preview <= 100.
Proof.
  eexists. split; [vm_compute; reflexivity|].
  split; [vm_compute; reflexivity|].
  vm_compute. lia.
Qed.

(** ** Loading a transcript *)

Section LoadFacts.
Context {J : JsonLib}.

(** C2 (amended).  When the file cannot be read, is not UTF-8 JSON, or
    holds a JSON value that is not an object, [load] reports the error
    and the state, the log included, is exactly as before.  An object
    is taken as it is, without a check of its form: the log becomes the
    value of its ['conversation'] field, the empty list when it has
    none.  When that value has a length, the length is reported as the
    number of messages; when it has none (a number, [true], [null]),
    the error of [len] is reported, after the log has been replaced. *)
Theorem load_keeps_or_replaces (s : state) (path : string) :
  match read_conversation s path with
  | Raise e =>
      Gemma.load_conversation path s
      = ([PrintException "Error loading conversation: " e], s, Ok false)
      /\ Phi.load path s = ([PrintException "Load error: " e], s, Ok tt)
  | Ok h =>
      match py_len h with
      | Ok n =>
          Gemma.load_conversation path s
          = ([Print CInfo ("Loaded " ++ nat_to_str n ++ " messages from " ++ path)],
             set_history h s, Ok true)
          /\ Phi.load path s
             = ([Print CInfo ("Loaded " ++ nat_to_str n ++ " messages")],
                set_history h s, Ok tt)
      | Raise e =>
          Gemma.load_conversation path s
          = ([PrintException "Error loading conversation: " e],
             set_history h s, Ok false)
          /\ Phi.load path s
             = ([PrintException "Load error: " e], set_history h s, Ok tt)
      end
  end.
Proof.
  unfold read_conversation, Gemma.load_conversation, Phi.load, load_from,
    try_except, mbind, get, lift, modify, say, ret, bind, fs_read.
  destruct (file_at (disk s) path) as [text|]; [|split; reflexivity].
  destruct (json_loads text) as [data|e] eqn:E.
  2:{ rewrite (json_loads_raises _ _ E). split; reflexivity. }
  destruct data as [| | | | | | |d]; try (split; reflexivity).
  cbn [py_get].
  destruct (match dict_lookup "conversation" d with
            | Some v => v
            | None => PList []
            end) as [| | | | | | |]; split; reflexivity.
Qed.

End LoadFacts.

(** C2, as stated, fails: a document whose [conversation] is a string is
    a malformed transcript, yet [load] reports success and the log is
    replaced by that string. *)
Lemma load_accepts_malformed_transcript :
  let file := Json.b "{'model':'gemma2:9b','conversation':'oops'}" in
  let s := set_disk (disk_with "t.json" file)
             (set_history (py_of_log long_log) (fresh "gemma2:9b" false)) in
  (exists v, json_loads file = Ok v /\ transcript_ok v = false)
  /\ Gemma.load_conversation "t.json" s
     = ([Print CInfo "Loaded 4 messages from t.json"],
        set_history (PStr "oops") s, Ok true)
  /\ Phi.load "t.json" s
     = ([Print CInfo "Loaded 4 messages"], set_history (PStr "oops") s, Ok tt)
  /\ conversation_history (state_after (Gemma.load_conversation "t.json" s))
     <> conversation_history s.
Proof.
  split; [eexists; split; vm_compute; reflexivity|].
  split; [vm_compute; reflexivity|].
  split; [vm_compute; reflexivity|].
  vm_compute. discriminate.
Qed.

(** A [conversation] without a length: the error is reported after the
    log has been replaced. *)
Lemma load_error_after_replacement :
  let file := Json.b "{'conversation':5}" in
  let s := set_disk (disk_with "t.json" file)
             (set_history (py_of_log long_log) (fresh "gemma2:9b" false)) in
  Gemma.load_conversation "t.json" s
  = ([PrintException "Error loading conversation: " TypeError],
     set_history (PInt 5) s, Ok false)
  /\ Phi.load "t.json" s
     = ([PrintException "Load error: " TypeError], set_history (PInt 5) s, Ok tt).
Proof. split; vm_compute; reflexivity. Qed.

(** ** The order of the timestamps *)

Lemma stamps_of_app a : forall b,
  stamps_of (a ++ b)
  = match stamps_of a, stamps_of b with
    | Some x, Some y => Some (x ++ y)
    | _, _ => None
    end.
Proof.
  induction a as [|v a IH]; intros b; simpl.
  - now destruct (stamps_of b).
  - rewrite IH. destruct (entry_timestamp v); [|reflexivity].
    destruct (stamps_of a); [|reflexivity].
    now destruct (stamps_of b).
Qed.

Lemma last_cons (x : string) rest : forall d,
  last (x :: rest) d = last rest x.
Proof.
  revert x. induction rest as [|y rest IH]; intros x d; [reflexivity|].
  change (last (x :: y :: rest) d) with (last (y :: rest) d).
  rewrite IH. symmetry. apply IH.
Qed.

Lemma nondecreasing_snoc stamps : forall prev ts,
  nondecreasing prev (stamps ++ [ts])
  = nondecreasing prev stamps && timestamp_le (last stamps prev) ts.
Proof.
  induction stamps as [|x rest IH]; intros prev ts.
  - simpl. now rewrite andb_true_r.
  - cbn [app nondecreasing]. rewrite IH, andb_assoc, last_cons. reflexivity.
Qed.

Lemma last_stamp_stamps l : forall stamps,
  stamps_of l = Some stamps ->
  last_stamp (PList l)
  = match stamps with [] => None | x :: rest => Some (last rest x) end.
Proof.
  unfold last_stamp.
  induction l as [|v l IH] using rev_ind; intros stamps H.
  - simpl in H. now injection H as <-.
  - rewrite stamps_of_app in H. rewrite rev_app_distr. simpl in *.
    destruct (stamps_of l) as [tss|]; [|discriminate].
    destruct (entry_timestamp v) as [ts|]; [|discriminate].
    injection H as <-.
    destruct tss as [|x rest]; [reflexivity|].
    cbn [app]. f_equal. clear.
    revert x. induction rest as [|y rest IH]; intros x; [reflexivity|].
    cbn [app]. rewrite (last_cons y (rest ++ [ts]) x). apply IH.
Qed.

(** Appending a message stamped no earlier than the last entry keeps the
    log monotonic, and makes that message the last entry. *)
Lemma log_monotonic_append l r c at_ :
  log_monotonic (PList l) = true ->
  (forall last_ts, last_stamp (PList l) = Some last_ts ->
                   timestamp_le last_ts (isoformat at_) = true) ->
  log_monotonic (PList (l ++ [message r c at_])) = true
  /\ last_stamp (PList (l ++ [message r c at_])) = Some (isoformat at_).
Proof.
  intros Hm Hlast. split.
  - unfold log_monotonic in *. rewrite stamps_of_app.
    destruct (stamps_of l) as [stamps|] eqn:E; [|discriminate].
    rewrite (last_stamp_stamps l stamps E) in Hlast.
    cbn [stamps_of message entry_timestamp dict_lookup].
    change (("role" =? "timestamp")%string) with false.
    change (("content" =? "timestamp")%string) with false.
    change (("timestamp" =? "timestamp")%string) with true.
    cbn iota.
    destruct stamps as [|x rest]; [reflexivity|].
    cbn [app]. rewrite nondecreasing_snoc, Hm. simpl.
    now apply Hlast.
  - unfold last_stamp. rewrite rev_app_distr. reflexivity.
Qed.

(** ** Commands and the log *)

Lemma keeps_or_clears_of_keeps {A} (m : M A) :
  keeps_state m -> keeps_or_clears m.
Proof. intros H s. left. now rewrite H. Qed.

Lemma keeps_or_clears_mbind {A B} (m : M A) (k : A -> M B) :
  keeps_or_clears m -> (forall a, keeps_or_clears (k a)) ->
  keeps_or_clears (mbind m k).
Proof.
  intros Hm Hk s. rewrite state_after_mbind.
  destruct (result_of (m s)) as [a|e]; [|apply Hm].
  destruct (Hk a (state_after (m s))) as [E|E]; rewrite E; [apply Hm|now right].
Qed.

Lemma keeps_or_clears_try_except {A} (m : M A) handled (h : exn -> M A) :
  keeps_or_clears m -> (forall e, keeps_or_clears (h e)) ->
  keeps_or_clears (try_except m handled h).
Proof.
  intros Hm Hh s. rewrite state_after_try_except.
  destruct (result_of (m s)) as [a|e]; [apply Hm|].
  destruct (handled e); [|apply Hm].
  destruct (Hh e (state_after (m s))) as [E|E]; rewrite E; [apply Hm|now right].
Qed.

Lemma keeps_or_clears_set_model x : keeps_or_clears (modify (set_model x)).
Proof. intros s. now left. Qed.

Lemma keeps_or_clears_set_streaming x :
  keeps_or_clears (modify (set_streaming x)).
Proof. intros s. now left. Qed.

Lemma keeps_or_clears_set_disk x : keeps_or_clears (modify (set_disk x)).
Proof. intros s. now left. Qed.

Lemma keeps_or_clears_clear : keeps_or_clears (modify (set_history (PList []))).
Proof. intros s. now right. Qed.

Ltac keeps_or_clears :=
  repeat first
    [ apply keeps_or_clears_mbind; [|intros ?]
    | apply keeps_or_clears_try_except; [|intros ?]
    | apply keeps_or_clears_set_model
    | apply keeps_or_clears_set_streaming
    | apply keeps_or_clears_set_disk
    | apply keeps_or_clears_clear
    | apply keeps_or_clears_of_keeps; solve [auto with keeps]
    | match goal with
      | |- keeps_or_clears (match ?x with _ => _ end) => destruct x
      | |- keeps_or_clears (if ?x then _ else _) => destruct x
      | |- keeps_or_clears (let (_, _) := ?x in _) => destruct x
      end ].

Section MonotonicLog.
Context {J : JsonLib}.

Lemma keeps_dump_to path ea doc : keeps_or_clears (dump_to path ea doc).
Proof. unfold dump_to. keeps_or_clears. Qed.

Lemma keeps_gemma_history_lines msgs : forall i,
  keeps_state (Gemma.history_lines i msgs).
Proof.
  induction msgs as [|msg rest IH]; intros i; cbn; [keeps|].
  apply keeps_mbind; [|intros; apply IH].
  unfold Gemma.history_line. keeps.
Qed.

Lemma keeps_gemma_show_history : keeps_state Gemma.show_history.
Proof.
  unfold Gemma.show_history. keeps. apply keeps_gemma_history_lines.
Qed.

Lemma keeps_phi_history_lines msgs : forall i,
  keeps_state (Phi.history_lines i msgs).
Proof.
  induction msgs as [|msg rest IH]; intros i; cbn; [keeps|].
  apply keeps_mbind; [|intros; apply IH].
  unfold Phi.history_line. keeps.
Qed.

Lemma keeps_phi_history : keeps_state Phi.history.
Proof.
  unfold Phi.history. keeps. apply keeps_phi_history_lines.
Qed.

Lemma gemma_command_keeps_or_clears user_input t :
  hd "" (split (lower user_input)) <> "/load" ->
  keeps_or_clears (Gemma.run_command user_input t).
Proof.
  intros H. unfold Gemma.run_command.
  destruct (split (lower user_input)) as [|c0 args]; [keeps_or_clears|].
  cbn [hd] in H. apply String.eqb_neq in H. rewrite H. cbn [andb].
  unfold Gemma.save_conversation, Gemma.show_help, Gemma.show_stats.
  pose proof keeps_gemma_history_lines.
  pose proof keeps_get_available_models.
  keeps_or_clears; try apply keeps_dump_to;
    apply keeps_or_clears_of_keeps; auto.
Qed.

Lemma phi_command_keeps_or_clears user_input t :
  lower (hd "" (split user_input)) <> "/load" ->
  keeps_or_clears (Phi.run_command user_input t).
Proof.
  intros H. unfold Phi.run_command.
  destruct (split user_input) as [|p0 args]; [keeps_or_clears|].
  cbn [hd] in H. apply String.eqb_neq in H. cbv zeta. rewrite H. cbn [andb].
  unfold Phi.save, Phi.help, Phi.stats.
  pose proof keeps_phi_history_lines.
  pose proof keeps_get_available_models.
  keeps_or_clears; try apply keeps_dump_to;
    apply keeps_or_clears_of_keeps; auto.
Qed.

Ltac prompt_steps Hl :=
  rewrite state_after_mbind, (append_message_list _ _ _ _ _ Hl);
  cbn [result_of state_after fst snd];
  rewrite state_after_mbind; cbn [say result_of state_after fst snd];
  rewrite state_after_mbind; cbn [get result_of state_after fst snd];
  cbn [streaming set_history].

Ltac reply_steps Hkeeps :=
  rewrite state_after_mbind, Hkeeps;
  let r := fresh "response" in
  match goal with
  | |- context [result_of ?x] => destruct (result_of x) as [r|?]
  end;
  [ destruct (truthy r);
    [ rewrite state_after_mbind; cbn [say result_of state_after fst snd];
      rewrite state_after_mbind;
      erewrite append_message_list by reflexivity;
      cbn [result_of state_after fst snd];
      rewrite state_after_then_keeps by (intros; keeps);
      right; eexists; reflexivity
    | rewrite state_after_then_keeps by (intros; keeps); now left ]
  | now left ].

Lemma gemma_prompt_logged s t line l :
  typed t = Typed line ->
  (strip line =? "") = false ->
  startswith "/" (strip line) = false ->
  conversation_history s = PList l ->
  prompt_logged l (strip line) t
    (conversation_history (state_after (Gemma.loop_body t s))).
Proof.
  intros Ht Hne Hslash Hl. unfold Gemma.loop_body, prompt_logged.
  rewrite Ht, Hne, Hslash. prompt_steps Hl.
  destruct (streaming s).
  - rewrite state_after_then_keeps by (intros; keeps).
    rewrite keeps_gemma_stream_message. now left.
  - reply_steps keeps_gemma_send_message.
Qed.

Lemma phi_prompt_logged s t line l :
  typed t = Typed line ->
  (strip line =? "") = false ->
  startswith "/" (strip line) = false ->
  conversation_history s = PList l ->
  prompt_logged l (strip line) t
    (conversation_history (state_after (Phi.loop_body t s))).
Proof.
  intros Ht Hne Hslash Hl. unfold Phi.loop_body, prompt_logged.
  rewrite Ht, Hne, Hslash. prompt_steps Hl.
  destruct (streaming s).
  - rewrite state_after_then_keeps by (intros; keeps).
    rewrite keeps_phi_stream_message. now left.
  - reply_steps keeps_phi_send_message.
Qed.

Lemma prompt_logged_monotonic l asked t h :
  log_monotonic (PList l) = true ->
  (forall last_ts, last_stamp (PList l) = Some last_ts ->
                   timestamp_le last_ts (isoformat (now1 t)) = true) ->
  timestamp_le (isoformat (now1 t)) (isoformat (now2 t)) = true ->
  prompt_logged l asked t h ->
  log_monotonic h = true.
Proof.
  intros Hm Hlast Hclock Hp.
  destruct (log_monotonic_append l "user" (PStr asked) (now1 t) Hm Hlast)
    as [Hm1 Hl1].
  destruct Hp as [->|[reply ->]]; [exact Hm1|].
  apply log_monotonic_append; [exact Hm1|].
  intros last_ts E. rewrite Hl1 in E. now injection E as <-.
Qed.

(** C8 (amended).  A round of the turn loop that is not a [/load]
    command keeps the log timestamp-monotonic, provided the clock does
    not run backwards: the reading taken for the user message is at
    least the last entry's timestamp, and the reading taken for the
    reply is at least that of the user message.  This covers the
    appends of a turn and [/clear]. *)
Theorem log_stays_monotonic (s : state) (t : turn) :
  log_monotonic (conversation_history s) = true ->
  (forall last_ts, last_stamp (conversation_history s) = Some last_ts ->
                   timestamp_le last_ts (isoformat (now1 t)) = true) ->
  timestamp_le (isoformat (now1 t)) (isoformat (now2 t)) = true ->
  (forall line, typed t = Typed line ->
                hd "" (split (lower (strip line))) <> "/load"
                /\ lower (hd "" (split (strip line))) <> "/load") ->
  log_monotonic (conversation_history (state_after (Gemma.round t s))) = true
  /\ log_monotonic (conversation_history (state_after (Phi.round t s))) = true.
Proof.
  intros Hm Hlast Hclock Hcmd.
  assert (Hnil : log_monotonic (PList []) = true) by reflexivity.
  rewrite gemma_round_state, phi_round_state.
  destruct (typed t) as [line| |] eqn:Ht.
  - destruct (Hcmd line eq_refl) as [Hg Hp].
    destruct (strip line =? "") eqn:Hne.
    { unfold Gemma.loop_body, Phi.loop_body. rewrite Ht, Hne. now split. }
    destruct (startswith "/" (strip line)) eqn:Hslash.
    { unfold Gemma.loop_body, Phi.loop_body. rewrite Ht, Hne, Hslash. split.
      - destruct (gemma_command_keeps_or_clears (strip line) t Hg s)
          as [E|E]; now rewrite E.
      - destruct (phi_command_keeps_or_clears (strip line) t Hp s)
          as [E|E]; now rewrite E. }
    destruct (conversation_history s) as [| | | | | |l|] eqn:Hl;
      try discriminate.
    split.
    + apply (prompt_logged_monotonic l (strip line) t); try assumption.
      now apply gemma_prompt_logged.
    + apply (prompt_logged_monotonic l (strip line) t); try assumption.
      now apply phi_prompt_logged.
  - unfold Gemma.loop_body, Phi.loop_body. rewrite Ht. now split.
  - unfold Gemma.loop_body, Phi.loop_body. rewrite Ht. now split.
Qed.

End MonotonicLog.

(** A prompt answered in complete mode, with a clock that moves on. *)
Lemma log_stays_monotonic_witness :
  let t := typing "How are you?" [] answered in
  log_monotonic (conversation_history (state_after (Gemma.round t greeted)))
  = true
  /\ log_monotonic (conversation_history (state_after (Phi.round t greeted)))
     = true.
Proof.
  apply (log_stays_monotonic greeted (typing "How are you?" [] answered)).
  - reflexivity.
  - intros last_ts E. vm_compute in E. injection E as <-. reflexivity.
  - reflexivity.
  - intros line E. injection E as <-. split; vm_compute; discriminate.
Defined.

(** C8, as stated, fails for [load]: the entries of the file are taken
    in the order and with the timestamps the file has. *)
Lemma load_breaks_timestamp_order :
  let s := set_disk (disk_with "t.json" unordered_file)
                    (fresh "gemma2:9b" false) in
  let t := typing "/load t.json" [] (GenerateFailed ReqTimeout) in
  log_monotonic (conversation_history s) = true
  /\ log_monotonic (conversation_history (state_after (Gemma.round t s)))
     = false
  /\ log_monotonic (conversation_history (state_after (Phi.round t s)))
     = false.
Proof. repeat split; vm_compute; reflexivity. Qed.

(** ** The concrete [json] reads back what it writes *)

Module JsonFacts.
Import Json.

Lemma decode_encode_char (c : ascii) (rest : bytes) :
  decode_utf8 (encode_char c ++ rest)
  = bind (decode_utf8 rest) (fun t => Ok (c :: t)).
Proof.
  destruct c as [[] [] [] [] [] [] [] []]; reflexivity.
Qed.

Lemma decode_encode (t : text) : decode_utf8 (encode_utf8 t) = Ok t.
Proof.
  induction t as [|c t IH]; [reflexivity|].
  unfold encode_utf8 in *. cbn [flat_map].
  now rewrite decode_encode_char, IH.
Qed.

Lemma read_escaped (ea : bool) (c : ascii) (acc tail : text) :
  read_string acc (escape_char ea c ++ tail) = read_string (c :: acc) tail.
Proof.
  destruct ea; destruct c as [[] [] [] [] [] [] [] []]; reflexivity.
Qed.

Lemma read_escaped_text (ea : bool) (l : text) : forall acc tail,
  read_string acc (flat_map (escape_char ea) l ++ quote :: tail)
  = Ok (string_of_list (rev acc ++ l), tail).
Proof.
  induction l as [|c l IH]; intros acc tail.
  - cbn [flat_map app]. now rewrite app_nil_r.
  - cbn [flat_map]. rewrite <- app_assoc, read_escaped, IH.
    cbn [rev]. now rewrite <- app_assoc.
Qed.

Lemma string_of_list_of_string (s : string) :
  string_of_list (list_of_string s) = s.
Proof. induction s as [|c s IH]; simpl; [reflexivity|now rewrite IH]. Qed.

(** A string literal is read back, after its opening quote. *)
Lemma read_written_string (ea : bool) (s : string) (tail : text) :
  exists body,
    write_string ea s ++ tail = quote :: body
    /\ read_string [] body = Ok (s, tail).
Proof.
  exists (flat_map (escape_char ea) (list_of_string s) ++ quote :: tail).
  split.
  - unfold write_string. cbn [app]. now rewrite <- app_assoc.
  - rewrite read_escaped_text. cbn [rev app].
    now rewrite string_of_list_of_string.
Qed.

(** Induction on a value and, inside it, on its items. *)
Lemma pyval_nested_ind (P : pyval -> Prop) :
  P PNone -> (forall b, P (PBool b)) -> (forall z, P (PInt z)) ->
  (forall r, P (PFloat r)) -> (forall s, P (PStr s)) ->
  (forall u, P (PUni u)) ->
  (forall l, Forall P l -> P (PList l)) ->
  (forall d, Forall (fun kv => P (snd kv)) d -> P (PDict d)) ->
  forall v, P v.
Proof.
  intros HN HB HI HF HS HU HL HD.
  fix IH 1. intros [ | b | z | r | s | u | l | d].
  - exact HN.
  - apply HB.
  - apply HI.
  - apply HF.
  - apply HS.
  - apply HU.
  - apply HL. induction l as [|x l IHl]; constructor; [apply IH | exact IHl].
  - apply HD.
    induction d as [ | [k x] d IHd]; constructor; [apply IH | exact IHd].
Qed.

(** *** White space and the first character of a value *)

Lemma skip_ws_spaces n t : skip_ws (repeat " "%char n ++ t) = skip_ws t.
Proof. induction n as [|n IH]; [reflexivity|exact IH]. Qed.

Lemma skip_ws_indent level t : skip_ws (newline_indent level ++ t) = skip_ws t.
Proof. unfold newline_indent. cbn [app skip_ws is_ws]. apply skip_ws_spaces. Qed.

Lemma skip_ws_start c t : starts_value c -> skip_ws (c :: t) = c :: t.
Proof. intros [-> | [-> | ->]]; reflexivity. Qed.

Lemma value_head ea level v :
  textual v = true ->
  exists c t, write_value ea level v = c :: t /\ starts_value c.
Proof.
  unfold starts_value.
  destruct v as [ | b | z | r | s | u | [ | x l] | [ | [k x] d]];
    try discriminate;
    intros _; do 2 eexists;
    (split; [reflexivity|]);
    first [ left; reflexivity
          | right; left; reflexivity
          | right; right; reflexivity ].
Qed.

Lemma skip_ws_value ea level v t :
  textual v = true ->
  skip_ws (write_value ea level v ++ t) = write_value ea level v ++ t.
Proof.
  intros H. destruct (value_head ea level v H) as (c & t' & -> & Hc).
  cbn [app]. now apply skip_ws_start.
Qed.

(** *** One step of the reader *)

Lemma read_value_string f body :
  read_value (S f) (quote :: body)
  = bind (read_string [] body) (fun r => Ok (PStr (fst r), snd r)).
Proof. reflexivity. Qed.

Lemma read_value_open_list f t1 c t2 :
  skip_ws t1 = c :: t2 -> starts_value c ->
  read_value (S f) ("["%char :: t1) = read_elements f [] (c :: t2).
Proof.
  intros E [-> | [-> | ->]]; cbn [read_value]; rewrite E; reflexivity.
Qed.

Lemma read_value_open_dict f t1 t2 :
  skip_ws t1 = quote :: t2 ->
  read_value (S f) ("{"%char :: t1) = read_members f [] (quote :: t2).
Proof. intros E. cbn [read_value]. rewrite E. reflexivity. Qed.

Lemma read_elements_last f acc t v rest tail :
  read_value f t = Ok (v, rest) ->
  skip_ws rest = "]"%char :: tail ->
  read_elements (S f) acc t = Ok (PList (rev (v :: acc)), tail).
Proof. intros H E. cbn [read_elements]. rewrite H, E. reflexivity. Qed.

Lemma read_elements_more f acc t v rest rest' :
  read_value f t = Ok (v, rest) ->
  skip_ws rest = ","%char :: rest' ->
  read_elements (S f) acc t = read_elements f (v :: acc) (skip_ws rest').
Proof. intros H E. cbn [read_elements]. rewrite H, E. reflexivity. Qed.

Lemma read_members_last f acc body key t2 t3 v t4 tail :
  read_string [] body = Ok (key, t2) ->
  skip_ws t2 = ":"%char :: t3 ->
  read_value f (skip_ws t3) = Ok (v, t4) ->
  skip_ws t4 = "}"%char :: tail ->
  read_members (S f) acc (quote :: body)
  = Ok (PDict (dict_set key v acc), tail).
Proof.
  intros Hk E2 Hv E4. cbn [read_members quote].
  rewrite Hk, E2, Hv, E4. reflexivity.
Qed.

Lemma read_members_more f acc body key t2 t3 v t4 t5 :
  read_string [] body = Ok (key, t2) ->
  skip_ws t2 = ":"%char :: t3 ->
  read_value f (skip_ws t3) = Ok (v, t4) ->
  skip_ws t4 = ","%char :: t5 ->
  read_members (S f) acc (quote :: body)
  = read_members f (dict_set key v acc) (skip_ws t5).
Proof.
  intros Hk E2 Hv E4. cbn [read_members quote].
  rewrite Hk, E2, Hv, E4. reflexivity.
Qed.

(** *** Lists *)

Lemma read_written_elements ea xs :
  Forall (read_back ea) xs -> forallb textual xs = true ->
  forall x acc fuel level outer tail,
    read_back ea x -> textual x = true ->
    S (weight x) + items_weight xs <= fuel ->
    read_elements fuel acc
      (write_value ea level x ++ more_items ea level xs
       ++ newline_indent outer ++ "]"%char :: tail)
    = Ok (PList (rev acc ++ x :: xs), tail).
Proof.
  induction xs as [|y ys IH];
    intros HF Ht x acc fuel level outer tail Hx Htx Hfuel;
    (destruct fuel as [|f]; [simpl in Hfuel; lia|]).
  - cbn [more_items flat_map app].
    rewrite (read_elements_last f acc _ x
               (newline_indent outer ++ "]"%char :: tail) tail).
    + reflexivity.
    + apply Hx; [exact Htx | simpl in Hfuel; lia].
    + now rewrite skip_ws_indent.
  - inversion HF as [|? ? Hy HF']; subst.
    cbn [forallb] in Ht. apply andb_prop in Ht as [Hty Htys].
    unfold more_items. cbn [flat_map]. fold (more_items ea level ys).
    unfold next_item. cbn [app]. rewrite <- !app_assoc.
    rewrite (read_elements_more f acc _ x
               (","%char :: newline_indent level
                ++ write_value ea level y ++ more_items ea level ys
                ++ newline_indent outer ++ "]"%char :: tail)
               (newline_indent level
                ++ write_value ea level y ++ more_items ea level ys
                ++ newline_indent outer ++ "]"%char :: tail)).
    + rewrite skip_ws_indent, skip_ws_value by exact Hty.
      rewrite (IH HF' Htys y (x :: acc) f level outer tail Hy Hty).
      * cbn [rev]. now rewrite <- app_assoc.
      * cbn [items_weight fold_right] in Hfuel.
        fold (items_weight ys) in Hfuel. lia.
    + apply Hx; [exact Htx|].
      cbn [items_weight fold_right] in Hfuel. lia.
    + reflexivity.
Qed.

(** *** Dictionaries *)

Lemma dict_set_fresh k v acc :
  forallb (fun kv => negb (fst kv =? k)%string) acc = true ->
  dict_set k v acc = acc ++ [(k, v)].
Proof.
  induction acc as [ | [k' v'] acc IH]; intros H; [reflexivity|].
  cbn [forallb fst] in H. apply andb_prop in H as [Hk H].
  apply negb_true_iff in Hk. cbn [dict_set app]. rewrite Hk.
  now rewrite IH.
Qed.

Lemma distinct_fresh (a : list (string * pyval)) k rest :
  distinct (map fst a ++ k :: rest) = true ->
  forallb (fun kv => negb (fst kv =? k)%string) a = true.
Proof.
  induction a as [ | [k' v'] a IH]; intros H; [reflexivity|].
  cbn [map fst app distinct] in H. apply andb_prop in H as [Hk H].
  cbn [forallb fst]. rewrite (IH H), andb_true_r.
  apply negb_true_iff in Hk. unfold str_in in Hk.
  rewrite existsb_app in Hk. apply orb_false_elim in Hk as [_ Hk].
  cbn [existsb] in Hk. apply orb_false_elim in Hk as [Hk _].
  now rewrite Hk.
Qed.

Lemma member_text ea k value rest :
  write_member ea k value ++ rest
  = write_string ea k ++ ":"%char :: " "%char :: value ++ rest.
Proof. unfold write_member. now rewrite <- !app_assoc. Qed.

Lemma read_written_members ea kxs :
  Forall (fun kv => read_back ea (snd kv)) kxs ->
  forallb (fun kv => textual (snd kv)) kxs = true ->
  forall k x acc fuel level outer tail,
    read_back ea x -> textual x = true ->
    distinct (map fst acc ++ k :: map fst kxs) = true ->
    S (weight x) + members_weight kxs <= fuel ->
    read_members fuel acc
      (write_member ea k (write_value ea level x) ++ more_members ea level kxs
       ++ newline_indent outer ++ "}"%char :: tail)
    = Ok (PDict (acc ++ (k, x) :: kxs), tail).
Proof.
  induction kxs as [ | [k' y] kys IH];
    intros HF Ht k x acc fuel level outer tail Hx Htx Hkeys Hfuel;
    (destruct fuel as [|f]; [simpl in Hfuel; lia|]).
  - cbn [more_members flat_map app]. rewrite member_text.
    destruct (read_written_string ea k
                (":"%char :: " "%char :: write_value ea level x
                 ++ newline_indent outer ++ "}"%char :: tail))
      as (body & -> & Hbody).
    rewrite (read_members_last f acc body k _
               (" "%char :: write_value ea level x
                ++ newline_indent outer ++ "}"%char :: tail)
               x (newline_indent outer ++ "}"%char :: tail)
               tail Hbody eq_refl).
    + now rewrite (dict_set_fresh k x acc (distinct_fresh acc k _ Hkeys)).
    + cbn [skip_ws is_ws]. rewrite skip_ws_value by exact Htx.
      apply Hx; [exact Htx | simpl in Hfuel; lia].
    + now rewrite skip_ws_indent.
  - inversion HF as [|? ? Hy HF']; subst. cbn [snd] in Hy.
    cbn [forallb snd] in Ht. apply andb_prop in Ht as [Hty Htys].
    unfold more_members. cbn [flat_map fst snd]. fold (more_members ea level kys).
    unfold next_item. cbn [app]. rewrite <- !app_assoc. rewrite member_text.
    set (rest := (newline_indent level
                  ++ write_member ea k' (write_value ea level y)
                  ++ more_members ea level kys
                  ++ newline_indent outer ++ "}"%char :: tail)).
    destruct (read_written_string ea k
                (":"%char :: " "%char :: write_value ea level x
                 ++ ","%char :: rest))
      as (body & -> & Hbody).
    rewrite (read_members_more f acc body k _
               (" "%char :: write_value ea level x ++ ","%char :: rest)
               x (","%char :: rest) rest Hbody eq_refl).
    + subst rest. rewrite skip_ws_indent.
      rewrite (dict_set_fresh k x acc (distinct_fresh acc k _ Hkeys)).
      replace (skip_ws (write_member ea k' (write_value ea level y)
                        ++ more_members ea level kys
                        ++ newline_indent outer ++ "}"%char :: tail))
        with (write_member ea k' (write_value ea level y)
              ++ more_members ea level kys
              ++ newline_indent outer ++ "}"%char :: tail)
        by reflexivity.
      rewrite (IH HF' Htys k' y (acc ++ [(k, x)]) f level outer tail Hy Hty).
      * now rewrite <- app_assoc.
      * rewrite map_app, <- app_assoc. exact Hkeys.
      * cbn [members_weight fold_right snd] in Hfuel.
        fold (members_weight kys) in Hfuel. lia.
    + cbn [skip_ws is_ws]. rewrite skip_ws_value by exact Htx.
      apply Hx; [exact Htx|].
      cbn [members_weight fold_right snd] in Hfuel. lia.
    + reflexivity.
Qed.

(** *** Values *)

Lemma member_head ea k value rest :
  write_member ea k value ++ rest
  = quote :: flat_map (escape_char ea) (list_of_string k)
             ++ quote :: ":"%char :: " "%char :: value ++ rest.
Proof.
  rewrite member_text. unfold write_string. cbn [app].
  now rewrite <- app_assoc.
Qed.

Lemma value_read_back ea : forall v, read_back ea v.
Proof.
  induction v as [ | b | z | r | s | u | l IH | d IH] using pyval_nested_ind;
    intros Ht fuel level tail Hfuel; try discriminate;
    (destruct fuel as [|f]; [simpl in Hfuel; lia|]).
  - cbn [write_value].
    destruct (read_written_string ea s tail) as (body & -> & Hbody).
    now rewrite read_value_string, Hbody.
  - destruct l as [|x xs]; [reflexivity|].
    inversion IH as [|? ? Hx Hxs]; subst.
    cbn [textual forallb] in Ht. apply andb_prop in Ht as [Htx Htxs].
    cbn [write_value]. fold (more_items ea (S level) xs).
    cbn [app]. rewrite <- !app_assoc. cbn [app].
    destruct (value_head ea (S level) x Htx) as (c & t & E & Hc).
    rewrite (read_value_open_list f _ c
               (t ++ more_items ea (S level) xs
                ++ newline_indent level ++ "]"%char :: tail)).
    + change (c :: t ++ ?r) with ((c :: t) ++ r). rewrite <- E.
      apply (read_written_elements ea xs Hxs Htxs x [] f (S level) level tail
               Hx Htx).
      cbn [weight] in Hfuel. fold (items_weight (x :: xs)) in Hfuel.
      cbn [items_weight fold_right] in Hfuel. fold (items_weight xs) in Hfuel.
      lia.
    + rewrite skip_ws_indent, skip_ws_value by exact Htx. now rewrite E.
    + exact Hc.
  - destruct d as [ | [k x] kxs]; [reflexivity|].
    inversion IH as [|? ? Hx Hxs]; subst. cbn [snd] in Hx.
    cbn [textual forallb map fst snd] in Ht.
    apply andb_prop in Ht as [Hkeys Ht]. apply andb_prop in Ht as [Htx Htxs].
    cbn [write_value]. fold (more_members ea (S level) kxs).
    cbn [app]. rewrite <- !app_assoc. cbn [app].
    rewrite (read_value_open_dict f _
               (flat_map (escape_char ea) (list_of_string k)
                ++ quote :: ":"%char :: " "%char
                   :: write_value ea (S level) x
                   ++ more_members ea (S level) kxs
                   ++ newline_indent level ++ "}"%char :: tail)).
    + rewrite <- member_head.
      apply (read_written_members ea kxs Hxs Htxs k x [] f (S level) level tail
               Hx Htx Hkeys).
      cbn [weight] in Hfuel. fold (members_weight ((k, x) :: kxs)) in Hfuel.
      cbn [members_weight fold_right snd] in Hfuel.
      fold (members_weight kxs) in Hfuel. lia.
    + rewrite skip_ws_indent, member_head. reflexivity.
Qed.

(** *** Fuel *)

Lemma indent_length level : 1 <= List.length (newline_indent level).
Proof. unfold newline_indent. cbn [List.length]. lia. Qed.

Lemma weight_le_length ea : forall v,
  textual v = true ->
  forall level, weight v <= List.length (write_value ea level v).
Proof.
  induction v as [ | b | z | r | s | u | l IH | d IH] using pyval_nested_ind;
    intros Ht level; try discriminate.
  - cbn [weight write_value write_string List.length]. lia.
  - destruct l as [|x xs]; [cbn; lia|].
    inversion IH as [|? ? Hx Hxs]; subst.
    cbn [textual forallb] in Ht. apply andb_prop in Ht as [Htx Htxs].
    cbn [write_value weight fold_right]. fold (items_weight xs).
    fold (more_items ea (S level) xs).
    cbn [List.length]. rewrite !length_app. cbn [List.length].
    pose proof (Hx Htx (S level)). pose proof (indent_length (S level)).
    assert (items_weight xs <= List.length (more_items ea (S level) xs)).
    { clear - Hxs Htxs. induction xs as [|y ys IHys]; [cbn; lia|].
      inversion Hxs as [|? ? Hy Hys]; subst.
      cbn [forallb] in Htxs. apply andb_prop in Htxs as [Hty Htys].
      cbn [items_weight fold_right more_items flat_map].
      fold (items_weight ys). fold (more_items ea (S level) ys).
      unfold next_item. rewrite !length_app. cbn [List.length].
      rewrite !length_app.
      pose proof (Hy Hty (S level)). pose proof (IHys ltac:(assumption) ltac:(assumption)). lia. }
    lia.
  - destruct d as [ | [k x] kxs]; [cbn; lia|].
    inversion IH as [|? ? Hx Hxs]; subst. cbn [snd] in Hx.
    cbn [textual forallb map fst snd] in Ht.
    apply andb_prop in Ht as [_ Ht]. apply andb_prop in Ht as [Htx Htxs].
    cbn [write_value weight fold_right snd]. fold (members_weight kxs).
    fold (more_members ea (S level) kxs).
    cbn [List.length]. unfold write_member. rewrite !length_app.
    cbn [List.length].
    pose proof (Hx Htx (S level)). pose proof (indent_length (S level)).
    assert (members_weight kxs <= List.length (more_members ea (S level) kxs)).
    { clear - Hxs Htxs. induction kxs as [ | [k' y] kys IHys]; [cbn; lia|].
      inversion Hxs as [|? ? Hy Hys]; subst. cbn [snd] in Hy.
      cbn [forallb snd] in Htxs. apply andb_prop in Htxs as [Hty Htys].
      cbn [members_weight fold_right more_members flat_map fst snd].
      fold (members_weight kys). fold (more_members ea (S level) kys).
      unfold next_item, write_member. rewrite !length_app. cbn [List.length].
      rewrite !length_app.
      pose proof (Hy Hty (S level)). pose proof (IHys ltac:(assumption) ltac:(assumption)). lia. }
    lia.
Qed.

(** *** The pieces of a textual value *)

Lemma wide_app a b : wide (a ++ b) = wide a ++ wide b.
Proof. apply map_app. Qed.

Lemma utf8_narrow c : utf8 (N_of_ascii c) = encode_char c.
Proof. destruct c as [[] [] [] [] [] [] [] []]; reflexivity. Qed.

Lemma surrogate_narrow c : is_surrogate (N_of_ascii c) = false.
Proof. destruct c as [[] [] [] [] [] [] [] []]; reflexivity. Qed.

Lemma encode_app a b : encode_utf8 (a ++ b) = encode_utf8 a ++ encode_utf8 b.
Proof. apply flat_map_app. Qed.

Lemma write_wide t ps :
  write_pieces (wide t :: ps)
  = let (bs, r) := write_pieces ps in (encode_utf8 t ++ bs, r).
Proof.
  cbn [write_pieces].
  assert (E : existsb is_surrogate (wide t) = false).
  { induction t as [|c t IH]; [reflexivity|].
    change (wide (c :: t)) with (N_of_ascii c :: wide t).
    cbn [existsb]. now rewrite surrogate_narrow. }
  rewrite E. clear E.
  assert (F : flat_map utf8 (wide t) = encode_utf8 t).
  { unfold encode_utf8. induction t as [|c t IH]; [reflexivity|].
    change (wide (c :: t)) with (N_of_ascii c :: wide t).
    cbn [flat_map]. now rewrite utf8_narrow, IH. }
  now rewrite F.
Qed.

Lemma pieces_nil : pieces_of [] [].
Proof. intros rest. cbn. now destruct (write_pieces rest). Qed.

Lemma pieces_cons t ps t' :
  pieces_of ps t' -> pieces_of (wide t :: ps) (t ++ t').
Proof.
  intros H rest. cbn [app]. rewrite write_wide, H.
  destruct (write_pieces rest) as [bs r]. now rewrite encode_app, app_assoc.
Qed.

Lemma pieces_one t : pieces_of [wide t] t.
Proof.
  rewrite <- (app_nil_r t) at 2. apply pieces_cons, pieces_nil.
Qed.

Lemma pieces_app ps t ps' t' :
  pieces_of ps t -> pieces_of ps' t' -> pieces_of (ps ++ ps') (t ++ t').
Proof.
  intros H H' rest. rewrite <- app_assoc, H, H'.
  destruct (write_pieces rest) as [bs r]. now rewrite encode_app, app_assoc.
Qed.

(** An item of a list behind its bracket or separator [buf]. *)
Lemma item_pieces ea level buf x :
  textual x = true ->
  pieces_of (iterencode ea level x) (write_value ea level x) ->
  pieces_of (match atom ea x with
             | Some t => [wide buf ++ t]
             | None => wide buf :: iterencode ea level x
             end)
            (buf ++ write_value ea level x).
Proof.
  intros Ht H.
  destruct x as [ | b | z | r | s | u | l | d]; try discriminate Ht;
    cbn [atom].
  - cbn [write_value]. rewrite <- wide_app. apply pieces_one.
  - now apply pieces_cons.
  - now apply pieces_cons.
Qed.

(** The value of a member behind its colon. *)
Lemma member_pieces ea level x :
  textual x = true ->
  pieces_of (iterencode ea level x) (write_value ea level x) ->
  pieces_of (match atom ea x with
             | Some t => [t]
             | None => iterencode ea level x
             end)
            (write_value ea level x).
Proof.
  intros Ht H.
  destruct x as [ | b | z | r | s | u | l | d]; try discriminate Ht;
    cbn [atom]; [|exact H|exact H].
  cbn [write_value]. apply pieces_one.
Qed.

Lemma value_pieces ea : forall v,
  textual v = true ->
  forall level, pieces_of (iterencode ea level v) (write_value ea level v).
Proof.
  induction v as [ | b | z | r | s | u | l IH | d IH] using pyval_nested_ind;
    intros Ht level; try discriminate.
  - apply pieces_one.
  - destruct l as [|x xs]; [apply pieces_one|].
    inversion IH as [|? ? Hx Hxs]; subst.
    cbn [textual forallb] in Ht. apply andb_prop in Ht as [Htx Htxs].
    cbn [iterencode write_value].
    replace ("["%char :: newline_indent (S level)
             ++ write_value ea (S level) x
             ++ flat_map (fun y => next_item (S level)
                                     (write_value ea (S level) y)) xs
             ++ newline_indent level ++ ["]"%char])
      with ((("["%char :: newline_indent (S level))
             ++ write_value ea (S level) x)
            ++ flat_map (fun y => next_item (S level)
                                    (write_value ea (S level) y)) xs
            ++ newline_indent level ++ ["]"%char])
      by (cbn [app]; now rewrite <- app_assoc).
    apply pieces_app;
      [apply (item_pieces ea (S level) ("["%char :: newline_indent (S level)));
       auto|].
    apply pieces_app; [|apply pieces_cons, pieces_one].
    clear - Hxs Htxs. induction xs as [|y ys IHys]; [apply pieces_nil|].
    inversion Hxs as [|? ? Hy Hys]; subst.
    cbn [forallb] in Htxs. apply andb_prop in Htxs as [Hty Htys].
    cbn [flat_map]. apply pieces_app; [|now apply IHys].
    apply (item_pieces ea (S level) (","%char :: newline_indent (S level)));
      auto.
  - destruct d as [ | [k x] kxs]; [apply pieces_one|].
    inversion IH as [|? ? Hx Hxs]; subst. cbn [snd] in Hx.
    cbn [textual forallb map fst snd] in Ht.
    apply andb_prop in Ht as [_ Ht]. apply andb_prop in Ht as [Htx Htxs].
    cbn [iterencode write_value]. unfold write_member.
    apply (pieces_cons ["{"%char]), pieces_cons.
    rewrite <- !app_assoc.
    apply pieces_cons, pieces_cons.
    apply pieces_app; [apply member_pieces; auto|].
    apply pieces_app; [|apply pieces_cons, pieces_one].
    clear - Hxs Htxs. induction kxs as [ | [k' y] kys IHys]; [apply pieces_nil|].
    inversion Hxs as [|? ? Hy Hys]; subst. cbn [snd] in Hy.
    cbn [forallb snd] in Htxs. apply andb_prop in Htxs as [Hty Htys].
    cbn [flat_map fst snd]. unfold next_item, write_member.
    change (","%char :: ?a ++ ?b) with ((","%char :: a) ++ b).
    rewrite <- !app_assoc.
    apply pieces_cons, pieces_cons, pieces_cons.
    apply pieces_app; [apply member_pieces; auto|now apply IHys].
Qed.

(** A textual value is written in full: the bytes of its whole text. *)
Lemma dump_textual ea v :
  textual v = true -> dump ea v = (encode_utf8 (dumps ea v), None).
Proof.
  intros Ht. unfold dump, dumps.
  pose proof (value_pieces ea v Ht 0 []) as H.
  rewrite app_nil_r in H. cbn [write_pieces] in H.
  now rewrite app_nil_r in H.
Qed.

(** The concrete [json] keeps the contract. *)
Theorem lib_reads_back : reads_back lib.
Proof.
  intros ea v Ht. exists (encode_utf8 (dumps ea v)).
  split; [now apply dump_textual|]. cbn [json_loads lib].
  rewrite decode_encode. cbn [bind]. unfold loads, dumps.
  pose proof (skip_ws_value ea 0 v [] Ht) as E. rewrite app_nil_r in E.
  rewrite E.
  pose proof (value_read_back ea v Ht
                (2 * List.length (write_value ea 0 v) + 2) 0 []) as R.
  rewrite app_nil_r in R. rewrite R; [reflexivity|].
  pose proof (weight_le_length ea v Ht 0). lia.
Qed.

End JsonFacts.

(** ** Saving and loading *)

Lemma textual_log entries : textual (py_of_log entries) = true.
Proof.
  unfold py_of_log. cbn [textual].
  induction entries as [|e rest IH]; [reflexivity|].
  cbn [map forallb]. now rewrite IH.
Qed.

Lemma textual_transcript s entries :
  conversation_history s = py_of_log entries -> textual (transcript s) = true.
Proof.
  intros H. unfold transcript. rewrite H.
  cbn [textual map fst snd forallb]. rewrite andb_true_r.
  change (textual (py_of_log entries)) with
    (forallb textual (map py_of_entry entries)).
  pose proof (textual_log entries) as E. cbn [py_of_log textual] in E.
  rewrite E. reflexivity.
Qed.

Section SaveLoad.
Context {J : JsonLib}.

(** What a save leaves on the disk when the file can be opened: what
    the dump has written, in full or in part. *)
Lemma gemma_saved_file (s : state) (path : string) :
  path <> "" ->
  writable (disk s) path = true ->
  file_at (disk (state_after (Gemma.save_conversation (Some path) s))) path
  = Some (fst (json_dump false (transcript s))).
Proof.
  intros Hpath Hw. apply String.eqb_neq in Hpath.
  unfold Gemma.save_conversation, Gemma.pick_filename, dump_to, fs_write,
    try_except, mbind, get, lift, modify, say, raise, ret.
  rewrite Hpath, Hw.
  destruct (json_dump false (transcript s)) as [written [e|]] eqn:E;
    cbn [fst snd]; [rewrite (json_dump_raises _ _ _ _ E)|];
    cbn [state_after fst snd set_disk disk file_at];
    now rewrite String.eqb_refl.
Qed.

Lemma phi_saved_file (s : state) (path : string) :
  path <> "" ->
  writable (disk s) path = true ->
  file_at (disk (state_after (Phi.save (Some path) s))) path
  = Some (fst (json_dump true (transcript s))).
Proof.
  intros Hpath Hw. apply String.eqb_neq in Hpath.
  unfold Phi.save, Phi.pick_filename, dump_to, fs_write,
    try_except, mbind, get, lift, modify, say, raise, ret.
  rewrite Hpath, Hw.
  destruct (json_dump true (transcript s)) as [written [e|]] eqn:E;
    cbn [fst snd]; [rewrite (json_dump_raises _ _ _ _ E)|];
    cbn [state_after fst snd set_disk disk file_at];
    now rewrite String.eqb_refl.
Qed.

(** A load of a file that [json] reads as the transcript of [s]. *)
Lemma load_of_transcript (s store : state) (path : string) (text : bytes)
      (n : nat) :
  file_at (disk store) path = Some text ->
  json_loads text = Ok (transcript s) ->
  py_len (conversation_history s) = Ok n ->
  Gemma.load_conversation path store
  = ([Print CInfo ("Loaded " ++ nat_to_str n ++ " messages from " ++ path)],
     set_history (conversation_history s) store, Ok true)
  /\ Phi.load path store
     = ([Print CInfo ("Loaded " ++ nat_to_str n ++ " messages")],
        set_history (conversation_history s) store, Ok tt).
Proof.
  intros Hfile Hjson Hlen.
  unfold Gemma.load_conversation, Phi.load, load_from, fs_read,
    try_except, mbind, get, lift, modify, say, ret.
  rewrite Hfile, Hjson.
  cbn [transcript py_get dict_lookup].
  change (("session_start" =? "conversation")%string) with false.
  change (("model" =? "conversation")%string) with false.
  change (("host" =? "conversation")%string) with false.
  change (("conversation" =? "conversation")%string) with true.
  cbn iota. rewrite Hlen. split; reflexivity.
Qed.


(** With a [json] that keeps the contract [reads_back], every log of
    messages whose fields are strings of U+0000..U+00FF is saved in full
    and restored. *)
Lemma textual_log_is_restored
    (s store : state) (path : string) (entries : list entry) :
  reads_back J ->
  conversation_history s = py_of_log entries ->
  path <> "" ->
  writable (disk s) path = true ->
  (disk store = disk (state_after (Gemma.save_conversation (Some path) s)) ->
   Gemma.load_conversation path store
   = ([Print CInfo ("Loaded " ++ nat_to_str (List.length entries)
                    ++ " messages from " ++ path)],
      set_history (py_of_log entries) store, Ok true))
  /\ (disk store = disk (state_after (Phi.save (Some path) s)) ->
      Phi.load path store
      = ([Print CInfo ("Loaded " ++ nat_to_str (List.length entries)
                       ++ " messages")],
         set_history (py_of_log entries) store, Ok tt)).
Proof.
  intros Hjson Hlog Hpath Hw.
  pose proof (textual_transcript s entries Hlog) as Htext.
  assert (Hlen : py_len (conversation_history s) = Ok (List.length entries)).
  { rewrite Hlog. unfold py_of_log, py_len. now rewrite length_map. }
  rewrite <- Hlog.
  split; intros Hdisk.
  - destruct (Hjson false _ Htext) as (text & Hdump & Hread).
    apply (load_of_transcript s store path text _); try assumption.
    rewrite Hdisk, (gemma_saved_file s path Hpath Hw). now rewrite Hdump.
  - destruct (Hjson true _ Htext) as (text & Hdump & Hread).
    apply (load_of_transcript s store path text _); try assumption.
    rewrite Hdisk, (phi_saved_file s path Hpath Hw). now rewrite Hdump.
Qed.

End SaveLoad.

(** With the reader and the writer of [Json], every log of messages
    whose fields are strings of U+0000..U+00FF is saved in full and
    restored, in both controllers. *)
Lemma textual_log_round_trip
    (s store : state) (path : string) (entries : list entry) :
  conversation_history s = py_of_log entries ->
  path <> "" ->
  writable (disk s) path = true ->
  (disk store = disk (state_after (Gemma.save_conversation (Some path) s)) ->
   Gemma.load_conversation path store
   = ([Print CInfo ("Loaded " ++ nat_to_str (List.length entries)
                    ++ " messages from " ++ path)],
      set_history (py_of_log entries) store, Ok true))
  /\ (disk store = disk (state_after (Phi.save (Some path) s)) ->
      Phi.load path store
      = ([Print CInfo ("Loaded " ++ nat_to_str (List.length entries)
                       ++ " messages")],
         set_history (py_of_log entries) store, Ok tt)).
Proof.
  exact (textual_log_is_restored s store path entries JsonFacts.lib_reads_back).
Qed.



(* ===================================================================== *)
(** * Further properties of the code                                       *)
(* ===================================================================== *)

(** ** The decoding loop and the line terminators *)

Lemma closed_runs_with_crlf body : forall cur,
  closed_runs cur (with_crlf body) = closed_runs cur body.
Proof.
  induction body as [|b rest IH]; intros cur; [reflexivity|].
  unfold with_crlf in *. cbn [flat_map closed_runs].
  destruct (is_lf b) eqn:Hlf.
  - rewrite (is_lf_eol _ Hlf). cbn [app closed_runs flush].
    change (is_eol x0d) with true. change (is_eol x0a) with true.
    cbn iota. now rewrite IH.
  - cbn [app closed_runs]. destruct (is_eol b); now rewrite IH.
Qed.

Lemma residue_with_crlf body : forall cur,
  residue cur (with_crlf body) = residue cur body.
Proof.
  induction body as [|b rest IH]; intros cur; [reflexivity|].
  unfold with_crlf in *. cbn [flat_map residue].
  destruct (is_lf b) eqn:Hlf.
  - rewrite (is_lf_eol _ Hlf). cbn [app residue].
    change (is_eol x0d) with true. change (is_eol x0a) with true.
    cbn iota. now rewrite IH.
  - cbn [app residue]. destruct (is_eol b); now rewrite IH.
Qed.

Section MoreDecoderFacts.
Context {J : JsonLib}.
Variable dd : pyval.

(** X1.  A complete body is decoded the same with and without a final
    "\n": the last line needs no terminator. *)
Theorem final_newline_optional (chunks : list bytes) :
  decode dd (chunks ++ [[x0a]]) Finished = decode dd chunks Finished.
Proof.
  rewrite !decode_runs, concat_app. cbn [List.concat app].
  rewrite runs_app, (runs_residue (List.concat chunks)).
  cbn [runs]. change (is_eol x0a) with true. cbn iota.
  now rewrite app_nil_r.
Qed.

(** X2.  A body that ends its lines with "\r\n" is decoded like the same
    body with "\n", however it is cut into chunks and however it ends. *)
Theorem crlf_decodes_like_lf (chunks : list bytes) (fin : stream_end) :
  decode dd [with_crlf (List.concat chunks)] fin = decode dd chunks fin.
Proof.
  rewrite !decode_scan. cbn [List.concat]. rewrite app_nil_r.
  unfold after_chunks.
  now rewrite closed_runs_with_crlf, residue_with_crlf.
Qed.

(** X3.  When the connection drops, the bytes received behind the last
    line terminator are discarded: they are neither parsed nor printed. *)
Theorem dropped_stream_discards_open_line
    (chunks : list bytes) (open : bytes) (msg : string) :
  no_eol open = true ->
  decode dd (chunks ++ [open]) (Dropped msg) = decode dd chunks (Dropped msg).
Proof.
  intros Hopen. rewrite !decode_scan, concat_app.
  cbn [List.concat]. rewrite app_nil_r. unfold after_chunks.
  rewrite closed_runs_app.
  destruct (no_eol_scan open (residue [] (List.concat chunks)) Hopen)
    as [-> _].
  now rewrite app_nil_r.
Qed.

(** X4.  A line that [json.loads] refuses with [JSONDecodeError] has no
    effect wherever it stands in the body: the stream decodes as if the
    line were not there. *)
Theorem refused_line_is_skipped
    (head bad tail : bytes) (eol : byte) (fin : stream_end) :
  residue [] head = [] ->
  no_eol bad = true ->
  is_eol eol = true ->
  json_loads bad = Raise JSONDecodeError ->
  decode dd [head ++ bad ++ eol :: tail] fin = decode dd [head ++ tail] fin.
Proof.
  intros Hhead Hbad Heol Hl.
  rewrite !decode_scan. cbn [List.concat]. rewrite !app_nil_r.
  unfold after_chunks.
  rewrite !closed_runs_app, !residue_app, Hhead.
  destruct (no_eol_scan bad [] Hbad) as [-> ->]. rewrite app_nil_r.
  cbn [app closed_runs residue]. rewrite Heol.
  rewrite !handle_lines_app.
  assert (E : handle_lines dd (flush (rev bad)) = ([], Next)).
  { destruct (rev bad) as [|b r] eqn:Er; [reflexivity|].
    unfold flush. rewrite <- Er, rev_involutive. cbn [handle_lines].
    now rewrite (handle_line_malformed dd bad Hl). }
  destruct (handle_lines dd (closed_runs [] head)) as [out [| |e]];
    try reflexivity.
  rewrite E.
  destruct (handle_lines dd (closed_runs [] tail)) as [out1 [| |e1]];
    try reflexivity.
Qed.

End MoreDecoderFacts.

(** A dropped connection with half a record received. *)
Lemma dropped_stream_discards_open_line_witness :
  decode PNone ([Json.line "{'response':'He'}"] ++ [Json.b "{'respo"])
         (Dropped "reset")
  = decode PNone [Json.line "{'response':'He'}"] (Dropped "reset").
Proof.
  apply (dropped_stream_discards_open_line PNone
           [Json.line "{'response':'He'}"] (Json.b "{'respo") "reset").
  reflexivity.
Defined.

(** A line that is no JSON between two records. *)
Lemma refused_line_is_skipped_witness :
  decode PNone [Json.line "{'response':'He'}" ++ Json.b "{oops"
                ++ x0a :: Json.line "{'response':'llo'}"] Finished
  = decode PNone [Json.line "{'response':'He'}"
                  ++ Json.line "{'response':'llo'}"] Finished.
Proof.
  apply (refused_line_is_skipped PNone (Json.line "{'response':'He'}")
           (Json.b "{oops") (Json.line "{'response':'llo'}") x0a Finished);
    vm_compute; reflexivity.
Defined.

Section DefaultOfDone.
Context {J : JsonLib}.

Lemma handle_line_default line :
  handle_line (PBool false) line = handle_line PNone line.
Proof.
  unfold handle_line. destruct line as [|b rest]; [reflexivity|].
  destruct (json_loads (b :: rest)) as [data|e]; [|reflexivity].
  destruct (py_contains "response" data) as [has|e]; [|reflexivity].
  destruct (if has then _ else _) as [printed|e]; [|reflexivity].
  destruct data as [| | | | | | |d]; try reflexivity.
  cbn [py_get]. now destruct (dict_lookup "done" d).
Qed.

Lemma handle_lines_default lines :
  handle_lines (PBool false) lines = handle_lines PNone lines.
Proof.
  induction lines as [|line rest IH]; [reflexivity|].
  cbn [handle_lines]. now rewrite handle_line_default, IH.
Qed.

(** X5.  The decoding loops of the two controllers differ only in the
    default of [data.get('done', ...)], [False] in [GemmaChat] and [None]
    in [PhiChat], and that default makes no difference: over the same
    chunks and the same end of the stream the loop prints the same
    fragments and ends in the same way under either default.  Only
    [PhiChat] reaches its loop: on a reply with status 200 its
    [stream_message] prints the label and then the fragments, the ones
    the loop gives under either default, while [GemmaChat]'s
    [stream_message] raises the [TypeError] of [print_colored(..., end='')]
    before the first line is read and prints nothing. *)
Theorem done_default_immaterial
    (s : state) (json : result pyval) (chunks : list bytes) (fin : stream_end) :
  decode (PBool false) chunks fin = decode PNone chunks fin
  /\ print_stream (PBool false) chunks fin s = print_stream PNone chunks fin s
  /\ Gemma.stream_message (Generated 200 json chunks fin) s
     = ([], s, Raise TypeError)
  /\ exists rest,
       printed_by (Phi.stream_message (Generated 200 json chunks fin) s)
       = PrintNoNewline CModel "Phi: "
         :: map PrintFragment (fst (decode (PBool false) chunks fin)) ++ rest.
Proof.
  assert (D : decode (PBool false) chunks fin = decode PNone chunks fin).
  { rewrite !decode_scan. unfold after_chunks.
    now rewrite !handle_lines_default. }
  split; [exact D|]. split; [unfold print_stream; now rewrite D|].
  split; [reflexivity|].
  unfold Phi.stream_message, try_except, print_stream. rewrite D.
  cbn [Z.eqb Pos.eqb negb].
  destruct (decode PNone chunks fin) as [fragments f]. cbn [fst].
  unfold mbind, say, says, ret, raise, printed_by.
  destruct f as [| |e]; [| |destruct (is_request_exception e)];
    cbn [fst app]; eexists; rewrite <- ?app_assoc; reflexivity.
Qed.

End DefaultOfDone.

(** ** The words of a command *)

Lemma is_space_lower c : is_space (lower_char c) = is_space c.
Proof. destruct c as [[] [] [] [] [] [] [] []]; reflexivity. Qed.

Lemma lower_rev_onto s : forall acc,
  lower (string_rev_onto acc s) = string_rev_onto (lower acc) (lower s).
Proof.
  induction s as [|c s IH]; intros acc; [reflexivity|].
  cbn [string_rev_onto lower]. now rewrite IH.
Qed.

Lemma split_from_lower s : forall cur,
  split_from (lower cur) (lower s) = map lower (split_from cur s).
Proof.
  induction s as [|c s IH]; intros cur.
  - destruct cur as [|a cur]; [reflexivity|].
    cbn [lower split_from map]. unfold string_rev.
    now rewrite lower_rev_onto.
  - cbn [lower split_from]. rewrite is_space_lower.
    destruct (is_space c).
    + destruct cur as [|a cur].
      * apply (IH EmptyString).
      * cbn [lower map]. rewrite <- (IH EmptyString). unfold string_rev.
        now rewrite lower_rev_onto.
    + apply (IH (String c cur)).
Qed.

(** [s.lower().split()] and [s.split()] cut [s] at the same places. *)
Lemma split_lower s : split (lower s) = map lower (split s).
Proof. apply (split_from_lower s EmptyString). Qed.

Lemma command_words_inv line p0 args :
  command_words line = p0 :: args ->
  (strip line =? "") = false
  /\ startswith "/" (strip line) = true
  /\ split (strip line) = p0 :: args
  /\ split (lower (strip line)) = lower p0 :: map lower args.
Proof.
  unfold command_words.
  destruct (startswith "/" (strip line)) eqn:H; [|discriminate].
  intros E. repeat split; try assumption.
  - destruct (strip line); [discriminate H|reflexivity].
  - now rewrite split_lower, E.
Qed.

Lemma prompt_line_inv line :
  prompt_line line = true ->
  (strip line =? "") = false /\ startswith "/" (strip line) = false.
Proof.
  unfold prompt_line. intros H.
  apply andb_true_iff in H as [H1 H2].
  now apply negb_true_iff in H1, H2.
Qed.

Lemma result_of_mbind {A B} (m : M A) (k : A -> M B) s :
  result_of (mbind m k s)
  = match result_of (m s) with
    | Ok a => result_of (k a (state_after (m s)))
    | Raise e => Raise e
    end.
Proof.
  unfold mbind, state_after, result_of.
  destruct (m s) as [[out s'] [a|e]]; [|reflexivity].
  simpl. now destruct (k a s') as [[out' s''] r].
Qed.

(** ** Prompts *)

Section PromptFacts.
Context {J : JsonLib}.

(** X6.  In complete mode, a reply with status 200 whose ['response'] is
    a true value is printed and logged behind the user message as it was
    received, under the second reading of the clock; the round goes on. *)
Theorem complete_reply_is_logged
    (s : state) (t : turn) (line : string) (l : list pyval)
    (data reply : pyval) (chunks : list bytes) (fin : stream_end) :
  typed t = Typed line ->
  prompt_line line = true ->
  streaming s = false ->
  conversation_history s = PList l ->
  generated t = Generated 200 (Ok data) chunks fin ->
  py_get data "response" (PStr "") = Ok reply ->
  truthy reply = true ->
  let logged := PList (l ++ [message "user" (PStr (strip line)) (now1 t);
                             message "assistant" reply (now2 t)]) in
  Gemma.round t s
  = ([Print CSystem "Gemma is thinking..."; PrintReply reply;
      PrintResponseTime],
     set_history logged s, Ok Again)
  /\ Phi.round t s
     = ([Print CSystem "Phi is thinking..."; PrintReply reply;
         PrintResponseTime],
        set_history logged s, Ok Again).
Proof.
  intros Ht Hp Hstream Hl Hg Hresp Htrue logged. subst logged.
  destruct (prompt_line_inv line Hp) as [Hne Hslash].
  replace (l ++ [message "user" (PStr (strip line)) (now1 t);
                 message "assistant" reply (now2 t)])
    with ((l ++ [message "user" (PStr (strip line)) (now1 t)])
          ++ [message "assistant" reply (now2 t)])
    by (now rewrite <- app_assoc).
  split.
  - unfold Gemma.round, Gemma.loop_body, try_except.
    rewrite Ht, Hne, Hslash.
    unfold mbind at 1. rewrite (append_message_list _ _ _ s l Hl).
    unfold mbind at 1. cbn [say].
    unfold mbind at 1. cbn [get set_history streaming].
    rewrite Hstream.
    unfold mbind at 1, Gemma.send_message, try_except. rewrite Hg.
    cbn [Z.eqb Pos.eqb]. unfold mbind at 1, lift. rewrite Hresp, Htrue.
    reflexivity.
  - unfold Phi.round, Phi.loop_body, try_except. rewrite Ht, Hne, Hslash.
    unfold mbind at 1. rewrite (append_message_list _ _ _ s l Hl).
    unfold mbind at 1. cbn [say].
    unfold mbind at 1. cbn [get set_history streaming].
    rewrite Hstream.
    unfold mbind at 1, Phi.send_message, try_except. rewrite Hg.
    cbn [Z.eqb Pos.eqb]. unfold mbind at 1, lift. rewrite Hresp, Htrue.
    reflexivity.
Qed.

(** X7.  In complete mode, a request that fails with a requests
    exception or comes back with a status other than 200 does not end
    the session: the round goes on, and the user message stays in the
    log as its last entry, without a reply. *)
Theorem failed_request_keeps_session
    (s : state) (t : turn) (line : string) (l : list pyval) :
  typed t = Typed line ->
  prompt_line line = true ->
  streaming s = false ->
  conversation_history s = PList l ->
  failed_reply (generated t) ->
  let logged := PList (l ++ [message "user" (PStr (strip line)) (now1 t)]) in
  (state_after (Gemma.round t s) = set_history logged s
   /\ result_of (Gemma.round t s) = Ok Again)
  /\ (state_after (Phi.round t s) = set_history logged s
      /\ result_of (Phi.round t s) = Ok Again).
Proof.
  intros Ht Hp Hstream Hl Hf logged. subst logged.
  destruct (prompt_line_inv line Hp) as [Hne Hslash].
  split.
  - enough (exists out, Gemma.round t s
              = (out,
                 set_history
                   (PList (l ++ [message "user" (PStr (strip line)) (now1 t)]))
                   s,
                 Ok Again)) as [out ->] by now split.
    unfold Gemma.round, Gemma.loop_body, try_except.
    rewrite Ht, Hne, Hslash.
    unfold mbind at 1. rewrite (append_message_list _ _ _ s l Hl).
    unfold mbind at 1. cbn [say].
    unfold mbind at 1. cbn [get set_history streaming].
    rewrite Hstream.
    unfold mbind at 1, Gemma.send_message, try_except.
    destruct (generated t) as [e|status json chunks fin]; cbn in Hf.
    + destruct e; try discriminate; eexists; reflexivity.
    + apply Z.eqb_neq in Hf. rewrite Hf. eexists; reflexivity.
  - enough (exists out, Phi.round t s
              = (out,
                 set_history
                   (PList (l ++ [message "user" (PStr (strip line)) (now1 t)]))
                   s,
                 Ok Again)) as [out ->] by now split.
    unfold Phi.round, Phi.loop_body, try_except. rewrite Ht, Hne, Hslash.
    unfold mbind at 1. rewrite (append_message_list _ _ _ s l Hl).
    unfold mbind at 1. cbn [say].
    unfold mbind at 1. cbn [get set_history streaming].
    rewrite Hstream.
    unfold mbind at 1, Phi.send_message, try_except.
    destruct (generated t) as [e|status json chunks fin]; cbn in Hf.
    + destruct e; try discriminate; eexists; reflexivity.
    + apply Z.eqb_neq in Hf. rewrite Hf. eexists; reflexivity.
Qed.

Lemma phi_stream_message_returns g s :
  survivable_stream g -> result_of (Phi.stream_message g s) = Ok tt.
Proof.
  unfold Phi.stream_message, try_except, survivable_stream.
  destruct g as [e|status json chunks fin]; intros H.
  - unfold raise. now rewrite H.
  - destruct (status =? 200)%Z eqn:E; [|reflexivity].
    apply Z.eqb_eq in E. specialize (H E). cbn [negb].
    unfold print_stream.
    destruct (decode PNone chunks fin) as [fragments f]. cbn [snd] in H.
    destruct f as [| |e]; try reflexivity.
    unfold mbind, say, says, raise. now rewrite H.
Qed.

(** X8.  In [PhiChat], a streamed request that fails with a requests
    exception, before or while the body is read, or comes back with a
    status other than 200, does not end the session: the round goes on
    and the log holds the user message as its last entry. *)
Theorem phi_stream_failure_keeps_session
    (s : state) (t : turn) (line : string) (l : list pyval) :
  typed t = Typed line ->
  prompt_line line = true ->
  streaming s = true ->
  conversation_history s = PList l ->
  survivable_stream (generated t) ->
  state_after (Phi.round t s)
  = set_history (PList (l ++ [message "user" (PStr (strip line)) (now1 t)])) s
  /\ result_of (Phi.round t s) = Ok Again.
Proof.
  intros Ht Hp Hstream Hl Hg.
  destruct (prompt_line_inv line Hp) as [Hne Hslash].
  enough (B : state_after (Phi.loop_body t s)
              = set_history
                  (PList (l ++ [message "user" (PStr (strip line)) (now1 t)])) s
              /\ result_of (Phi.loop_body t s) = Ok Again).
  { destruct B as [Bs Br]. unfold Phi.round.
    rewrite (try_except_ok _ _ _ _ _ Br). now split. }
  unfold Phi.loop_body. rewrite Ht, Hne, Hslash. split.
  - rewrite state_after_mbind, (append_message_list _ _ _ s l Hl).
    cbn [result_of state_after fst snd].
    rewrite state_after_mbind. cbn [say result_of state_after fst snd].
    rewrite state_after_mbind. cbn [get result_of state_after fst snd].
    cbn [streaming set_history]. rewrite Hstream.
    rewrite state_after_then_keeps by (intros; keeps).
    now rewrite keeps_phi_stream_message.
  - rewrite result_of_mbind, (append_message_list _ _ _ s l Hl).
    cbn [result_of state_after fst snd].
    rewrite result_of_mbind. cbn [say result_of state_after fst snd].
    rewrite result_of_mbind. cbn [get result_of state_after fst snd].
    cbn [streaming set_history]. rewrite Hstream.
    rewrite result_of_mbind, phi_stream_message_returns by assumption.
    reflexivity.
Qed.

(** X14.  A prompt typed while the log is not a list, as [load] can leave
    it, is not sent: appending to the log raises [AttributeError].
    [GemmaChat] reports it and leaves the turn loop; in [PhiChat] the
    exception leaves [run].  The state is as before in both. *)
Theorem prompt_on_broken_log (s : state) (t : turn) (line : string) :
  typed t = Typed line ->
  prompt_line line = true ->
  (forall l, conversation_history s <> PList l) ->
  Gemma.round t s
  = ([PrintException "Unexpected error: " AttributeError], s, Ok Leave)
  /\ Phi.round t s = ([], s, Raise AttributeError).
Proof.
  intros Ht Hp Hnl.
  destruct (prompt_line_inv line Hp) as [Hne Hslash].
  assert (E : forall x c d,
             append_message x c d s = ([], s, Raise AttributeError)).
  { intros x c d. unfold append_message, mbind, get, lift, py_append.
    destruct (conversation_history s) as [| | | | | |l|] eqn:El;
      try reflexivity.
    now destruct (Hnl l). }
  split.
  - unfold Gemma.round, Gemma.loop_body, try_except.
    rewrite Ht, Hne, Hslash. unfold mbind at 1. now rewrite E.
  - unfold Phi.round, Phi.loop_body, try_except. rewrite Ht, Hne, Hslash.
    unfold mbind at 1. now rewrite E.
Qed.

(** X9.  Ctrl-C while a generate request is under way, in either mode.
    In [GemmaChat] the [KeyboardInterrupt] is caught neither around the
    request nor by [except Exception] around the turn loop: it leaves
    [run_interactive] behind the logged user message, no further input
    is read and the question whether to save is not reached.  In
    [PhiChat] the handler around the turn loop reports it and the loop
    ends as after [/quit]. *)
Theorem interrupted_request_ends_loop
    (s : state) (t : turn) (rest : list turn) (line : string)
    (l : list pyval) :
  typed t = Typed line ->
  prompt_line line = true ->
  conversation_history s = PList l ->
  generated t = GenerateFailed KeyboardInterrupt ->
  let logged :=
    set_history (PList (l ++ [message "user" (PStr (strip line)) (now1 t)])) s in
  Gemma.run_interactive (t :: rest) s
  = ([Print CSystem "Gemma is thinking..."], logged, Raise KeyboardInterrupt)
  /\ Phi.run (t :: rest) s
     = ([Print CSystem "Phi is thinking...";
         Print CSystem "
Interrupted. Goodbye!"], logged, Ok Leave).
Proof.
  intros Ht Hp Hl Hg logged. subst logged.
  destruct (prompt_line_inv line Hp) as [Hne Hslash].
  unfold Gemma.run_interactive, Phi.run. cbn [run_loop].
  split; unfold mbind at 1.
  - unfold Gemma.round, Gemma.loop_body, try_except.
    rewrite Ht, Hne, Hslash.
    unfold mbind at 1. rewrite (append_message_list _ _ _ s l Hl).
    unfold mbind at 1. cbn [say].
    unfold mbind at 1. cbn [get set_history streaming].
    unfold Gemma.stream_message, Gemma.send_message. rewrite Hg.
    now destruct (streaming s).
  - unfold Phi.round, Phi.loop_body, try_except.
    rewrite Ht, Hne, Hslash.
    unfold mbind at 1. rewrite (append_message_list _ _ _ s l Hl).
    unfold mbind at 1. cbn [say].
    unfold mbind at 1. cbn [get set_history streaming].
    unfold Phi.stream_message, Phi.send_message. rewrite Hg.
    now destruct (streaming s).
Qed.

End PromptFacts.

(** A prompt answered in complete mode, in both controllers. *)
Lemma complete_reply_is_logged_witness :
  let t := typing "Hello?" [] answered in
  let s := fresh "gemma2:9b" false in
  let logged := PList [message "user" (PStr "Hello?") (at_second 1);
                       message "assistant" (PStr "Hello!") (at_second 2)] in
  Gemma.round t s
  = ([Print CSystem "Gemma is thinking..."; PrintReply (PStr "Hello!");
      PrintResponseTime],
     set_history logged s, Ok Again)
  /\ Phi.round t s
     = ([Print CSystem "Phi is thinking..."; PrintReply (PStr "Hello!");
         PrintResponseTime],
        set_history logged s, Ok Again).
Proof.
  apply (complete_reply_is_logged (fresh "gemma2:9b" false)
           (typing "Hello?" [] answered) "Hello?" []
           (PDict [("response", PStr "Hello!"); ("done", PBool true)])
           (PStr "Hello!") [] Finished);
    reflexivity.
Defined.

(** A request that times out, in both controllers. *)
Lemma failed_request_keeps_session_witness :
  let t := typing "Hello?" [] (GenerateFailed ReqTimeout) in
  let s := fresh "gemma2:9b" false in
  let logged := PList [message "user" (PStr "Hello?") (at_second 1)] in
  (state_after (Gemma.round t s) = set_history logged s
   /\ result_of (Gemma.round t s) = Ok Again)
  /\ (state_after (Phi.round t s) = set_history logged s
      /\ result_of (Phi.round t s) = Ok Again).
Proof.
  apply (failed_request_keeps_session (fresh "gemma2:9b" false)
           (typing "Hello?" [] (GenerateFailed ReqTimeout)) "Hello?" []);
    reflexivity.
Defined.

(** A stream that is cut off behind its first record. *)
Lemma phi_stream_failure_keeps_session_witness :
  let t := typing "Hello?" []
             (Generated 200 (Raise JSONDecodeError)
                        [Json.line "{'response':'He'}"] (Dropped "reset")) in
  let s := fresh "phi4-mini:3.8b" true in
  state_after (Phi.round t s)
  = set_history (PList [message "user" (PStr "Hello?") (at_second 1)]) s
  /\ result_of (Phi.round t s) = Ok Again.
Proof.
  apply (phi_stream_failure_keeps_session (fresh "phi4-mini:3.8b" true)
           (typing "Hello?" []
              (Generated 200 (Raise JSONDecodeError)
                         [Json.line "{'response':'He'}"] (Dropped "reset")))
           "Hello?" []);
    try reflexivity.
  intros _. vm_compute. reflexivity.
Defined.

(** Ctrl-C during the request that follows the prompt [Hello?]. *)
Lemma interrupted_request_ends_loop_witness :
  let t := typing "Hello?" [] (GenerateFailed KeyboardInterrupt) in
  let s := fresh "gemma2:9b" false in
  let logged :=
    set_history (PList [message "user" (PStr "Hello?") (at_second 1)]) s in
  Gemma.run_interactive [t; typing "/quit" [] answered] s
  = ([Print CSystem "Gemma is thinking..."], logged, Raise KeyboardInterrupt)
  /\ Phi.run [t; typing "/quit" [] answered] s
     = ([Print CSystem "Phi is thinking...";
         Print CSystem "
Interrupted. Goodbye!"], logged, Ok Leave).
Proof.
  apply (interrupted_request_ends_loop (fresh "gemma2:9b" false)
           (typing "Hello?" [] (GenerateFailed KeyboardInterrupt))
           [typing "/quit" [] answered] "Hello?" []);
    reflexivity.
Defined.

(** A prompt behind the load of a transcript whose conversation is a
    string. *)
Lemma prompt_on_broken_log_witness :
  let t := typing "Hello?" [] answered in
  let s := set_history (PStr "oops") (fresh "gemma2:9b" false) in
  Gemma.round t s
  = ([PrintException "Unexpected error: " AttributeError], s, Ok Leave)
  /\ Phi.round t s = ([], s, Raise AttributeError).
Proof.
  apply (prompt_on_broken_log
           (set_history (PStr "oops") (fresh "gemma2:9b" false))
           (typing "Hello?" [] answered) "Hello?");
    try reflexivity.
  intros l. discriminate.
Defined.

(** ** Commands *)

Section CommandFacts.
Context {J : JsonLib}.

(** X10.  A line that starts with "/" is never sent to the model: what
    the round prints, the state it leaves and how it ends do not depend
    on what the service would answer to a generate request, nor on the
    second reading of the clock. *)
Theorem command_line_never_sent (t t' : turn) (s : state) (line : string) :
  typed t = Typed line ->
  startswith "/" (strip line) = true ->
  typed t' = Typed line ->
  tags t' = tags t ->
  now1 t' = now1 t ->
  Gemma.round t' s = Gemma.round t s /\ Phi.round t' s = Phi.round t s.
Proof.
  intros Ht Hslash Ht' Htags Hnow. split.
  - unfold Gemma.round, Gemma.loop_body. rewrite Ht, Ht', Hslash.
    destruct (strip line =? ""); [reflexivity|].
    unfold Gemma.run_command. now rewrite Htags, Hnow.
  - unfold Phi.round, Phi.loop_body, try_except. rewrite Ht, Ht', Hslash.
    destruct (strip line =? ""); [reflexivity|].
    unfold Phi.run_command. now rewrite Htags, Hnow.
Qed.

Ltac command_steps Ht Hw :=
  let Hne := fresh "Hne" in
  let Hslash := fresh "Hslash" in
  let Hsplit := fresh "Hsplit" in
  let Hlower := fresh "Hlower" in
  destruct (command_words_inv _ _ _ Hw) as (Hne & Hslash & Hsplit & Hlower);
  unfold Gemma.round, Gemma.loop_body, Phi.round, Phi.loop_body, try_except;
  rewrite Ht, Hne, Hslash;
  unfold Gemma.run_command, Phi.run_command;
  rewrite ?Hsplit, ?Hlower.

(** X13.  The words [/quit], [/exit] and [/q] end the turn loop in
    whatever case they are typed and whatever follows them on the line;
    nothing is changed. *)
Theorem quit_in_any_case
    (s : state) (t : turn) (line p0 : string) (args : list string) :
  typed t = Typed line ->
  command_words line = p0 :: args ->
  str_in (lower p0) quit_words = true ->
  Gemma.round t s = ([Print CSystem "Goodbye!"], s, Ok Leave)
  /\ Phi.round t s = ([Print CSystem "Goodbye!"], s, Ok Leave).
Proof.
  intros Ht Hw Hq. unfold quit_words in Hq.
  split; command_steps Ht Hw; cbv zeta; now rewrite Hq.
Qed.

(** X11.  A command word that is not known, and [/model] or [/load]
    without the argument they need, are reported as an unknown command;
    the state is as before and the round goes on. *)
Theorem unknown_command_changes_nothing
    (s : state) (t : turn) (line p0 : string) (args : list string) :
  typed t = Typed line ->
  command_words line = p0 :: args ->
  no_such_command (lower p0) args ->
  Gemma.round t s
  = ([Print CError ("Unknown command: " ++ lower p0);
      Print CInfo "Type '/help' for available commands"], s, Ok Again)
  /\ Phi.round t s
     = ([Print CError "Unknown command. /help for list."], s, Ok Again).
Proof.
  intros Ht Hw [Hn|[-> Hn]].
  - unfold str_in, known_words in Hn. cbn [existsb] in Hn.
    repeat (apply orb_false_iff in Hn;
            let E := fresh "E" in destruct Hn as [E Hn]).
    split; command_steps Ht Hw; unfold str_in; cbn [existsb]; cbv zeta;
      repeat match goal with
             | E : (lower p0 =? _) = false |- _ => rewrite E; clear E
             end;
      reflexivity.
  - split; command_steps Ht Hw; cbv zeta;
      destruct Hn as [-> | ->]; reflexivity.
Qed.

Lemma gemma_stream_command t s line p0 args :
  typed t = Typed line ->
  command_words line = p0 :: args ->
  lower p0 = "/stream" ->
  state_after (Gemma.round t s) = set_streaming (negb (streaming s)) s.
Proof.
  intros Ht Hw Hs. command_steps Ht Hw. now rewrite Hs.
Qed.

Lemma phi_stream_command t s line p0 args :
  typed t = Typed line ->
  command_words line = p0 :: args ->
  lower p0 = "/stream" ->
  state_after (Phi.round t s) = set_streaming (negb (streaming s)) s.
Proof.
  intros Ht Hw Hs. command_steps Ht Hw. cbv zeta. now rewrite Hs.
Qed.

(** X12.  [/stream] typed twice leaves the session as it was: the
    command flips the streaming mode and nothing else. *)
Theorem stream_toggle_twice
    (s : state) (t1 t2 : turn) (l1 l2 p1 p2 : string) (a1 a2 : list string) :
  typed t1 = Typed l1 ->
  command_words l1 = p1 :: a1 ->
  lower p1 = "/stream" ->
  typed t2 = Typed l2 ->
  command_words l2 = p2 :: a2 ->
  lower p2 = "/stream" ->
  state_after (Gemma.round t2 (state_after (Gemma.round t1 s))) = s
  /\ state_after (Phi.round t2 (state_after (Phi.round t1 s))) = s.
Proof.
  intros Ht1 Hw1 Hs1 Ht2 Hw2 Hs2.
  rewrite (gemma_stream_command t1 s l1 p1 a1), (gemma_stream_command t2 _ l2 p2 a2)
    by assumption.
  rewrite (phi_stream_command t1 s l1 p1 a1), (phi_stream_command t2 _ l2 p2 a2)
    by assumption.
  destruct s as [h p m c st b d]. unfold set_streaming. cbn.
  now rewrite negb_involutive.
Qed.

(** X17.  [/model <name>] binds the model only to a name the service
    lists with status 200, and otherwise changes nothing.  [PhiChat]
    looks the name up as it was typed, [GemmaChat] in lower case. *)
Theorem model_switch_by_listed_name
    (s : state) (t : turn) (line p0 name : string) (rest : list string)
    (status : Z) (names : list string) :
  typed t = Typed line ->
  command_words line = p0 :: name :: rest ->
  lower p0 = "/model" ->
  tags t = Tags status names ->
  let listed := if (status =? 200)%Z then names else [] in
  Gemma.round t s
  = (if str_in (lower name) listed
     then ([Print CInfo ("Switched to model: " ++ lower name)],
           set_model (lower name) s, Ok Again)
     else ([Print CError ("Model '" ++ lower name ++ "' not found")],
           s, Ok Again))
  /\ Phi.round t s
     = (if str_in name listed
        then ([Print CInfo ("Switched to " ++ name)], set_model name s, Ok Again)
        else ([Print CError "Model not found."], s, Ok Again)).
Proof.
  intros Ht Hw Hm Htags listed.
  destruct (command_words_inv _ _ _ Hw) as (Hne & Hslash & Hsplit & Hlower).
  split.
  - apply (gemma_model_command s t line (lower name) (map lower rest)
             status names Ht Hslash); [|exact Htags].
    now rewrite Hlower, Hm.
  - exact (phi_model_command s t line p0 name rest status names
             Ht Hslash Hsplit Hm Htags).
Qed.

(** X18.  [/models] while the service cannot be reached, or answers with
    a status other than 200: no model is listed, nothing is raised and
    nothing is changed. *)
Theorem models_command_when_unreachable
    (s : state) (t : turn) (line p0 : string) (args : list string) :
  typed t = Typed line ->
  command_words line = p0 :: args ->
  lower p0 = "/models" ->
  unreachable (tags t) ->
  Gemma.round t s = ([Print CError "No models available"], s, Ok Again)
  /\ Phi.round t s = ([Print CInfo "No models."], s, Ok Again).
Proof.
  intros Ht Hw Hm Hu.
  assert (E : get_available_models (tags t) s = ([], s, Ok [])).
  { unfold get_available_models.
    destruct (tags t) as [e|status names]; cbn in Hu.
    - now rewrite Hu.
    - apply Z.eqb_neq in Hu. now rewrite Hu. }
  split; command_steps Ht Hw; cbv zeta; rewrite Hm.
  - unfold try_except. cbn -[mbind get_available_models].
    unfold mbind at 1. unfold mbind at 1. now rewrite E.
  - cbn -[mbind get_available_models].
    unfold mbind at 1. unfold mbind at 1. now rewrite E.
Qed.

End CommandFacts.

(** [/stats] typed with and without a service behind it. *)
Lemma command_line_never_sent_witness :
  let t := typing "/stats" [] (GenerateFailed ReqTimeout) in
  let t' := typing "/stats" [] answered in
  let s := fresh "gemma2:9b" false in
  Gemma.round t' s = Gemma.round t s /\ Phi.round t' s = Phi.round t s.
Proof.
  apply (command_line_never_sent (typing "/stats" [] (GenerateFailed ReqTimeout))
           (typing "/stats" [] answered) (fresh "gemma2:9b" false) "/stats");
    reflexivity.
Defined.

(** [/QUIT], with spaces around it and a word behind it. *)
Lemma quit_in_any_case_witness :
  let t := typing "  /QUIT now " [] answered in
  Gemma.round t greeted = ([Print CSystem "Goodbye!"], greeted, Ok Leave)
  /\ Phi.round t greeted = ([Print CSystem "Goodbye!"], greeted, Ok Leave).
Proof.
  apply (quit_in_any_case greeted (typing "  /QUIT now " [] answered)
           "  /QUIT now " "/QUIT" ["now"]);
    reflexivity.
Defined.

(** [/Model] without a name. *)
Lemma unknown_command_changes_nothing_witness :
  let t := typing "/Model" ["gemma2:9b"] answered in
  Gemma.round t greeted
  = ([Print CError "Unknown command: /model";
      Print CInfo "Type '/help' for available commands"], greeted, Ok Again)
  /\ Phi.round t greeted
     = ([Print CError "Unknown command. /help for list."], greeted, Ok Again).
Proof.
  apply (unknown_command_changes_nothing greeted
           (typing "/Model" ["gemma2:9b"] answered) "/Model" "/Model" []);
    try reflexivity.
  right. split; [reflexivity|]. left. reflexivity.
Defined.

(** [/stream] and [/STREAM]. *)
Lemma stream_toggle_twice_witness :
  let t1 := typing "/stream" [] answered in
  let t2 := typing "/STREAM" [] answered in
  state_after (Gemma.round t2 (state_after (Gemma.round t1 greeted))) = greeted
  /\ state_after (Phi.round t2 (state_after (Phi.round t1 greeted))) = greeted.
Proof.
  apply (stream_toggle_twice greeted (typing "/stream" [] answered)
           (typing "/STREAM" [] answered)
           "/stream" "/STREAM" "/stream" "/STREAM" [] []);
    reflexivity.
Defined.

(** [/model Phi3] while the service lists [phi3] and [Phi3]. *)
Lemma model_switch_by_listed_name_witness :
  let t := typing "/model Phi3" ["phi3"; "Phi3"] answered in
  Gemma.round t greeted
  = ([Print CInfo "Switched to model: phi3"], set_model "phi3" greeted, Ok Again)
  /\ Phi.round t greeted
     = ([Print CInfo "Switched to Phi3"], set_model "Phi3" greeted, Ok Again).
Proof.
  apply (model_switch_by_listed_name greeted
           (typing "/model Phi3" ["phi3"; "Phi3"] answered)
           "/model Phi3" "/model" "Phi3" [] 200 ["phi3"; "Phi3"]);
    reflexivity.
Defined.

(** [/models] while the connection is refused. *)
Lemma models_command_when_unreachable_witness :
  Gemma.round (offline "/models") greeted
  = ([Print CError "No models available"], greeted, Ok Again)
  /\ Phi.round (offline "/models") greeted
     = ([Print CInfo "No models."], greeted, Ok Again).
Proof.
  apply (models_command_when_unreachable greeted (offline "/models")
           "/models" "/models" []);
    reflexivity.
Defined.

(** ** Saving *)

Section SaveFacts.
Context {J : JsonLib}.

(** X15.  A save whose file cannot be opened for writing is reported and
    changes nothing: neither the disk nor the session. *)
Theorem failed_save_changes_nothing (s : state) (filename : option string) :
  writable (disk s) (Gemma.pick_filename filename s) = false ->
  writable (disk s) (Phi.pick_filename filename s) = false ->
  Gemma.save_conversation filename s
  = ([PrintException "Error saving conversation: " OSError], s, Ok tt)
  /\ Phi.save filename s = ([PrintException "Save error: " OSError], s, Ok tt).
Proof.
  intros Hg Hp. split.
  - unfold Gemma.save_conversation, try_except, dump_to, mbind, get, lift,
      fs_write. rewrite Hg. now destruct (json_dump false (transcript s)).
  - unfold Phi.save, try_except, dump_to, mbind, get, lift, fs_write.
    rewrite Hp. now destruct (json_dump true (transcript s)).
Qed.

Lemma set_disk_same (s : state) : set_disk (disk s) s = s.
Proof. now destruct s. Qed.

(** X16.  A save changes nothing but the one file it names: the session
    is as before, every other file is as before, and the named file,
    when it can be opened for writing, holds what [json.dump] wrote into
    it: the whole document when the dump returned, the pieces written
    before the failure when it raised.  A file that cannot be opened is
    as before. *)
Theorem save_touches_one_file (s : state) (filename : option string) :
  (exists fs,
      state_after (Gemma.save_conversation filename s) = set_disk fs s
      /\ (forall p, p <> Gemma.pick_filename filename s ->
                    file_at fs p = file_at (disk s) p)
      /\ file_at fs (Gemma.pick_filename filename s)
         = if writable (disk s) (Gemma.pick_filename filename s)
           then Some (fst (json_dump false (transcript s)))
           else file_at (disk s) (Gemma.pick_filename filename s))
  /\ (exists fs,
         state_after (Phi.save filename s) = set_disk fs s
         /\ (forall p, p <> Phi.pick_filename filename s ->
                       file_at fs p = file_at (disk s) p)
         /\ file_at fs (Phi.pick_filename filename s)
            = if writable (disk s) (Phi.pick_filename filename s)
              then Some (fst (json_dump true (transcript s)))
              else file_at (disk s) (Phi.pick_filename filename s)).
Proof.
  split.
  - unfold Gemma.save_conversation, try_except, dump_to, mbind, get, lift,
      fs_write, modify, raise, ret.
    destruct (json_dump false (transcript s)) as [text [e|]] eqn:E;
      (destruct (writable (disk s) (Gemma.pick_filename filename s));
       [ rewrite ?(json_dump_raises _ _ _ _ E); eexists; split; [reflexivity|]; split;
         [ intros p Hp; apply String.eqb_neq in Hp; cbn [file_at];
           now rewrite Hp
         | cbn [file_at fst]; now rewrite String.eqb_refl ]
       | exists (disk s); now rewrite set_disk_same ]).
  - unfold Phi.save, try_except, dump_to, mbind, get, lift, fs_write, modify,
      raise, ret.
    destruct (json_dump true (transcript s)) as [text [e|]] eqn:E;
      (destruct (writable (disk s) (Phi.pick_filename filename s));
       [ rewrite ?(json_dump_raises _ _ _ _ E); eexists; split; [reflexivity|]; split;
         [ intros p Hp; apply String.eqb_neq in Hp; cbn [file_at];
           now rewrite Hp
         | cbn [file_at fst]; now rewrite String.eqb_refl ]
       | exists (disk s); now rewrite set_disk_same ]).
Qed.

End SaveFacts.

(** A save onto a disk that cannot be written. *)
Lemma failed_save_changes_nothing_witness :
  let s := set_disk read_only_disk greeted in
  Gemma.save_conversation (Some "t.json") s
  = ([PrintException "Error saving conversation: " OSError], s, Ok tt)
  /\ Phi.save (Some "t.json") s
     = ([PrintException "Save error: " OSError], s, Ok tt).
Proof.
  apply (failed_save_changes_nothing (set_disk read_only_disk greeted)
           (Some "t.json"));
    reflexivity.
Defined.

(** ** A whole run *)

Section RunFacts.
Context {J : JsonLib}.

Lemma check_connection_unreachable r s :
  unreachable r -> check_connection r s = ([], s, Ok false).
Proof.
  unfold check_connection. destruct r as [e|status names]; cbn; intros H.
  - now rewrite H.
  - apply Z.eqb_neq in H. unfold ret. now rewrite H.
Qed.

(** X19.  When the connection check fails, with a requests exception or
    a status other than 200, the run reports it and returns at once: the
    models are not asked for, no input is read, nothing is changed and
    nothing is saved. *)
Theorem unreachable_service_ends_run (e : session) (s : state) :
  unreachable (probe e) ->
  Gemma.run_session e s
  = ([Print CSystem "Connecting to Ollama service...";
      Print CError ("Error: Cannot connect to Ollama at " ++ base_url s);
      Print CError "Please check:";
      Print CError "1. EC2 instance is running";
      Print CError "2. Ollama service is started";
      Print CError "3. Security group allows port 11434";
      Print CError "4. Host/IP address is correct"],
     s, Ok Returned)
  /\ Phi.run_session e s
     = ([Print CSystem "Connecting to Ollama...";
         Print CError ("Cannot connect: " ++ base_url s)],
        s, Ok Returned).
Proof.
  intros H. split.
  - unfold Gemma.run_session, Gemma.startup.
    unfold mbind at 1. unfold mbind at 1. cbn [say].
    unfold mbind at 1. now rewrite (check_connection_unreachable _ s H).
  - unfold Phi.run_session, Phi.startup.
    unfold mbind at 1. unfold mbind at 1. cbn [say].
    unfold mbind at 1. now rewrite (check_connection_unreachable _ s H).
Qed.

Lemma str_in_head first rest : str_in first (first :: rest) = true.
Proof. unfold str_in. cbn [existsb]. now rewrite String.eqb_refl. Qed.

(** X20.  When the service is reached and lists models, the model of the
    session behind the start of a run is one of the listed ones: the
    configured model when it is listed, the first of the list otherwise. *)
Theorem startup_selects_listed_model
    (s : state) (probed listed : list string) :
  listed <> [] ->
  let chosen := if str_in (model s) listed then model s
                else hd (model s) listed in
  str_in chosen listed = true
  /\ state_after (Gemma.startup (Tags 200 probed) (Tags 200 listed) s)
     = set_model chosen s
  /\ state_after (Phi.startup (Tags 200 probed) (Tags 200 listed) s)
     = set_model chosen s.
Proof.
  intros Hl chosen. subst chosen.
  destruct listed as [|first rest]; [contradiction|]. cbn [hd].
  assert (Hs : set_model (model s) s = s) by now destruct s.
  destruct (str_in (model s) (first :: rest)) eqn:E.
  - split; [exact E|]. rewrite Hs.
    unfold Gemma.startup, Phi.startup, check_connection,
      get_available_models, mbind, say, says, ret, get, modify, state_after.
    cbn [Z.eqb Pos.eqb negb fst snd]. rewrite E. now split.
  - split; [apply str_in_head|].
    unfold Gemma.startup, Phi.startup, check_connection,
      get_available_models, mbind, say, says, ret, get, modify, state_after.
    cbn [Z.eqb Pos.eqb negb fst snd]. rewrite E. now split.
Qed.

(** X21.  Behind the turn loop nothing is asked and nothing is saved
    when the log is empty, and nothing is saved when the answer to the
    question, stripped and in lower case, is neither [y] nor [yes]. *)
Theorem exit_without_saving (s : state) (k : keyboard) :
  truthy (conversation_history s) = false
  \/ (exists answer, k = Typed answer /\ wants_save answer = false) ->
  Gemma.save_on_exit k s = ([], s, Ok Returned)
  /\ Phi.save_on_exit k s = ([], s, Ok Returned).
Proof.
  unfold Gemma.save_on_exit, Phi.save_on_exit.
  unfold mbind at 1. unfold mbind at 2. cbn [get].
  intros [H|(answer & -> & H)].
  - now rewrite H.
  - destruct (truthy (conversation_history s)); [|now split].
    unfold mbind. now rewrite H.
Qed.

End RunFacts.

(** A run against a service that refuses the connection. *)
Lemma unreachable_service_ends_run_witness :
  let s := fresh "gemma2:9b" false in
  Gemma.run_session no_service s
  = ([Print CSystem "Connecting to Ollama service...";
      Print CError "Error: Cannot connect to Ollama at http://localhost:11434";
      Print CError "Please check:";
      Print CError "1. EC2 instance is running";
      Print CError "2. Ollama service is started";
      Print CError "3. Security group allows port 11434";
      Print CError "4. Host/IP address is correct"],
     s, Ok Returned)
  /\ Phi.run_session no_service s
     = ([Print CSystem "Connecting to Ollama...";
         Print CError "Cannot connect: http://localhost:11434"],
        s, Ok Returned).
Proof.
  apply (unreachable_service_ends_run no_service (fresh "gemma2:9b" false)).
  reflexivity.
Defined.

(** A session configured for a model the service does not list. *)
Lemma startup_selects_listed_model_witness :
  let s := fresh "gemma2:9b" false in
  let listed := ["phi4-mini:3.8b"; "gemma2:2b"] in
  str_in "phi4-mini:3.8b" listed = true
  /\ state_after (Gemma.startup (Tags 200 listed) (Tags 200 listed) s)
     = set_model "phi4-mini:3.8b" s
  /\ state_after (Phi.startup (Tags 200 listed) (Tags 200 listed) s)
     = set_model "phi4-mini:3.8b" s.
Proof.
  apply (startup_selects_listed_model (fresh "gemma2:9b" false)
           ["phi4-mini:3.8b"; "gemma2:2b"] ["phi4-mini:3.8b"; "gemma2:2b"]).
  discriminate.
Defined.

(** The answer [n] to the question whether to save. *)
Lemma exit_without_saving_witness :
  Gemma.save_on_exit (Typed "n") greeted = ([], greeted, Ok Returned)
  /\ Phi.save_on_exit (Typed "n") greeted = ([], greeted, Ok Returned).
Proof.
  apply (exit_without_saving greeted (Typed "n")).
  right. exists "n". split; reflexivity.
Defined.

(** ** What a round leaves alone *)

Lemma preserves_of_keeps {A X} (f : state -> X) (m : M A) :
  keeps_state m -> preserves f m.
Proof. intros H s. now rewrite H. Qed.

Lemma preserves_mbind {A B X} (f : state -> X) (m : M A) (k : A -> M B) :
  preserves f m -> (forall a, preserves f (k a)) -> preserves f (mbind m k).
Proof.
  intros Hm Hk s. rewrite state_after_mbind.
  destruct (result_of (m s)) as [a|e]; [|apply Hm].
  rewrite Hk. apply Hm.
Qed.

Lemma preserves_try_except {A X} (f : state -> X) (m : M A) handled
      (h : exn -> M A) :
  preserves f m -> (forall e, preserves f (h e)) ->
  preserves f (try_except m handled h).
Proof.
  intros Hm Hh s. rewrite state_after_try_except.
  destruct (result_of (m s)) as [a|e]; [apply Hm|].
  destruct (handled e); [|apply Hm].
  rewrite Hh. apply Hm.
Qed.

Lemma preserves_modify {X} (f : state -> X) (g : state -> state) :
  (forall s, f (g s) = f s) -> preserves f (modify g).
Proof. intros H s. apply H. Qed.

Ltac preserves :=
  repeat first
    [ apply preserves_of_keeps; solve [auto with keeps]
    | apply preserves_modify; intros ?; solve [auto]
    | apply preserves_mbind; [|intros ?]
    | apply preserves_try_except; [|intros ?]
    | match goal with
      | |- preserves _ (match ?x with _ => _ end) => destruct x
      | |- preserves _ (if ?x then _ else _) => destruct x
      | |- preserves _ (let (_, _) := ?x in _) => destruct x
      end ].

Lemma hd_map_lower (l : list string) : hd "" (map lower l) = lower (hd "" l).
Proof. now destruct l. Qed.

Section Frames.
Context {J : JsonLib} {X : Type}.
Variable f : state -> X.
Hypothesis f_history : forall h s, f (set_history h s) = f s.
Hypothesis f_streaming : forall b s, f (set_streaming b s) = f s.

Lemma gemma_prompt_preserves t line :
  typed t = Typed line ->
  prompt_line line = true ->
  preserves f (Gemma.loop_body t).
Proof.
  intros Ht Hp. destruct (prompt_line_inv line Hp) as [Hne Hslash].
  unfold Gemma.loop_body. rewrite Ht, Hne, Hslash.
  pose proof keeps_gemma_stream_message.
  pose proof keeps_gemma_send_message.
  unfold append_message. preserves.
Qed.

Lemma phi_prompt_preserves t line :
  typed t = Typed line ->
  prompt_line line = true ->
  preserves f (Phi.loop_body t).
Proof.
  intros Ht Hp. destruct (prompt_line_inv line Hp) as [Hne Hslash].
  unfold Phi.loop_body. rewrite Ht, Hne, Hslash.
  pose proof keeps_phi_stream_message.
  pose proof keeps_phi_send_message.
  unfold append_message. preserves.
Qed.

Lemma gemma_command_preserves t line p0 args :
  typed t = Typed line ->
  command_words line = p0 :: args ->
  (forall m s, f (set_model m s) = f s)
  \/ ((lower p0 =? "/model") && negb (List.length args =? 0)%nat) = false ->
  (forall fs s, f (set_disk fs s) = f s) \/ (lower p0 =? "/save") = false ->
  preserves f (Gemma.loop_body t).
Proof.
  intros Ht Hw Hm Hd.
  destruct (command_words_inv _ _ _ Hw) as (Hne & Hslash & Hsplit & Hlower).
  unfold Gemma.loop_body. rewrite Ht, Hne, Hslash.
  unfold Gemma.run_command. rewrite Hlower, length_map.
  pose proof keeps_gemma_show_history.
  pose proof keeps_get_available_models.
  unfold Gemma.save_conversation, Gemma.load_conversation, Gemma.show_help,
    Gemma.show_stats, dump_to, load_from.
  destruct Hm as [Hm|Hm]; [|rewrite Hm];
    (destruct Hd as [Hd|Hd]; [|rewrite Hd]);
    cbv zeta; preserves.
Qed.

Lemma phi_command_preserves t line p0 args :
  typed t = Typed line ->
  command_words line = p0 :: args ->
  (forall m s, f (set_model m s) = f s)
  \/ ((lower p0 =? "/model") && negb (List.length args =? 0)%nat) = false ->
  (forall fs s, f (set_disk fs s) = f s) \/ (lower p0 =? "/save") = false ->
  preserves f (Phi.loop_body t).
Proof.
  intros Ht Hw Hm Hd.
  destruct (command_words_inv _ _ _ Hw) as (Hne & Hslash & Hsplit & Hlower).
  unfold Phi.loop_body. rewrite Ht, Hne, Hslash.
  unfold Phi.run_command. rewrite Hsplit.
  pose proof keeps_phi_history.
  pose proof keeps_get_available_models.
  unfold Phi.save, Phi.load, Phi.help, Phi.stats, dump_to, load_from.
  cbv zeta.
  destruct Hm as [Hm|Hm]; [|rewrite Hm];
    (destruct Hd as [Hd|Hd]; [|rewrite Hd]);
    preserves.
Qed.

(** A line that is neither a prompt nor a command with a word: a blank
    line. *)
Lemma gemma_blank_preserves t line :
  typed t = Typed line ->
  prompt_line line = false ->
  command_words line = [] ->
  preserves f (Gemma.loop_body t).
Proof.
  unfold prompt_line, command_words, Gemma.loop_body. intros -> Hp Hw.
  destruct (strip line =? ""); [preserves|].
  destruct (startswith "/" (strip line)); [|discriminate Hp].
  unfold Gemma.run_command. rewrite split_lower, Hw. preserves.
Qed.

Lemma phi_blank_preserves t line :
  typed t = Typed line ->
  prompt_line line = false ->
  command_words line = [] ->
  preserves f (Phi.loop_body t).
Proof.
  unfold prompt_line, command_words, Phi.loop_body. intros -> Hp Hw.
  destruct (strip line =? ""); [preserves|].
  destruct (startswith "/" (strip line)); [|discriminate Hp].
  unfold Phi.run_command. rewrite Hw. preserves.
Qed.

Lemma model_guard t p0 args line :
  typed t = Typed line ->
  command_words line = p0 :: args ->
  (forall m s, f (set_model m s) = f s)
  \/ (forall line p0 name rest,
        typed t = Typed line -> command_words line = p0 :: name :: rest ->
        lower p0 <> "/model") ->
  (forall m s, f (set_model m s) = f s)
  \/ ((lower p0 =? "/model") && negb (List.length args =? 0)%nat) = false.
Proof.
  intros Ht Hw [Hm|Hm]; [now left|right].
  destruct (lower p0 =? "/model") eqn:E; [|reflexivity].
  destruct args as [|name rest]; [reflexivity|].
  apply String.eqb_eq in E. now destruct (Hm line p0 name rest Ht Hw).
Qed.

Lemma save_guard t p0 args line :
  typed t = Typed line ->
  command_words line = p0 :: args ->
  (forall fs s, f (set_disk fs s) = f s)
  \/ (forall line p0 args,
        typed t = Typed line -> command_words line = p0 :: args ->
        lower p0 <> "/save") ->
  (forall fs s, f (set_disk fs s) = f s) \/ (lower p0 =? "/save") = false.
Proof.
  intros Ht Hw [Hd|Hd]; [now left|right].
  apply String.eqb_neq. exact (Hd line p0 args Ht Hw).
Qed.

(** A round leaves [f] as it is, unless it is a [/model] command with a
    name and [f] looks at the model, or a [/save] command and [f] looks
    at the disk. *)
Lemma rounds_preserve t :
  (forall m s, f (set_model m s) = f s)
  \/ (forall line p0 name rest,
        typed t = Typed line -> command_words line = p0 :: name :: rest ->
        lower p0 <> "/model") ->
  (forall fs s, f (set_disk fs s) = f s)
  \/ (forall line p0 args,
        typed t = Typed line -> command_words line = p0 :: args ->
        lower p0 <> "/save") ->
  preserves f (Gemma.round t) /\ preserves f (Phi.round t).
Proof.
  intros Hm Hd.
  enough (P : preserves f (Gemma.loop_body t)
              /\ preserves f (Phi.loop_body t)).
  { split; intros s; [rewrite gemma_round_state|rewrite phi_round_state];
      apply P. }
  case_eq (typed t); [intros line Ht|intros Ht|intros Ht].
  - destruct (prompt_line line) eqn:Hp.
    { split; [now apply (gemma_prompt_preserves t line)
             |now apply (phi_prompt_preserves t line)]. }
    destruct (command_words line) as [|p0 args] eqn:Hw.
    { split; [now apply (gemma_blank_preserves t line)
             |now apply (phi_blank_preserves t line)]. }
    pose proof (model_guard t p0 args line Ht Hw Hm) as Gm.
    pose proof (save_guard t p0 args line Ht Hw Hd) as Gd.
    split; [now apply (gemma_command_preserves t line p0 args)
           |now apply (phi_command_preserves t line p0 args)].
  - unfold Gemma.loop_body, Phi.loop_body. rewrite Ht. split; preserves.
  - unfold Gemma.loop_body, Phi.loop_body. rewrite Ht. split; preserves.
Qed.

Lemma run_loop_preserves (round : turn -> M loop_flow) :
  (forall t, preserves f (round t)) ->
  forall ts, preserves f (run_loop round ts).
Proof.
  intros H ts. induction ts as [|t rest IH]; cbn [run_loop]; [preserves|].
  apply preserves_mbind; [apply H|]. intros [|]; [apply IH|preserves].
Qed.

Lemma keeps_check_connection r : keeps_state (check_connection r).
Proof. unfold check_connection. keeps. Qed.

Lemma runs_preserve e :
  (forall m s, f (set_model m s) = f s) ->
  (forall fs s, f (set_disk fs s) = f s) ->
  preserves f (Gemma.run_session e) /\ preserves f (Phi.run_session e).
Proof.
  intros Hm Hd.
  pose proof keeps_check_connection.
  pose proof keeps_get_available_models.
  assert (Hg : forall ts, preserves f (Gemma.run_interactive ts)).
  { apply run_loop_preserves. intros t. now apply rounds_preserve; left. }
  assert (Hp : forall ts, preserves f (Phi.run ts)).
  { apply run_loop_preserves. intros t. now apply rounds_preserve; left. }
  split.
  - unfold Gemma.run_session, Gemma.startup, Gemma.save_on_exit,
      Gemma.save_conversation, dump_to.
    apply preserves_mbind; [preserves|]. intros [|]; [|preserves].
    apply preserves_mbind; [preserves|]. intros _.
    apply preserves_mbind; [apply Hg|]. intros [|]; preserves.
  - unfold Phi.run_session, Phi.startup, Phi.save_on_exit, Phi.save, dump_to.
    apply preserves_mbind; [preserves|]. intros [|]; [|preserves].
    apply preserves_mbind; [preserves|]. intros _.
    apply preserves_mbind; [apply Hp|]. intros [|]; preserves.
Qed.

End Frames.

Section FrameFacts.
Context {J : JsonLib}.

(** X22.  Host, port and session start are the same behind a run as
    before it, whatever is typed and whatever the service and the disk
    do: no step of the start, no round and no save changes them. *)
Theorem run_keeps_origin (e : session) (s : state) :
  origin (state_after (Gemma.run_session e s)) = origin s
  /\ origin (state_after (Phi.run_session e s)) = origin s.
Proof.
  split; now apply (runs_preserve origin).
Qed.

(** X23.  A round in which no [/save] command is typed leaves the disk
    as it is: a prompt, its reply and every other command write no
    file. *)
Theorem only_save_writes_to_disk (s : state) (t : turn) :
  (forall line p0 args,
      typed t = Typed line -> command_words line = p0 :: args ->
      lower p0 <> "/save") ->
  disk (state_after (Gemma.round t s)) = disk s
  /\ disk (state_after (Phi.round t s)) = disk s.
Proof.
  intros H.
  split; apply (rounds_preserve disk); auto.
Qed.

(** X24.  A round changes the model only to a name that the service
    lists in that round, with status 200; in every other case the model
    is the one of before. *)
Theorem model_changes_to_listed_only (s : state) (t : turn) :
  (model (state_after (Gemma.round t s)) = model s
   \/ exists names,
        tags t = Tags 200 names
        /\ str_in (model (state_after (Gemma.round t s))) names = true)
  /\ (model (state_after (Phi.round t s)) = model s
      \/ exists names,
           tags t = Tags 200 names
           /\ str_in (model (state_after (Phi.round t s))) names = true).
Proof.
  assert (C : (forall line p0 name rest,
                  typed t = Typed line ->
                  command_words line = p0 :: name :: rest ->
                  lower p0 <> "/model")
              \/ exists line p0 name rest,
                   typed t = Typed line
                   /\ command_words line = p0 :: name :: rest
                   /\ lower p0 = "/model").
  { destruct (typed t) as [line| |]; try (left; discriminate).
    destruct (command_words line) as [|p0 [|name rest]] eqn:Hw;
      try (left; intros ? ? ? ? [= <-]; rewrite Hw; discriminate).
    destruct (lower p0 =? "/model") eqn:E.
    - right. apply String.eqb_eq in E. now exists line, p0, name, rest.
    - left. intros ? ? ? ? [= <-]. rewrite Hw. intros [= <- <- <-].
      now apply String.eqb_neq. }
  destruct C as [C|(line & p0 & name & rest & Ht & Hw & Hm)].
  - destruct (rounds_preserve model (fun _ _ => eq_refl) (fun _ _ => eq_refl)
                t (or_intror C) (or_introl (fun _ _ => eq_refl))) as [G P].
    split; left; [apply G|apply P].
  - destruct (command_words_inv _ _ _ Hw) as (Hne & Hslash & Hsplit & Hlower).
    rewrite Hm in Hlower.
    destruct (tags t) as [e|status names] eqn:Htags.
    + split; left.
      * rewrite gemma_round_state.
        unfold Gemma.loop_body. rewrite Ht, Hne, Hslash.
        unfold Gemma.run_command. rewrite Hlower, Htags.
        cbn -[str_in String.append].
        unfold mbind, raise.
        destruct (is_request_exception e); reflexivity.
      * rewrite phi_round_state.
        unfold Phi.loop_body. rewrite Ht, Hne, Hslash.
        unfold Phi.run_command. rewrite Hsplit, Hm, Htags.
        cbn -[str_in String.append].
        unfold mbind, raise.
        destruct (is_request_exception e); reflexivity.
    + pose proof (gemma_model_command s t line (lower name) (map lower rest)
                    status names Ht Hslash Hlower Htags) as G.
      pose proof (phi_model_command s t line p0 name rest status names
                    Ht Hslash Hsplit Hm Htags) as P.
      cbv zeta in G, P. rewrite G, P.
      destruct (status =? 200)%Z eqn:E200.
      * apply Z.eqb_eq in E200. subst status. split.
        -- destruct (str_in (lower name) names) eqn:En;
             [right; exists names; now split|now left].
        -- destruct (str_in name names) eqn:En;
             [right; exists names; now split|now left].
      * split; now left.
Qed.

End FrameFacts.

(** A prompt answered in complete mode writes no file. *)
Lemma only_save_writes_to_disk_witness :
  let t := typing "How are you?" [] answered in
  disk (state_after (Gemma.round t greeted)) = disk greeted
  /\ disk (state_after (Phi.round t greeted)) = disk greeted.
Proof.
  apply (only_save_writes_to_disk greeted (typing "How are you?" [] answered)).
  intros line p0 args [= <-]. discriminate.
Defined.

(** ** More on the stream and on file names *)

Section GrowingOutput.
Context {J : JsonLib}.
Variable dd : pyval.

(** X25.  What the decoding loop has printed when a stream is cut off
    is the beginning of what it prints when more of the stream arrives:
    the fragments of the chunks received so far do not depend on the
    chunks that follow. *)
Theorem printed_fragments_grow
    (chunks more : list bytes) (msg : string) (fin : stream_end) :
  exists rest,
    fst (decode dd (chunks ++ more) fin)
    = fst (decode dd chunks (Dropped msg)) ++ rest.
Proof.
  rewrite !decode_scan, concat_app. unfold after_chunks.
  rewrite closed_runs_app, handle_lines_app.
  destruct (handle_lines dd (closed_runs [] (List.concat chunks)))
    as [out [| |e]].
  - destruct (handle_lines dd _) as [out1 [| |e1]].
    + destruct fin as [|msg'].
      * destruct (handle_lines dd _) as [out2 f2]. cbn [fst].
        exists (out1 ++ out2). now rewrite app_assoc.
      * now exists out1.
    + now exists out1.
    + now exists out1.
  - exists []. now rewrite app_nil_r.
  - exists []. now rewrite app_nil_r.
Qed.

End GrowingOutput.

Section FileNames.
Context {J : JsonLib}.

Lemma gemma_save_returns filename s :
  result_of (Gemma.save_conversation filename s) = Ok tt.
Proof.
  unfold Gemma.save_conversation, try_except, dump_to, mbind, get, lift,
    fs_write, modify, raise, ret.
  destruct (json_dump false (transcript s)) as [text [e|]] eqn:E;
    destruct (writable (disk s) (Gemma.pick_filename filename s));
    rewrite ?(json_dump_raises _ _ _ _ E); reflexivity.
Qed.

Lemma phi_save_returns filename s :
  result_of (Phi.save filename s) = Ok tt.
Proof.
  unfold Phi.save, try_except, dump_to, mbind, get, lift, fs_write, modify,
    raise, ret.
  destruct (json_dump true (transcript s)) as [text [e|]] eqn:E;
    destruct (writable (disk s) (Phi.pick_filename filename s));
    rewrite ?(json_dump_raises _ _ _ _ E); reflexivity.
Qed.

(** X26.  The file name typed behind [/save] is taken in lower case by
    [GemmaChat], which lower-cases the whole line, and as it was typed by
    [PhiChat]: the round does what a save under that name does, and goes
    on. *)
Theorem saved_file_name_case
    (s : state) (t : turn) (line p0 name : string) (rest : list string) :
  typed t = Typed line ->
  command_words line = p0 :: name :: rest ->
  lower p0 = "/save" ->
  Gemma.round t s
  = (printed_by (Gemma.save_conversation (Some (lower name)) s),
     state_after (Gemma.save_conversation (Some (lower name)) s), Ok Again)
  /\ Phi.round t s
     = (printed_by (Phi.save (Some name) s),
        state_after (Phi.save (Some name) s), Ok Again).
Proof.
  intros Ht Hw Hs.
  destruct (command_words_inv _ _ _ Hw) as (Hne & Hslash & Hsplit & Hlower).
  rewrite Hs in Hlower. split.
  - pose proof (gemma_save_returns (Some (lower name)) s) as R.
    unfold Gemma.round, Gemma.loop_body. rewrite Ht, Hne, Hslash.
    unfold Gemma.run_command. rewrite Hlower.
    cbn -[Gemma.save_conversation]. unfold try_except, mbind.
    destruct (Gemma.save_conversation (Some (lower name)) s)
      as [[out s'] [[]|e]]; [|discriminate R].
    cbn. now rewrite app_nil_r.
  - pose proof (phi_save_returns (Some name) s) as R.
    unfold Phi.round, Phi.loop_body, try_except. rewrite Ht, Hne, Hslash.
    unfold Phi.run_command. rewrite Hsplit. cbv zeta. rewrite Hs.
    cbn -[Phi.save]. unfold mbind.
    destruct (Phi.save (Some name) s) as [[out s'] [[]|e]];
      [|discriminate R].
    cbn. now rewrite app_nil_r.
Qed.

Lemma gemma_load_returns filename s :
  exists ok, result_of (Gemma.load_conversation filename s) = Ok ok.
Proof.
  unfold Gemma.load_conversation, try_except, load_from, mbind, get, lift,
    fs_read, modify, say, ret.
  destruct (file_at (disk s) filename) as [text|]; [|now eexists].
  destruct (json_loads text) as [data|e] eqn:E;
    [|rewrite (json_loads_raises _ _ E); now eexists].
  destruct (py_get data "conversation" (PList [])) as [h|e] eqn:G;
    [|destruct data; try discriminate G; injection G as <-; now eexists].
  destruct (py_len h) as [n|e] eqn:L; [now eexists|].
  destruct h; try discriminate L; injection L as <-; now eexists.
Qed.

Lemma phi_load_returns filename s :
  result_of (Phi.load filename s) = Ok tt.
Proof.
  unfold Phi.load, try_except, load_from, mbind, get, lift, fs_read, modify,
    say, ret.
  destruct (file_at (disk s) filename) as [text|]; [|reflexivity].
  destruct (json_loads text) as [data|e] eqn:E;
    [|now rewrite (json_loads_raises _ _ E)].
  destruct (py_get data "conversation" (PList [])) as [h|e] eqn:G;
    [|destruct data; try discriminate G; now injection G as <-].
  destruct (py_len h) as [n|e] eqn:L; [reflexivity|].
  destruct h; try discriminate L; now injection L as <-.
Qed.

(** X27.  The file name typed behind [/load] is taken in lower case by
    [GemmaChat] and as it was typed by [PhiChat]: the round does what a
    load of that file does, and goes on whether the load succeeds or
    not. *)
Theorem loaded_file_name_case
    (s : state) (t : turn) (line p0 name : string) (rest : list string) :
  typed t = Typed line ->
  command_words line = p0 :: name :: rest ->
  lower p0 = "/load" ->
  Gemma.round t s
  = (printed_by (Gemma.load_conversation (lower name) s),
     state_after (Gemma.load_conversation (lower name) s), Ok Again)
  /\ Phi.round t s
     = (printed_by (Phi.load name s), state_after (Phi.load name s), Ok Again).
Proof.
  intros Ht Hw Hs.
  destruct (command_words_inv _ _ _ Hw) as (Hne & Hslash & Hsplit & Hlower).
  rewrite Hs in Hlower. split.
  - destruct (gemma_load_returns (lower name) s) as [ok R].
    unfold Gemma.round, Gemma.loop_body. rewrite Ht, Hne, Hslash.
    unfold Gemma.run_command. rewrite Hlower.
    cbn -[Gemma.load_conversation]. unfold try_except at 1, mbind.
    destruct (Gemma.load_conversation (lower name) s)
      as [[out s'] [ok'|e]]; [|discriminate R].
    cbn. now rewrite app_nil_r.
  - pose proof (phi_load_returns name s) as R.
    unfold Phi.round, Phi.loop_body, try_except. rewrite Ht, Hne, Hslash.
    unfold Phi.run_command. rewrite Hsplit. cbv zeta. rewrite Hs.
    cbn -[Phi.load]. unfold mbind.
    destruct (Phi.load name s) as [[out s'] [[]|e]]; [|discriminate R].
    cbn. now rewrite app_nil_r.
Qed.

End FileNames.

(** [/save Chat.JSON] in both controllers. *)
Lemma saved_file_name_case_witness :
  let t := typing "/save Chat.JSON" [] answered in
  Gemma.round t greeted
  = (printed_by (Gemma.save_conversation (Some "chat.json") greeted),
     state_after (Gemma.save_conversation (Some "chat.json") greeted),
     Ok Again)
  /\ Phi.round t greeted
     = (printed_by (Phi.save (Some "Chat.JSON") greeted),
        state_after (Phi.save (Some "Chat.JSON") greeted), Ok Again).
Proof.
  apply (saved_file_name_case greeted (typing "/save Chat.JSON" [] answered)
           "/save Chat.JSON" "/save" "Chat.JSON" []);
    reflexivity.
Defined.

(** [/load Chat.JSON] in both controllers. *)
Lemma loaded_file_name_case_witness :
  let t := typing "/load Chat.JSON" [] answered in
  Gemma.round t greeted
  = (printed_by (Gemma.load_conversation "chat.json" greeted),
     state_after (Gemma.load_conversation "chat.json" greeted), Ok Again)
  /\ Phi.round t greeted
     = (printed_by (Phi.load "Chat.JSON" greeted),
        state_after (Phi.load "Chat.JSON" greeted), Ok Again).
Proof.
  apply (loaded_file_name_case greeted (typing "/load Chat.JSON" [] answered)
           "/load Chat.JSON" "/load" "Chat.JSON" []);
    reflexivity.
Defined.
